(** * Thermal tyre driver: the detection pipeline and its output boundary

    A shallow embedding of the C sources under [pico/c_version]:
    - [test_mlx_with_detection.c]: the MAD-based detection pipeline with
      temporal smoothing, geometry/temporal constraints and persistence;
    - [thermal_algorithm.c]: the earlier, simpler algorithm used by [main.c];
    - [communication.c] and [i2c_slave.c]: serial records and the register map.

    C [float] is IEEE-754 binary32, modelled with the standard library's
    [spec_float] at precision 24 and maximal exponent 128 (round to nearest,
    ties to even).  C [int] values are modelled in [Z]; all the integer
    arithmetic of the pipeline stays far inside the 32-bit range.  Arrays are
    lists, read with [nth] and written with stdpp's list insert. *)

From Stdlib Require Import ZArith List Bool Lia.
From Stdlib Require Import Floats.SpecFloat.
From stdpp Require Import base option list.

Open Scope Z_scope.

(* ================================================================== *)
(** ** Binary32 arithmetic *)
(* ================================================================== *)

Module F32.

Definition prec : Z := 24.
Definition emax : Z := 128.

Definition float := spec_float.

Definition fadd : float -> float -> float := SFadd prec emax.
Definition fsub : float -> float -> float := SFsub prec emax.
Definition fmul : float -> float -> float := SFmul prec emax.
Definition fdiv : float -> float -> float := SFdiv prec emax.
Definition sqrtf : float -> float := SFsqrt prec emax.
Definition fabsf : float -> float := SFabs.

(** The four C comparison operators; each is false when an operand is NaN. *)
Definition flt (a b : float) : bool := SFltb a b.
Definition fle (a b : float) : bool := SFleb a b.
Definition fgt (a b : float) : bool := SFltb b a.
Definition fge (a b : float) : bool := SFleb b a.

Definition isnan (x : float) : bool :=
  match x with S754_nan => true | _ => false end.

Definition isfinite (x : float) : bool :=
  match x with
  | S754_zero _ | S754_finite _ _ _ => true
  | S754_infinity _ | S754_nan => false
  end.

(** [fmaxf] and [fminf] return the other operand when one is NaN. *)
Definition fmaxf (x y : float) : float :=
  if isnan x then y else if isnan y then x else if flt x y then y else x.
Definition fminf (x y : float) : float :=
  if isnan x then y else if isnan y then x else if flt y x then y else x.

(** Conversion of a C integer to [float]. *)
Definition of_int (z : Z) : float := binary_normalize prec emax z 0 false.

(** A decimal literal [num/den] with the [f] suffix: the nearest binary32
    value, obtained by one correctly rounded division of two exactly
    representable integers. *)
Definition lit (num den : Z) : float := fdiv (of_int num) (of_int den).

Definition zero : float := S754_zero false.

(** Conversion of a [float] to an integer type truncates toward zero; C
    leaves it undefined for NaN and the infinities, and when the truncated
    value does not fit the target type. *)
Definition truncate (x : float) : option Z :=
  match x with
  | S754_zero _ => Some 0
  | S754_finite s m e => Some (cond_Zopp s (Z.shiftl (Zpos m) e))
  | S754_infinity _ | S754_nan => None
  end.

Definition cast_range (lo hi : Z) (x : float) : option Z :=
  match truncate x with
  | Some z => if (lo <=? z) && (z <=? hi) then Some z else None
  | None => None
  end.

Definition cast_int : float -> option Z := cast_range (-2147483648) 2147483647.
Definition cast_int16 : float -> option Z := cast_range (-32768) 32767.
Definition cast_uint8 : float -> option Z := cast_range 0 255.

(** The [(int)] conversions of the stabilizer only ever see small finite
    values; there the undefined cases are given the value 0. *)
Definition to_int (x : float) : Z := default 0 (cast_int x).

(** Array read; C leaves reads outside the array undefined, the model
    returns [+0] there. *)
Definition aget (a : list float) (i : nat) : float := nth i a zero.

End F32.

Import F32.

(* ================================================================== *)
(** ** The detection pipeline of [test_mlx_with_detection.c] *)
(* ================================================================== *)

Module Detect.

Definition SENSOR_WIDTH : Z := 32.
Definition SENSOR_HEIGHT : Z := 24.
Definition MIDDLE_ROWS : nat := 4.
Definition START_ROW : nat := 10.
(** [SENSOR_WIDTH] as an array length. *)
Definition WIDTH : nat := Z.to_nat SENSOR_WIDTH.

Record DetectionConfig := {
  min_temp : float;
  max_temp : float;
  brake_temp_threshold : float;
  mad_uniform_threshold : float;
  k_floor : float;
  k_multiplier : float;
  delta_floor : float;
  delta_multiplier : float;
  max_fail_count : Z;
  centre_col : Z;
  min_tyre_width : Z;
  max_tyre_width : Z;
  max_width_change_ratio : float;
  ema_alpha : float;
  persistence_frames : Z
}.

Definition config : DetectionConfig := {|
  min_temp := of_int 0;
  max_temp := of_int 180;
  brake_temp_threshold := of_int 180;
  mad_uniform_threshold := lit 5 10;
  k_floor := of_int 5;
  k_multiplier := of_int 2;
  delta_floor := of_int 3;
  delta_multiplier := lit 18 10;
  max_fail_count := 2;
  centre_col := 16;
  min_tyre_width := 6;
  max_tyre_width := 28;
  max_width_change_ratio := lit 3 10;
  ema_alpha := lit 3 10;
  persistence_frames := 2
|}.

(** The fields [min] and [max] of the C structure are [zmin] and [zmax]
    here. *)
Record ZoneStats := {
  avg : float;
  median : float;
  mad : float;
  zmin : float;
  zmax : float;
  range : float;
  std : float
}.

Record TyreData := {
  left : ZoneStats;
  centre : ZoneStats;
  right : ZoneStats;
  detected : Z;
  span_start : Z;
  span_end : Z;
  tyre_width : Z;
  confidence : float;
  lateral_gradient : float
}.

(** [prev_detections] is the [int[2][2]] history: two slots of (left, right). *)
Record TemporalState := {
  prev_profile : list float;
  prev_detections : list (Z * Z);
  prev_detection_count : Z;
  has_previous : bool
}.

(** [static TemporalState temporal_state = {0}]. *)
Definition temporal_state_init : TemporalState := {|
  prev_profile := replicate WIDTH zero;
  prev_detections := [(0, 0); (0, 0)];
  prev_detection_count := 0;
  has_previous := false
|}.

Definition slot (h : list (Z * Z)) (i : nat) : Z * Z := nth i h (0, 0).

(** *** Medians *)

(** One comparison of the in-place exchange sort:
    [if (arr[i] > arr[j]) swap_float(&arr[i], &arr[j])]. *)
Definition swap_if_gt (i : nat) (arr : list float) (j : nat) : list float :=
  if fgt (aget arr i) (aget arr j)
  then <[j := aget arr i]> (<[i := aget arr j]> arr)
  else arr.

Definition sort_inner (n : nat) (arr : list float) (i : nat) : list float :=
  fold_left (swap_if_gt i) (seq (i + 1) (n - (i + 1))) arr.

Definition sort_in_place (arr : list float) (n : nat) : list float :=
  fold_left (sort_inner n) (seq 0 (n - 1)) arr.

Definition quick_select_median (arr : list float) (n : nat) : float :=
  match n with
  | O => zero
  | 1%nat => aget arr 0
  | _ =>
    let arr' := sort_in_place arr n in
    if (n mod 2 =? 0)%nat
    then fdiv (fadd (aget arr' (n / 2 - 1)) (aget arr' (n / 2))) (of_int 2)
    else aget arr' (n / 2)
  end.

(** The size [SENSOR_WIDTH * MIDDLE_ROWS] of the scratch buffers. *)
Definition TEMP_CAP : nat := (Z.to_nat SENSOR_WIDTH * MIDDLE_ROWS)%nat.

Definition calculate_median (data : list float) (n : nat) : float :=
  let n := if (TEMP_CAP <? n)%nat then TEMP_CAP else n in
  quick_select_median (take n data) n.

Definition calculate_mad (data : list float) (n : nat) : float :=
  match n with
  | O => zero
  | _ =>
    let med := calculate_median data n in
    let n := if (TEMP_CAP <? n)%nat then TEMP_CAP else n in
    let deviations := map (fun x => fabsf (fsub x med)) (take n data) in
    let m := calculate_median deviations n in
    fmul m (lit 14826 10000)
  end.

Definition calculate_std (data : list float) (n : nat) : float :=
  match n with
  | O => zero
  | _ =>
    let sum := fold_left (fun s i => fadd s (aget data i)) (seq 0 n) zero in
    let mean := fdiv sum (of_int (Z.of_nat n)) in
    let sq_sum :=
      fold_left (fun s i => let diff := fsub (aget data i) mean in
                            fadd s (fmul diff diff)) (seq 0 n) zero in
    sqrtf (fdiv sq_sum (of_int (Z.of_nat n)))
  end.

(** *** Hot-pixel removal *)

(** The body of the loop of [remove_hot_pixels] at index [i]; the row is
    rewritten in place, so the left neighbour read at [i] is the one the
    loop has already processed. *)
Definition hot_pixel_step (width : nat) (row : list float) (i : nat) : list float :=
  if fgt (aget row i) (brake_temp_threshold config) then
    let n1 := if (0 <? i)%nat then [aget row (i - 1)] else [] in
    let n2 := if (Z.of_nat i <? Z.of_nat width - 1) then [aget row (i + 1)] else [] in
    let neighbors := n1 ++ n2 in
    let count := length neighbors in
    if (0 <? count)%nat
    then <[i := calculate_median neighbors count]> row
    else row
  else row.

Definition remove_hot_pixels (row : list float) (width : nat) : list float :=
  fold_left (hot_pixel_step width) (seq 0 width) row.

(** *** Spatial and temporal filters *)

Definition median_filter_3 (input : list float) (n : nat) : list float :=
  map (fun i =>
         if (i =? 0)%nat then
           calculate_median [aget input 0; aget input 1] 2
         else if (Z.of_nat i =? Z.of_nat n - 1) then
           calculate_median [aget input (n - 2); aget input (n - 1)] 2
         else
           calculate_median [aget input (i - 1); aget input i; aget input (i + 1)] 3)
      (seq 0 n).

(** One iteration of the smoothing loop: writes [output[i]] and
    [prev_profile[i]]. *)
Definition ema_step (current : list float) (acc : list float * list float) (i : nat)
  : list float * list float :=
  let '(output, prev) := acc in
  let v := fadd (fmul (ema_alpha config) (aget current i))
                (fmul (fsub (of_int 1) (ema_alpha config)) (aget prev i)) in
  (<[i := v]> output, <[i := v]> prev).

(** [apply_ema(current, output, n)]: returns the [output] buffer (given as
    [output0] on entry) and the new state. *)
Definition apply_ema (current output0 : list float) (n : nat) (st : TemporalState)
  : list float * TemporalState :=
  if negb (has_previous st) then
    (take n current ++ drop n output0,
     {| prev_profile := take n current ++ drop n (prev_profile st);
        prev_detections := prev_detections st;
        prev_detection_count := prev_detection_count st;
        has_previous := true |})
  else
    let '(output, prev) :=
      fold_left (ema_step current) (seq 0 n) (output0, prev_profile st) in
    (output,
     {| prev_profile := prev;
        prev_detections := prev_detections st;
        prev_detection_count := prev_detection_count st;
        has_previous := has_previous st |}).

(** *** Region growing *)

(** The dual criterion of [grow_region] for the column temperature [temp]:
    [within_k || global_ok]. *)
Definition column_ok (centre_temp k median_temp delta : float) (inverted : bool)
           (temp : float) : bool :=
  let within_k := fle (fabsf (fsub temp centre_temp)) k in
  let global_ok :=
    if inverted then fle temp (fsub median_temp delta)
    else fge temp (fadd median_temp delta) in
  within_k || global_ok.

(** One growth loop.  [cols] lists the columns in the order the loop visits
    them, [bound] is the boundary recorded so far ([left] or [right]) and
    [fail_count] the running counter; the [break] ends the scan. *)
Fixpoint grow_scan (ok : Z -> bool) (max_fail : Z) (cols : list Z)
         (bound fail_count : Z) : Z :=
  match cols with
  | [] => bound
  | i :: rest =>
    if ok i then grow_scan ok max_fail rest i 0
    else
      let fail_count := fail_count + 1 in
      if fail_count >? max_fail then bound
      else grow_scan ok max_fail rest bound fail_count
  end.

(** Columns visited by [for (i = centre - 1; i >= 0; i--)] and by
    [for (i = centre + 1; i < SENSOR_WIDTH; i++)]. *)
Definition cols_left (centre : Z) : list Z := rev (seqZ 0 centre).
Definition cols_right (centre : Z) : list Z :=
  seqZ (centre + 1) (SENSOR_WIDTH - (centre + 1)).

Record GrowParams := {
  g_centre_temp : float;
  g_delta : float;
  g_inverted : bool;
  g_k : float
}.

Definition grow_params (profile : list float) (median_temp mad_global : float)
  : GrowParams :=
  let centre := centre_col config in
  let centre_temp := aget profile (Z.to_nat centre) in
  let delta := fmaxf (delta_floor config) (fmul (delta_multiplier config) mad_global) in
  let inverted := flt centre_temp (fsub median_temp delta) in
  let local_start := if centre - 2 >=? 0 then centre - 2 else 0 in
  let local_end := if centre + 2 <? SENSOR_WIDTH then centre + 2 else SENSOR_WIDTH - 1 in
  let local_n := local_end - local_start + 1 in
  let local_mad :=
    calculate_mad (drop (Z.to_nat local_start) profile) (Z.to_nat local_n) in
  let k := fmaxf (k_floor config) (fmul (k_multiplier config) local_mad) in
  {| g_centre_temp := centre_temp; g_delta := delta;
     g_inverted := inverted; g_k := k |}.

Definition grow_ok (profile : list float) (median_temp : float) (p : GrowParams)
           (i : Z) : bool :=
  column_ok (g_centre_temp p) (g_k p) median_temp (g_delta p) (g_inverted p)
            (aget profile (Z.to_nat i)).

Definition grow_region (profile : list float) (median_temp mad_global : float)
  : Z * Z :=
  let centre := centre_col config in
  let p := grow_params profile median_temp mad_global in
  let ok := grow_ok profile median_temp p in
  let left := grow_scan ok (max_fail_count config) (cols_left centre) centre 0 in
  let right := grow_scan ok (max_fail_count config) (cols_right centre) centre 0 in
  (left, right).

(** *** The stabilizer *)

Definition clamp_span (s : Z * Z) : Z * Z :=
  let '(left, right) := s in
  let left := if left <? 0 then 0 else left in
  let right := if right >=? SENSOR_WIDTH then SENSOR_WIDTH - 1 else right in
  (left, right).

Definition apply_geometry_constraints (s : Z * Z) : Z * Z :=
  let '(left, right) := s in
  let width := right - left + 1 in
  let '(left, right) :=
    if width <? min_tyre_width config then
      let expand := (min_tyre_width config - width) ÷ 2 in
      let left := left - expand in
      let right := right + expand in
      let '(left, right) :=
        if left <? 0 then (0, right + - left) else (left, right) in
      if right >=? SENSOR_WIDTH
      then (left - (right - SENSOR_WIDTH + 1), SENSOR_WIDTH - 1)
      else (left, right)
    else (left, right) in
  let '(left, right) :=
    if width >? max_tyre_width config then
      let shrink := (width - max_tyre_width config) ÷ 2 in
      (left + shrink, right - shrink)
    else (left, right) in
  clamp_span (left, right).

Definition apply_temporal_constraints (st : TemporalState) (s : Z * Z) : Z * Z :=
  if prev_detection_count st =? 0 then s
  else
    let '(left, right) := s in
    let '(prev_left, prev_right) := slot (prev_detections st) 0 in
    let prev_width := prev_right - prev_left + 1 in
    let current_width := right - left + 1 in
    let max_change := fmul (of_int prev_width) (max_width_change_ratio config) in
    let '(left, right) :=
      if fgt (of_int current_width) (fadd (of_int prev_width) max_change) then
        let target_width := to_int (fadd (of_int prev_width) max_change) in
        let shrink := (current_width - target_width) ÷ 2 in
        (left + shrink, right - shrink)
      else (left, right) in
    let '(left, right) :=
      if flt (of_int current_width) (fsub (of_int prev_width) max_change) then
        let target_width := to_int (fsub (of_int prev_width) max_change) in
        let expand := (target_width - current_width) ÷ 2 in
        (left - expand, right + expand)
      else (left, right) in
    clamp_span (left, right).

Definition with_history (st : TemporalState) (h : list (Z * Z)) (count : Z)
  : TemporalState :=
  {| prev_profile := prev_profile st;
     prev_detections := h;
     prev_detection_count := count;
     has_previous := has_previous st |}.

(** [prev_detections[0] = prev_detections[1]; prev_detections[1] = s]. *)
Definition shift_in (h : list (Z * Z)) (s : Z * Z) : list (Z * Z) :=
  <[1%nat := s]> (<[0%nat := slot h 1]> h).

(** One step of the accumulation loop of [apply_persistence]. *)
Definition persist_step (h : list (Z * Z)) (acc : float * float * float) (i : Z)
  : float * float * float :=
  let '(weighted_left, weighted_right, total_weight) := acc in
  let weight := of_int ((i + 1) * (i + 1)) in
  (fadd weighted_left (fmul (of_int (fst (slot h (Z.to_nat i)))) weight),
   fadd weighted_right (fmul (of_int (snd (slot h (Z.to_nat i)))) weight),
   fadd total_weight weight).

Definition apply_persistence (st : TemporalState) (s : Z * Z)
  : (Z * Z) * TemporalState :=
  let '(left, right) := s in
  let count := prev_detection_count st in
  let h := prev_detections st in
  if count <? persistence_frames config then
    if count <? 2 then
      (s, with_history st (<[Z.to_nat count := (left, right)]> h) (count + 1))
    else
      (s, with_history st (shift_in h (left, right)) count)
  else
    let '(weighted_left, weighted_right, total_weight) :=
      fold_left (persist_step h) (seqZ 0 (persistence_frames config))
                (zero, zero, zero) in
    let current_weight :=
      of_int ((persistence_frames config + 1) * (persistence_frames config + 1)) in
    let weighted_left := fadd weighted_left (fmul (of_int left) current_weight) in
    let weighted_right := fadd weighted_right (fmul (of_int right) current_weight) in
    let total_weight := fadd total_weight current_weight in
    let left := to_int (fdiv weighted_left total_weight) in
    let right := to_int (fdiv weighted_right total_weight) in
    ((left, right), with_history st (shift_in h (left, right)) count).

(** *** Zone statistics and the final analysis *)

Definition zone_zero : ZoneStats :=
  {| avg := zero; median := zero; mad := zero; zmin := zero; zmax := zero;
     range := zero; std := zero |}.

(** Columns visited by [for (col = left; col <= right && col < SENSOR_WIDTH; col++)]. *)
Definition zone_cols (left right : Z) : list Z :=
  seqZ left (Z.min right (SENSOR_WIDTH - 1) - left + 1).

Definition band_rows : list nat := seq START_ROW MIDDLE_ROWS.

Definition zone_pixels (frame : list float) (left right : Z) : list float :=
  flat_map (fun row =>
              map (fun col => aget frame (Z.to_nat (Z.of_nat row * SENSOR_WIDTH + col)))
                  (zone_cols left right))
           band_rows.

Definition scan_min (pixels : list float) (init : float) : float :=
  fold_left (fun m x => if flt x m then x else m) pixels init.
Definition scan_max (pixels : list float) (init : float) : float :=
  fold_left (fun m x => if fgt x m then x else m) pixels init.

Definition calculate_zone_stats (frame : list float) (left right : Z) : ZoneStats :=
  let pixels := zone_pixels frame left right in
  let count := length pixels in
  match count with
  | O => zone_zero
  | _ =>
    let sum := fold_left fadd pixels zero in
    let min_val := scan_min pixels (aget pixels 0) in
    let max_val := scan_max pixels (aget pixels 0) in
    {| avg := fdiv sum (of_int (Z.of_nat count));
       median := calculate_median pixels count;
       mad := calculate_mad pixels count;
       zmin := min_val;
       zmax := max_val;
       range := fsub max_val min_val;
       std := calculate_std pixels count |}
  end.

(** The lateral gradient of [analyze_tyre]: the range of the profile over
    the columns [left .. right]. *)
Definition span_values (profile : list float) (left right : Z) : list float :=
  map (fun i => aget profile (Z.to_nat i)) (seqZ (left + 1) (right - left)).

Definition profile_range (profile : list float) (left right : Z) : float :=
  let first := aget profile (Z.to_nat left) in
  let min_col_avg := scan_min (span_values profile left right) first in
  let max_col_avg := scan_max (span_values profile left right) first in
  fsub max_col_avg min_col_avg.

Definition analyze_tyre (frame profile : list float) (left_col right_col : Z)
  : TyreData :=
  let width := right_col - left_col + 1 in
  let third := width ÷ 3 in
  let left_start := left_col in
  let left_end := left_col + third - 1 in
  let left_end := if left_end <? left_start then left_start else left_end in
  let centre_start := left_col + third in
  let centre_end := right_col - third in
  let centre_end := if centre_end <? centre_start then centre_start else centre_end in
  let right_start := right_col - third + 1 in
  let right_end := right_col in
  let right_start := if right_start >? right_end then right_end else right_start in
  let gradient := profile_range profile left_col right_col in
  let width_score :=
    if (width >=? min_tyre_width config) && (width <=? max_tyre_width config)
    then of_int 1 else lit 5 10 in
  let gradient_score := fminf (fdiv gradient (of_int 10)) (of_int 1) in
  {| left := calculate_zone_stats frame left_start left_end;
     centre := calculate_zone_stats frame centre_start centre_end;
     right := calculate_zone_stats frame right_start right_end;
     detected := 1;
     span_start := left_col;
     span_end := right_col;
     tyre_width := width;
     confidence := fdiv (fadd width_score gradient_score) (of_int 2);
     lateral_gradient := gradient |}.

(** *** The pipeline *)

Definition clip_temp (x : float) : float :=
  let x := if flt x (min_temp config) then min_temp config else x in
  if fgt x (max_temp config) then max_temp config else x.

Definition extract_middle_rows (frame : list float) : list (list float) :=
  map (fun row =>
         remove_hot_pixels
           (take WIDTH (drop ((START_ROW + row) * WIDTH) frame)) WIDTH)
      (seq 0 MIDDLE_ROWS).

Definition column_profile (middle_rows : list (list float)) : list float :=
  map (fun col =>
         clip_temp (calculate_median (map (fun r => aget r col) middle_rows) MIDDLE_ROWS))
      (seq 0 WIDTH).

(** The smoothed profile and the state after the temporal filter. *)
Definition smoothed_profile (frame : list float) (st : TemporalState)
  : list float * TemporalState :=
  let profile := column_profile (extract_middle_rows frame) in
  let filtered := median_filter_3 profile WIDTH in
  apply_ema filtered (replicate WIDTH zero) WIDTH st.

(** The three stabilizer stages in the order [detect_tyre] calls them. *)
Definition stabilize (st : TemporalState) (s : Z * Z) : (Z * Z) * TemporalState :=
  apply_persistence st (apply_temporal_constraints st (apply_geometry_constraints s)).

(** [detect_tyre(frame, result)]: [result] is the caller's record, of which
    the no-detection branch overwrites only some fields.  Returns the
    return value, the record and the new temporal state. *)
Definition detect_tyre (frame : list float) (result : TyreData) (st : TemporalState)
  : Z * TyreData * TemporalState :=
  let '(smoothed, st) := smoothed_profile frame st in
  let median_temp := calculate_median smoothed WIDTH in
  let mad_global := calculate_mad smoothed WIDTH in
  if flt mad_global (mad_uniform_threshold config) then
    let third := SENSOR_WIDTH ÷ 3 in
    (0,
     {| left := calculate_zone_stats frame 0 (third - 1);
        centre := calculate_zone_stats frame third (2 * third - 1);
        right := calculate_zone_stats frame (2 * third) (SENSOR_WIDTH - 1);
        detected := 0;
        span_start := span_start result;
        span_end := span_end result;
        tyre_width := 0;
        confidence := zero;
        lateral_gradient := zero |},
     st)
  else
    let s := grow_region smoothed median_temp mad_global in
    let '((l, r), st) := stabilize st s in
    (1, analyze_tyre frame smoothed l r, st).

(** [memset(&tyre, 0, sizeof(TyreData))], as the driver loop does before
    each call. *)
Definition tyre_zero : TyreData :=
  {| left := zone_zero; centre := zone_zero; right := zone_zero;
     detected := 0; span_start := 0; span_end := 0; tyre_width := 0;
     confidence := zero; lateral_gradient := zero |}.

End Detect.

(* ================================================================== *)
(** ** The earlier algorithm of [thermal_algorithm.c] *)
(* ================================================================== *)

Module Thermal.

Definition SENSOR_WIDTH : Z := 32.
Definition WIDTH : nat := Z.to_nat SENSOR_WIDTH.

Record ThermalConfig := {
  mad_threshold : float;
  grad_threshold : float;
  min_tyre_width : Z;
  max_tyre_width : Z;
  ema_alpha : float
}.

Record TyreDetection := {
  span_start : Z;
  span_end : Z;
  tyre_width : Z;
  confidence : float;
  detected : bool
}.

(** The fields [min] and [max] of the C structure are [zmin] and [zmax]
    here. *)
Record ZoneAnalysis := {
  avg : float;
  median : float;
  mad : float;
  zmin : float;
  zmax : float;
  range : float;
  count : Z
}.

Record FrameData := {
  frame_number : Z;
  left : ZoneAnalysis;
  centre : ZoneAnalysis;
  right : ZoneAnalysis;
  detection : TyreDetection;
  lateral_gradient : float;
  warnings : Z
}.

(** [thermal_algorithm_init]: the default configuration (it also resets the
    frame counter to 0). *)
Definition thermal_algorithm_init : ThermalConfig :=
  {| mad_threshold := of_int 3;
     grad_threshold := of_int 5;
     min_tyre_width := 6;
     max_tyre_width := 28;
     ema_alpha := lit 3 10 |}.

Definition zone_zero : ZoneAnalysis :=
  {| avg := zero; median := zero; mad := zero; zmin := zero; zmax := zero;
     range := zero; count := 0 |}.

Definition b2z (b : bool) : Z := if b then 1 else 0.

(** [return (fa > fb) - (fa < fb);] *)
Definition compare_floats (fa fb : float) : Z := b2z (fgt fa fb) - b2z (flt fa fb).

(** [qsort] with [compare_floats].  The C library fixes the result only up
    to the order of elements that compare equal; the model is an insertion
    sort. *)
Fixpoint sorted_insert (x : float) (l : list float) : list float :=
  match l with
  | [] => [x]
  | y :: l' => if compare_floats x y <=? 0 then x :: l else y :: sorted_insert x l'
  end.

Definition qsort (l : list float) : list float := fold_right sorted_insert [] l.

Definition fast_mean (data : list float) (len : nat) : float :=
  match len with
  | O => zero
  | _ => fdiv (fold_left (fun s i => fadd s (aget data i)) (seq 0 len) zero)
              (of_int (Z.of_nat len))
  end.

(** [fast_median] sorts [data] in place: it returns the median and the
    array as it leaves it. *)
Definition fast_median (data : list float) (len : nat) : float * list float :=
  match len with
  | O => (zero, data)
  | 1%nat => (aget data 0, data)
  | _ =>
    let data := qsort (take len data) ++ drop len data in
    (if (len mod 2 =? 0)%nat
     then fdiv (fadd (aget data (len / 2 - 1)) (aget data (len / 2))) (of_int 2)
     else aget data (len / 2),
     data)
  end.

Definition fast_mad (data : list float) (len : nat) (med : float) : float :=
  if (len <? 2)%nat then zero
  else if (WIDTH <? len)%nat then zero
  else
    let deviations := map (fun i => fabsf (fsub (aget data i) med)) (seq 0 len) in
    fmul (fst (fast_median deviations len)) (lit 14826 10000).

Definition extract_middle_rows (frame : list float) : list float :=
  map (fun col =>
         let '(sum, cnt) :=
           fold_left (fun (acc : float * Z) row =>
                        let idx := (row * WIDTH + col)%nat in
                        if fgt (aget frame idx) (of_int (-270))
                        then (fadd (fst acc) (aget frame idx), snd acc + 1)
                        else acc)
                     (seq 10 4) (zero, 0) in
         if cnt >? 0 then fdiv sum (of_int cnt) else zero)
      (seq 0 WIDTH).

(** The seed search: the first column holding the largest value above
    [-300], or the middle column when there is none. *)
Definition find_seed (profile : list float) : Z :=
  snd (fold_left (fun (acc : float * Z) i =>
                    if fgt (aget profile (Z.to_nat i)) (fst acc)
                    then (aget profile (Z.to_nat i), i) else acc)
                 (seqZ 0 SENSOR_WIDTH) (of_int (-300), SENSOR_WIDTH ÷ 2)).

(** [for (...) { if (profile[i] > threshold) bound = i; else break; }] *)
Fixpoint grow_while (ok : Z -> bool) (cols : list Z) (bound : Z) : Z :=
  match cols with
  | [] => bound
  | i :: rest => if ok i then grow_while ok rest i else bound
  end.

Definition detect_tyre_span (profile : list float) (config : ThermalConfig)
  : TyreDetection :=
  let '(profile_median, _) := fast_median (take WIDTH profile) WIDTH in
  let profile_mad := fast_mad profile WIDTH profile_median in
  let seed_idx := find_seed profile in
  let threshold := fadd profile_median (fmul (mad_threshold config) profile_mad) in
  let ok i := fgt (aget profile (Z.to_nat i)) threshold in
  let start := grow_while ok (rev (seqZ 0 seed_idx)) seed_idx in
  let end_ := grow_while ok (seqZ (seed_idx + 1) (SENSOR_WIDTH - (seed_idx + 1))) seed_idx in
  let width := end_ - start + 1 in
  let det := (width >=? min_tyre_width config) && (width <=? max_tyre_width config)
             && fgt profile_mad (lit 5 10) in
  if det then
    let width_score := if (width >=? 8) && (width <=? 24) then of_int 1 else lit 7 10 in
    let mad_score := fminf (fdiv profile_mad (of_int 3)) (of_int 1) in
    {| span_start := start; span_end := end_; tyre_width := width;
       confidence := fmul width_score mad_score; detected := true |}
  else
    {| span_start := 0; span_end := SENSOR_WIDTH - 1; tyre_width := SENSOR_WIDTH;
       confidence := zero; detected := false |}.

Definition analyze_zone (profile : list float) (start end_ : Z) : ZoneAnalysis :=
  let start := if start <? 0 then 0 else start in
  let end_ := if end_ >=? SENSOR_WIDTH then SENSOR_WIDTH - 1 else end_ in
  let len := end_ - start + 1 in
  if (len <=? 0) || (len >? SENSOR_WIDTH) then zone_zero
  else
    let n := Z.to_nat len in
    let zone_data := map (fun i => aget profile (Z.to_nat start + i)) (seq 0 n) in
    let mean := fast_mean zone_data n in
    let '(med, zone_data) := fast_median zone_data n in
    let m := fast_mad zone_data n med in
    let lo := fold_left (fun m i => if flt (aget zone_data i) m then aget zone_data i else m)
                        (seq 1 (n - 1)) (aget zone_data 0) in
    let hi := fold_left (fun m i => if fgt (aget zone_data i) m then aget zone_data i else m)
                        (seq 1 (n - 1)) (aget zone_data 0) in
    {| avg := mean; median := med; mad := m; zmin := lo; zmax := hi;
       range := fsub hi lo; count := len |}.

(** [thermal_algorithm_process]; [frame_counter] is the static 32-bit
    counter, returned incremented. *)
Definition thermal_algorithm_process (frame : list float) (config : ThermalConfig)
           (frame_counter : Z) : FrameData * Z :=
  let frame_counter := (frame_counter + 1) mod 2 ^ 32 in
  let profile := extract_middle_rows frame in
  let det := detect_tyre_span profile config in
  if detected det then
    let tyre_start := span_start det in
    let tyre_end := span_end det in
    let third := tyre_width det ÷ 3 in
    let left_start := tyre_start in
    let left_end := tyre_start + third - 1 in
    let centre_start := left_end + 1 in
    let centre_end := tyre_end - third in
    let right_start := centre_end + 1 in
    let right_end := tyre_end in
    let l := analyze_zone profile left_start left_end in
    let c := analyze_zone profile centre_start centre_end in
    let r := analyze_zone profile right_start right_end in
    let gradient := fsub (avg r) (avg l) in
    let w1 := if fgt (fabsf gradient) (of_int 10) then 1 else 0 in
    let w2 := if fgt (fsub (zmax c) (zmin c)) (of_int 20) then 2 else 0 in
    ({| frame_number := frame_counter; left := l; centre := c; right := r;
        detection := det; lateral_gradient := gradient;
        warnings := Z.lor w1 w2 |}, frame_counter)
  else
    ({| frame_number := frame_counter;
        left := zone_zero;
        centre := analyze_zone profile 0 (SENSOR_WIDTH - 1);
        right := zone_zero;
        detection := det; lateral_gradient := zero; warnings := 0 |},
     frame_counter).

End Thermal.

(* ================================================================== *)
(** ** Serial records of [communication.c] *)
(* ================================================================== *)

Module Comm.

Import Thermal.

(** [if (!isfinite(val)) return 0.0f; return val;] *)
Definition sanitize_float (val : float) : float :=
  if negb (isfinite val) then zero else val.

(** An argument handed to [snprintf]/[printf]: the text formatting itself
    is not modelled. *)
Inductive field :=
| FInt (z : Z)
| FFloat (x : float).

Definition send_serial_compact (data : FrameData) (fps : float) : list field :=
  [ FInt (frame_number data);
    FFloat (sanitize_float fps);
    FFloat (sanitize_float (avg (left data)));
    FFloat (sanitize_float (median (left data)));
    FFloat (sanitize_float (avg (centre data)));
    FFloat (sanitize_float (median (centre data)));
    FFloat (sanitize_float (avg (right data)));
    FFloat (sanitize_float (median (right data)));
    FInt (tyre_width (detection data));
    FFloat (sanitize_float (confidence (detection data)));
    FInt (if detected (detection data) then 1 else 0) ].

Definition zone_fields (z : ZoneAnalysis) : list field :=
  [ FFloat (sanitize_float (avg z)); FFloat (sanitize_float (median z));
    FFloat (sanitize_float (mad z)); FFloat (sanitize_float (zmin z));
    FFloat (sanitize_float (zmax z)); FFloat (sanitize_float (range z)) ].

Definition send_serial_json (data : FrameData) (fps : float)
           (temperature_profile : option (list float)) : list field :=
  [ FInt (frame_number data); FFloat (sanitize_float fps) ]
  ++ zone_fields (left data) ++ zone_fields (centre data) ++ zone_fields (right data)
  ++ [ FFloat (sanitize_float (lateral_gradient data));
       FInt (if detected (detection data) then 1 else 0);
       FInt (span_start (detection data));
       FInt (span_end (detection data));
       FInt (tyre_width (detection data));
       FFloat (sanitize_float (confidence (detection data))) ]
  ++ match temperature_profile with
     | Some prof => map (fun i => FFloat (sanitize_float (aget prof i))) (seq 0 32)
     | None => []
     end.

(** [update_i2c_registers]: the 16-byte register block kept by
    [communication.c], big-endian.  [None] when a float-to-integer
    conversion on the way is undefined in C. *)
Definition update_i2c_registers (regs : list Z) (data : FrameData)
  : option (list Z) :=
  left_temp ← cast_int16 (fmul (avg (left data)) (of_int 10));
  centre_temp ← cast_int16 (fmul (avg (centre data)) (of_int 10));
  right_temp ← cast_int16 (fmul (avg (right data)) (of_int 10));
  lat_grad ← cast_int16 (fmul (lateral_gradient data) (of_int 10));
  conf ← cast_uint8 (fmul (confidence (detection data)) (of_int 100));
  let frame := Z.land (frame_number data) 0xFFFF in
  let regs := <[0x00%nat := Z.land (Z.shiftr left_temp 8) 0xFF]> regs in
  let regs := <[0x01%nat := Z.land left_temp 0xFF]> regs in
  let regs := <[0x02%nat := Z.land (Z.shiftr centre_temp 8) 0xFF]> regs in
  let regs := <[0x03%nat := Z.land centre_temp 0xFF]> regs in
  let regs := <[0x04%nat := Z.land (Z.shiftr right_temp 8) 0xFF]> regs in
  let regs := <[0x05%nat := Z.land right_temp 0xFF]> regs in
  let regs := <[0x06%nat := conf]> regs in
  let regs := <[0x07%nat := warnings data]> regs in
  let regs := <[0x08%nat := span_start (detection data)]> regs in
  let regs := <[0x09%nat := span_end (detection data)]> regs in
  let regs := <[0x0A%nat := tyre_width (detection data)]> regs in
  let regs := <[0x0B%nat := Z.land (Z.shiftr lat_grad 8) 0xFF]> regs in
  let regs := <[0x0C%nat := Z.land lat_grad 0xFF]> regs in
  let regs := <[0x0D%nat := Z.land (Z.shiftr frame 8) 0xFF]> regs in
  let regs := <[0x0E%nat := Z.land frame 0xFF]> regs in
  Some regs.

End Comm.

(* ================================================================== *)
(** ** The register map of [i2c_slave.c] *)
(* ================================================================== *)

Module I2CSlave.

Import Thermal.

Definition REG_FALLBACK_MODE : nat := 0x03.
Definition REG_FRAME_NUMBER_L : nat := 0x11.
Definition REG_FRAME_NUMBER_H : nat := 0x12.
Definition REG_FPS : nat := 0x13.
Definition REG_DETECTED : nat := 0x14.
Definition REG_CONFIDENCE : nat := 0x15.
Definition REG_TYRE_WIDTH : nat := 0x16.
Definition REG_SPAN_START : nat := 0x17.
Definition REG_SPAN_END : nat := 0x18.
Definition REG_WARNINGS : nat := 0x19.
Definition REG_LEFT_MEDIAN_L : nat := 0x20.
Definition REG_LEFT_MEDIAN_H : nat := 0x21.
Definition REG_CENTRE_MEDIAN_L : nat := 0x22.
Definition REG_CENTRE_MEDIAN_H : nat := 0x23.
Definition REG_RIGHT_MEDIAN_L : nat := 0x24.
Definition REG_RIGHT_MEDIAN_H : nat := 0x25.
Definition REG_LEFT_AVG_L : nat := 0x26.
Definition REG_LEFT_AVG_H : nat := 0x27.
Definition REG_CENTRE_AVG_L : nat := 0x28.
Definition REG_CENTRE_AVG_H : nat := 0x29.
Definition REG_RIGHT_AVG_L : nat := 0x2A.
Definition REG_RIGHT_AVG_H : nat := 0x2B.
Definition REG_LATERAL_GRADIENT_L : nat := 0x2C.
Definition REG_LATERAL_GRADIENT_H : nat := 0x2D.
Definition REG_RAW_CH0_L : nat := 0x30.

(** [if (!isfinite(temp)) return 0; return (int16_t)(temp * 10.0f);]
    [None] when the conversion is undefined in C. *)
Definition temp_to_int16_tenths (temp : float) : option Z :=
  if negb (isfinite temp) then Some 0
  else cast_int16 (fmul temp (of_int 10)).

Definition lo_byte (v : Z) : Z := Z.land v 0xFF.
Definition hi_byte (v : Z) : Z := Z.land (Z.shiftr v 8) 0xFF.

Definition put16 (reg_l reg_h : nat) (v : Z) (m : list Z) : list Z :=
  <[reg_h := hi_byte v]> (<[reg_l := lo_byte v]> m).

(** The sixteen raw channels: each averages 2 columns of the 4 middle rows. *)
Definition raw_channel (frame : list float) (ch : nat) : float :=
  let col_start := (ch * 2)%nat in
  let sum :=
    fold_left (fun s row =>
                 fold_left (fun s col => fadd s (aget frame (row * 32 + col)))
                           (seq col_start 2) s)
              (seq 10 4) zero in
  fdiv sum (of_int 8).

Definition put_raw_channel (frame : list float) (om : option (list Z)) (ch : nat)
  : option (list Z) :=
  m ← om;
  temp ← temp_to_int16_tenths (raw_channel frame ch);
  Some (put16 (REG_RAW_CH0_L + ch * 2) (REG_RAW_CH0_L + ch * 2 + 1) temp m).

(** [i2c_slave_update(data, fps, frame)] on the register map [m]; [enabled]
    is [state.enabled] and [frame] is [None] for a null pointer.  The
    result is [None] when a float-to-integer conversion on the way is
    undefined in C. *)
Definition i2c_slave_update (enabled : bool) (m : list Z) (data : FrameData)
           (fps : float) (frame : option (list float)) : option (list Z) :=
  if negb enabled then Some m
  else
    let m := <[REG_FRAME_NUMBER_L := Z.land (frame_number data) 0xFF]> m in
    let m := <[REG_FRAME_NUMBER_H := Z.land (Z.shiftr (frame_number data) 8) 0xFF]> m in
    fps8 ← cast_uint8 fps;
    let m := <[REG_FPS := fps8]> m in
    let m := <[REG_DETECTED := if detected (detection data) then 1 else 0]> m in
    conf8 ← cast_uint8 (fmul (confidence (detection data)) (of_int 100));
    let m := <[REG_CONFIDENCE := conf8]> m in
    let m := <[REG_TYRE_WIDTH := tyre_width (detection data)]> m in
    let m := <[REG_SPAN_START := span_start (detection data)]> m in
    let m := <[REG_SPAN_END := span_end (detection data)]> m in
    let m := <[REG_WARNINGS := warnings data]> m in
    left_med ← temp_to_int16_tenths (median (left data));
    centre_med ← temp_to_int16_tenths (median (centre data));
    right_med ← temp_to_int16_tenths (median (right data));
    left_avg ← temp_to_int16_tenths (avg (left data));
    centre_avg ← temp_to_int16_tenths (avg (centre data));
    right_avg ← temp_to_int16_tenths (avg (right data));
    lat_grad ← temp_to_int16_tenths (lateral_gradient data);
    let fallback := negb (detected (detection data))
                    && (nth REG_FALLBACK_MODE m 0 =? 1) in
    let left_med := if fallback then centre_med else left_med in
    let right_med := if fallback then centre_med else right_med in
    let left_avg := if fallback then centre_avg else left_avg in
    let right_avg := if fallback then centre_avg else right_avg in
    let lat_grad := if fallback then 0 else lat_grad in
    let m := put16 REG_LEFT_MEDIAN_L REG_LEFT_MEDIAN_H left_med m in
    let m := put16 REG_CENTRE_MEDIAN_L REG_CENTRE_MEDIAN_H centre_med m in
    let m := put16 REG_RIGHT_MEDIAN_L REG_RIGHT_MEDIAN_H right_med m in
    let m := put16 REG_LEFT_AVG_L REG_LEFT_AVG_H left_avg m in
    let m := put16 REG_CENTRE_AVG_L REG_CENTRE_AVG_H centre_avg m in
    let m := put16 REG_RIGHT_AVG_L REG_RIGHT_AVG_H right_avg m in
    let m := put16 REG_LATERAL_GRADIENT_L REG_LATERAL_GRADIENT_H lat_grad m in
    match frame with
    | Some f => fold_left (put_raw_channel f) (seq 0 16) (Some m)
    | None => Some m
    end.

(** The byte the read-request handler sends while streaming the frame at
    [REG_FRAME_DATA_START]. *)
Definition stream_byte (frame : list float) (frame_read_offset : nat) : option Z :=
  temp ← temp_to_int16_tenths (aget frame (frame_read_offset / 2));
  Some (if (frame_read_offset mod 2 =? 0)%nat then lo_byte temp else hi_byte temp).

(** *** The bus side: state, interrupt handler and accessors *)

Definition I2C_SLAVE_DEFAULT_ADDR : Z := 0x08.

(** The enumerators of [OutputMode].  The handler stores any byte the
    master writes, so the mode is kept as its integer value. *)
Definition OUTPUT_MODE_USB_SERIAL : Z := 0x00.
Definition OUTPUT_MODE_I2C_SLAVE : Z := 0x01.
Definition OUTPUT_MODE_CANBUS : Z := 0x02.
Definition OUTPUT_MODE_ALL : Z := 0xFF.

Definition REG_CONFIG_START : nat := 0x00.
Definition REG_I2C_ADDRESS : nat := 0x00.
Definition REG_OUTPUT_MODE : nat := 0x01.
Definition REG_EMISSIVITY : nat := 0x04.
Definition REG_RAW_MODE : nat := 0x05.
Definition REG_RESERVED_0F : nat := 0x0F.
Definition REG_FIRMWARE_VERSION : nat := 0x10.
Definition REG_FRAME_DATA_START : nat := 0x41.
Definition REG_CMD : nat := 0xFF.
Definition CMD_RESET : Z := 0x01.
Definition CMD_CLEAR_WARNINGS : Z := 0x02.

(** [current_register] is a [uint8_t] and [frame_read_offset] a
    [uint16_t]: their increments wrap. *)
Record I2CSlaveState := {
  slave_address : Z;
  output_mode : Z;
  current_register : nat;
  frame_read_offset : Z;
  enabled : bool
}.

(** The static variables of the file: [state], [register_map] and the
    [current_frame] pointer ([None] for [NULL]). *)
Record Slave := {
  state : I2CSlaveState;
  register_map : list Z;
  current_frame : option (list float)
}.

Definition set_state (s : Slave) (st : I2CSlaveState) : Slave :=
  {| state := st; register_map := register_map s; current_frame := current_frame s |}.
Definition set_map (s : Slave) (m : list Z) : Slave :=
  {| state := state s; register_map := m; current_frame := current_frame s |}.
Definition set_register (st : I2CSlaveState) (r : nat) : I2CSlaveState :=
  {| slave_address := slave_address st; output_mode := output_mode st;
     current_register := r; frame_read_offset := frame_read_offset st;
     enabled := enabled st |}.
Definition set_offset (st : I2CSlaveState) (o : Z) : I2CSlaveState :=
  {| slave_address := slave_address st; output_mode := output_mode st;
     current_register := current_register st; frame_read_offset := o;
     enabled := enabled st |}.
Definition set_address (st : I2CSlaveState) (a : Z) : I2CSlaveState :=
  {| slave_address := a; output_mode := output_mode st;
     current_register := current_register st;
     frame_read_offset := frame_read_offset st; enabled := enabled st |}.
Definition set_mode (st : I2CSlaveState) (mode : Z) : I2CSlaveState :=
  {| slave_address := slave_address st; output_mode := mode;
     current_register := current_register st;
     frame_read_offset := frame_read_offset st; enabled := enabled st |}.

(** The [RD_REQ] branch of the handler: the byte put into [data_cmd] and
    the state afterwards. *)
Definition read_request (s : Slave) : option (Slave * Z) :=
  let st := state s in
  if (current_register st =? REG_FRAME_DATA_START)%nat then
    match current_frame s with
    | Some frame =>
      if frame_read_offset st <? 768 then
        value ← stream_byte frame (Z.to_nat (frame_read_offset st));
        Some (set_state s (set_offset st ((frame_read_offset st + 1) mod 65536)),
              value)
      else Some (s, 0)
    | None => Some (s, 0)
    end
  else
    Some (set_state s (set_register st ((current_register st + 1) mod 256)),
          nth (current_register st) (register_map s) 0).

(** The [RX_FULL] branch: [data_cmd] is the hardware register read. *)
Definition receive_byte (s : Slave) (data_cmd : Z) : Slave :=
  let value := Z.land data_cmd 0xFF in
  let st := state s in
  if (current_register st =? 0xFF)%nat then
    let st := set_register st (Z.to_nat value) in
    let st := if (Z.to_nat value =? REG_FRAME_DATA_START)%nat
              then set_offset st 0 else st in
    set_state s st
  else
    let cr := current_register st in
    let s :=
      if (REG_CONFIG_START <=? cr)%nat && (cr <=? REG_RESERVED_0F)%nat then
        let s := set_map s (<[cr := value]> (register_map s)) in
        if (cr =? REG_I2C_ADDRESS)%nat
        then set_state s (set_address st (Z.land value 0x7F))
        else if (cr =? REG_OUTPUT_MODE)%nat
             then set_state s (set_mode st value)
             else s
      else if (cr =? REG_CMD)%nat then
        if value =? CMD_RESET then s
        else if value =? CMD_CLEAR_WARNINGS
             then set_map s (<[REG_WARNINGS := 0]> (register_map s))
             else s
      else s in
    set_state s (set_register (state s) ((cr + 1) mod 256)).

(** The [STOP_DET] branch. *)
Definition stop_detected (s : Slave) : Slave :=
  set_state s (set_register (state s) 0xFF).

(** The three bits of [intr_stat] the handler tests. *)
Record IrqStatus := {
  RD_REQ : bool;
  RX_FULL : bool;
  STOP_DET : bool
}.

(** [i2c_slave_handler]: one interrupt with the given status bits.  The
    result holds the byte sent to the master, if one was requested; it is
    [None] when the conversion of a streamed pixel is undefined in C. *)
Definition i2c_slave_handler (status : IrqStatus) (data_cmd : Z) (s : Slave)
  : option (Slave * option Z) :=
  r ← (if RD_REQ status
       then r ← read_request s; Some (fst r, Some (snd r))
       else Some (s, None));
  let s := fst r in
  let s := if RX_FULL status then receive_byte s data_cmd else s in
  let s := if STOP_DET status then stop_detected s else s in
  Some (s, snd r).

(** [i2c_slave_init(address)], on the variables as the program start
    leaves them. *)
Definition i2c_slave_init (address : Z) (s : Slave) : Slave :=
  let m := replicate 256 0 in
  let m := <[REG_FIRMWARE_VERSION := 0x01]> m in
  let m := <[REG_I2C_ADDRESS := address]> m in
  let m := <[REG_OUTPUT_MODE := OUTPUT_MODE_USB_SERIAL]> m in
  let m := <[REG_FALLBACK_MODE := 0]> m in
  let m := <[REG_EMISSIVITY := 95]> m in
  let m := <[REG_RAW_MODE := 0]> m in
  {| state := {| slave_address := address;
                 output_mode := OUTPUT_MODE_USB_SERIAL;
                 current_register := 0xFF;
                 frame_read_offset := 0;
                 enabled := true |};
     register_map := m;
     current_frame := current_frame s |}.

(** [i2c_slave_update] on the variables of the file. *)
Definition i2c_slave_update_vars (s : Slave) (data : FrameData) (fps : float)
           (frame : option (list float)) : option Slave :=
  m ← i2c_slave_update (enabled (state s)) (register_map s) data fps frame;
  Some {| state := state s;
          register_map := m;
          current_frame := if enabled (state s) then frame else current_frame s |}.

Definition i2c_slave_get_output_mode (s : Slave) : Z := output_mode (state s).

Definition i2c_slave_set_output_mode (mode : Z) (s : Slave) : Slave :=
  set_map (set_state s (set_mode (state s) mode))
          (<[REG_OUTPUT_MODE := Z.land mode 0xFF]> (register_map s)).

Definition i2c_slave_output_enabled (s : Slave) (mode : Z) : bool :=
  if output_mode (state s) =? OUTPUT_MODE_ALL then true
  else output_mode (state s) =? mode.

Definition i2c_slave_get_emissivity (s : Slave) : float :=
  let emiss := nth REG_EMISSIVITY (register_map s) 0 in
  let emiss := if emiss >? 100 then 100 else emiss in
  fdiv (of_int emiss) (of_int 100).

Definition i2c_slave_get_raw_mode (s : Slave) : bool :=
  negb (nth REG_RAW_MODE (register_map s) 0 =? 0).

End I2CSlave.

(* ================================================================== *)
(** ** main.c: one pass of the driver loop *)
(* ================================================================== *)

Module MainLoop.

Import Thermal.





End MainLoop.

(* ================================================================== *)
(** ** Notions used in the statements *)
(* ================================================================== *)

Module Props.

Import Detect.

(** *** Spans *)

Definition span_width (s : Z * Z) : Z := snd s - fst s + 1.

(** Both ends are column indices of the sensor. *)
Definition on_sensor (s : Z * Z) : Prop :=
  0 <= fst s /\ snd s < SENSOR_WIDTH.

Definition column_span (s : Z * Z) : Prop :=
  0 <= fst s < SENSOR_WIDTH /\ 0 <= snd s < SENSOR_WIDTH.

(** [0 <= left <= right <= 31]. *)
Definition span_ok (s : Z * Z) : Prop :=
  0 <= fst s <= snd s /\ snd s < SENSOR_WIDTH.

Definition width_in_bounds (s : Z * Z) : Prop :=
  min_tyre_width config <= span_width s <= max_tyre_width config.

Definition span_eqb (a b : Z * Z) : bool :=
  (fst a =? fst b) && (snd a =? snd b).

(** Structural equality test on binary32 values. *)
Definition feqb (x y : float) : bool :=
  match x, y with
  | S754_zero s1, S754_zero s2 => Bool.eqb s1 s2
  | S754_infinity s1, S754_infinity s2 => Bool.eqb s1 s2
  | S754_nan, S754_nan => true
  | S754_finite s1 m1 e1, S754_finite s2 m2 e2 =>
    Bool.eqb s1 s2 && (m1 =? m2)%positive && (e1 =? e2)
  | _, _ => false
  end.

(** *** Temporal filter *)

Definition profile_sized (l : list float) : Prop := length l = WIDTH.

(** The value the smoothing loop writes at column [i]. *)
Definition ema_value (current prev : list float) (i : nat) : float :=
  fadd (fmul (ema_alpha config) (aget current i))
       (fmul (fsub (of_int 1) (ema_alpha config)) (aget prev i)).

(** *** Hot pixels *)

Definition hot (x : float) : bool := fgt x (brake_temp_threshold config).

(** The row after the first [n] iterations of [remove_hot_pixels]. *)
Definition hot_prefix (w : nat) (row : list float) (n : nat) : list float :=
  fold_left (hot_pixel_step w) (seq 0 n) row.

(** *** Region growing *)

(** The columns at distances [k0 + 1 .. k0 + n] from the seed, when [col k]
    is the column at distance [k]. *)
Definition ray (col : nat -> Z) (k0 n : nat) : list Z := map col (seq (S k0) n).

(** The quantities of the region grower as the specification words them,
    on the smoothed profile itself: the seed's value, the contrast
    threshold [delta], the inversion flag, the spread of the five columns
    around the seed and the similarity threshold [k]. *)
Definition seed_value (profile : list float) : float :=
  aget profile (Z.to_nat (centre_col config)).

Definition contrast_delta (mad_global : float) : float :=
  fmaxf (delta_floor config) (fmul (delta_multiplier config) mad_global).

Definition seed_inverted (profile : list float) (median_temp mad_global : float)
  : bool :=
  flt (seed_value profile) (fsub median_temp (contrast_delta mad_global)).

Definition local_window (profile : list float) : list float :=
  drop (Z.to_nat (centre_col config - 2)) profile.

Definition similarity_k (profile : list float) : float :=
  fmaxf (k_floor config)
        (fmul (k_multiplier config) (calculate_mad (local_window profile) 5)).

(** Column [i] extends the span: (a) local similarity or (b) global
    contrast. *)
Definition extends_span (profile : list float) (median_temp mad_global : float)
           (i : Z) : Prop :=
  let temp := aget profile (Z.to_nat i) in
  fle (fabsf (fsub temp (seed_value profile))) (similarity_k profile) = true
  \/ (if seed_inverted profile median_temp mad_global
      then fle temp (fsub median_temp (contrast_delta mad_global)) = true
      else fge temp (fadd median_temp (contrast_delta mad_global)) = true).

(** *** Persistence *)

(** The weighted average computed for one end of the span, from the two
    stored values [a0] (slot 0), [a1] (slot 1) and the current value [a]. *)
Definition weighted_avg (a0 a1 a : Z) : Z :=
  to_int
    (fdiv (fadd (fadd (fadd zero (fmul (of_int a0) (of_int 1)))
                      (fmul (of_int a1) (of_int 4)))
                (fmul (of_int a) (of_int 9)))
          (fadd (fadd (fadd zero (of_int 1)) (of_int 4)) (of_int 9))).

Definition total_weight : float :=
  fadd (fadd (fadd zero (of_int 1)) (of_int 4)) (of_int 9).

(** Feeding the same detection [n] times: the last output and the state. *)
Fixpoint feed_identical (n : nat) (s : Z * Z) (st : TemporalState)
  : (Z * Z) * TemporalState :=
  match n with
  | O => (s, st)
  | S n' => apply_persistence (snd (feed_identical n' s st)) s
  end.

(** One call of the smoothing on one end of the span, on integers: the
    two stored values [h] move up and the truncated weighted average with
    the current value [x] is stored behind them. *)
Definition smooth_step (x : Z) (h : Z * Z) : Z * Z :=
  (snd h, (fst h + 4 * snd h + 9 * x) / 14).

(** The value is the input or the column just below it. *)
Definition at_most_one_below (x v : Z) : bool := (x - 1 <=? v) && (v <=? x).

(** The stored spans of the history do not lie below the span [s] at
    either end. *)
Definition history_not_below (st : TemporalState) (s : Z * Z) : Prop :=
  forall i : nat, Z.of_nat i < prev_detection_count st ->
    fst s <= fst (slot (prev_detections st) i)
    /\ snd s <= snd (slot (prev_detections st) i).

(** The history after one detection (10, 17). *)
Definition state_after_10_17 : TemporalState :=
  snd (apply_persistence temporal_state_init (10, 17)).

(** *** Temporal-continuity clamp *)

Definition max_change (prev_width : Z) : float :=
  fmul (of_int prev_width) (max_width_change_ratio config).
Definition grew_too_much (prev_width current_width : Z) : bool :=
  fgt (of_int current_width) (fadd (of_int prev_width) (max_change prev_width)).
Definition shrank_too_much (prev_width current_width : Z) : bool :=
  flt (of_int current_width) (fsub (of_int prev_width) (max_change prev_width)).
Definition upper_target (prev_width : Z) : Z :=
  to_int (fadd (of_int prev_width) (max_change prev_width)).
Definition lower_target (prev_width : Z) : Z :=
  to_int (fsub (of_int prev_width) (max_change prev_width)).

(** The float decisions of the clamp for one pair of widths. *)
Definition temporal_case (pw cw : Z) : bool :=
  (if grew_too_much pw cw
   then (pw <=? upper_target pw) && (upper_target pw <? cw)
        && negb (shrank_too_much pw cw)
   else true)
  && (if shrank_too_much pw cw
      then (cw <=? lower_target pw) && (lower_target pw <=? pw)
      else true).

(** [w - pw <= max_change + 1] in binary32, for a width [w] that is not
    above the upper target by more than one column. *)
Definition slack_case (pw w : Z) : bool :=
  if (w <=? upper_target pw + 1) || negb (grew_too_much pw w)
  then fle (of_int (w - pw)) (fadd (max_change pw) (of_int 1))
  else true.

(** A conversion to [int] that C defines. *)
Definition cast_defined (x : float) : bool :=
  match cast_int x with Some _ => true | None => false end.

(** The most recent stored detection: the last valid slot of the history. *)
Definition most_recent (st : TemporalState) : Z * Z :=
  slot (prev_detections st) (Z.to_nat (prev_detection_count st - 1)).

(** The bound on the width change as the specification words it:
    [|width(t) - width(t-1)| <= prev_width * max_width_change_ratio], with
    [width(t-1)] the width of the most recent stored detection. *)
Definition width_change_bounded (st : TemporalState) (s : Z * Z) : bool :=
  let prev_width := span_width (most_recent st) in
  fle (of_int (Z.abs (span_width (apply_temporal_constraints st s) - prev_width)))
      (fmul (of_int prev_width) (max_width_change_ratio config)).

(** *** History invariant and frame sequences *)

Definition hist_ok (st : TemporalState) : Prop :=
  length (prev_detections st) = 2%nat
  /\ 0 <= prev_detection_count st <= 2
  /\ forall i, span_ok (slot (prev_detections st) i).

(** The state after the driver loop has processed [frames] in order, each
    time with a zeroed result record. *)
Definition process_frames (frames : list (list float)) : TemporalState :=
  fold_left (fun st f => snd (detect_tyre f tyre_zero st)) frames temporal_state_init.

(** The spans after grow, geometry clamp, temporal clamp and persistence,
    as [detect_tyre] computes them for [frame] in state [st]. *)
Definition stage_spans (frame : list float) (st : TemporalState)
  : (Z * Z) * (Z * Z) * (Z * Z) * TemporalState :=
  let '(smoothed, st1) := smoothed_profile frame st in
  let s0 := grow_region smoothed (calculate_median smoothed WIDTH)
                        (calculate_mad smoothed WIDTH) in
  let s1 := apply_geometry_constraints s0 in
  let s2 := apply_temporal_constraints st1 s1 in
  let '(s3, st2) := apply_persistence st1 s2 in
  (s1, s2, s3, st2).

(** *** Binary32 values and their order *)

(** A [spec_float] that is a binary32 value: a finite one must have a
    canonical mantissa and exponent. *)
Definition valid (x : float) : bool := valid_binary prec emax x.

Definition all_valid (l : list float) : Prop := Forall (fun x => valid x = true) l.

Definition all_finite (l : list float) : Prop :=
  Forall (fun x => isfinite x = true) l.

(** An integer that orders the values other than NaN as the comparison
    does: finite values scaled by [2^149], the infinities beyond them. *)
Definition key (x : float) : Z :=
  match x with
  | S754_zero _ => 0
  | S754_finite s m e => cond_Zopp s (Zpos m * 2 ^ (e + 149))
  | S754_infinity s => cond_Zopp s (2 ^ 300)
  | S754_nan => 0
  end.

(** [x < 0] does not hold. *)
Definition not_negative (x : float) : Prop := flt x zero = false.

(** *** The two lateral gradients *)

(** The gradient each variant reports for [frame] as the first frame after
    start-up. *)
Definition early_gradient (frame : list float) : float :=
  Thermal.lateral_gradient
    (fst (Thermal.thermal_algorithm_process frame Thermal.thermal_algorithm_init 0)).

Definition later_gradient (frame : list float) : float :=
  lateral_gradient (snd (fst (detect_tyre frame tyre_zero temporal_state_init))).

(** A band over the columns 12..19 that cools from 40 to 33 degrees from
    left to right, on the alternating background. *)
Definition cooling_band (c : Z) : Z :=
  if (12 <=? c) && (c <=? 19) then 52 - c
  else if Z.even c then 20 else 21.

(** The mean of the profile over the columns [a .. b]: the running
    binary32 sum from left to right, divided by the number of columns. *)
Definition column_mean (profile : list float) (a b : Z) : float :=
  fdiv (fold_left (fun s c => fadd s (aget profile (Z.to_nat c)))
                  (seqZ a (b - a + 1)) zero)
       (of_int (b - a + 1)).

(** No column of the span [l .. r] compares above [hi] or below [lo]. *)
Definition bounds_span (profile : list float) (l r : Z) (lo hi : float) : Prop :=
  forall c, l <= c <= r ->
    fgt (aget profile (Z.to_nat c)) hi = false
    /\ flt (aget profile (Z.to_nat c)) lo = false.

(** *** Output boundary *)

Definition field_finite (f : Comm.field) : bool :=
  match f with
  | Comm.FInt _ => true
  | Comm.FFloat x => isfinite x
  end.

Definition pos_infinity : float := S754_infinity false.

(** *** Test frames *)

(** A frame whose 24 rows all hold [f c] degrees in column [c]. *)
Definition frame_of_columns (f : Z -> Z) : list float :=
  flat_map (fun _ => map (fun c => of_int (f c)) (seqZ 0 32)) (seq 0 24).

(** A hot band over the columns [lo .. hi] on a background alternating
    between 20 and 21 degrees. *)
Definition band (lo hi hot_temp : Z) (c : Z) : Z :=
  if (lo <=? c) && (c <=? hi) then hot_temp
  else if Z.even c then 20 else 21.

Definition row_hot : list float :=
  map of_int [20; 21; 200; 23; 24; 25; 26; 27; 28; 29; 30; 31; 32; 33; 34; 35;
              36; 37; 38; 39; 40; 41; 42; 43; 44; 45; 46; 47; 48; 49; 50; 300].

End Props.

Import Props.

Ltac zlia := Z.to_euclidean_division_equations; lia.

(* ================================================================== *)
(** ** Notions for the register map and the bus *)
(* ================================================================== *)

Module Bus.

Import Thermal I2CSlave.

(** The signed 16-bit value a reader assembles from a low and a high
    byte. *)
Definition decode_int16 (lo hi : Z) : Z :=
  let u := lo + 256 * hi in if u <? 32768 then u else u - 65536.

(** The 16-bit value held by the registers [reg_l] (low byte) and [reg_h]
    (high byte) of the map [m]. *)
Definition reg16 (m : list Z) (reg_l reg_h : nat) : Z :=
  decode_int16 (nth reg_l m 0) (nth reg_h m 0).

(** The registers [i2c_slave_update] may write: the status block without
    the firmware version, the temperatures and the raw channels. *)
Definition updated_register (j : nat) : bool :=
  ((0x11 <=? j) && (j <=? 0x19) || (0x20 <=? j) && (j <=? 0x2D)
   || (0x30 <=? j) && (j <=? 0x4F))%nat.

(** *** Bus traffic *)

(** One interrupt: the status bits and the content of [data_cmd]. *)
Definition bus_event : Type := IrqStatus * Z.

(** The master sends the byte [v]. *)
Definition rx (v : Z) : bus_event :=
  ({| RD_REQ := false; RX_FULL := true; STOP_DET := false |}, v).
(** The master requests a byte. *)
Definition rd : bus_event :=
  ({| RD_REQ := true; RX_FULL := false; STOP_DET := false |}, 0).
(** The master ends the transaction. *)
Definition stop : bus_event :=
  ({| RD_REQ := false; RX_FULL := false; STOP_DET := true |}, 0).

(** The handler run on a sequence of interrupts: the state afterwards and
    the bytes sent to the master, in order. *)
Fixpoint run_handler (events : list bus_event) (s : Slave)
  : option (Slave * list Z) :=
  match events with
  | [] => Some (s, [])
  | e :: rest =>
    r ← i2c_slave_handler (fst e) (snd e) s;
    r' ← run_handler rest (fst r);
    Some (fst r', match snd r with
                  | Some v => v :: snd r'
                  | None => snd r'
                  end)
  end.

(** The slave waits for a register address. *)
Definition idle (s : Slave) : Prop := current_register (state s) = 0xFF%nat.

(** What the firmware does with the variables of [i2c_slave.c] after
    [i2c_slave_init]: interrupts, register updates of the driver loop and
    changes of the output mode. *)
Inductive action :=
| Irq (status : IrqStatus) (data_cmd : Z)
| Update (data : FrameData) (fps : float) (frame : option (list float))
| SetMode (mode : Z).

Definition step (s : Slave) (a : action) : option Slave :=
  match a with
  | Irq status data_cmd => r ← i2c_slave_handler status data_cmd s; Some (fst r)
  | Update data fps frame => i2c_slave_update_vars s data fps frame
  | SetMode mode => Some (i2c_slave_set_output_mode mode s)
  end.

Definition run (actions : list action) (s : Slave) : option Slave :=
  fold_left (fun os a => s ← os; step s a) actions (Some s).

(** The variables as the program start leaves them. *)
Definition slave_zero : Slave :=
  {| state := {| slave_address := 0; output_mode := 0; current_register := 0;
                 frame_read_offset := 0; enabled := false |};
     register_map := replicate 256 0;
     current_frame := None |}.

Definition is_byte (z : Z) : Prop := 0 <= z <= 255.

(** *** Sample values *)

(** The slave after [i2c_slave_init(I2C_SLAVE_DEFAULT_ADDR)]. *)
Definition slave_init : Slave := i2c_slave_init I2C_SLAVE_DEFAULT_ADDR slave_zero.

(** The record the earlier algorithm produces for a frame with a cooling
    band, and the register maps filled from it. *)
Definition data_sample : FrameData :=
  fst (thermal_algorithm_process (frame_of_columns cooling_band)
                                 thermal_algorithm_init 0).

Definition regs_sample : list Z :=
  default [] (i2c_slave_update true (register_map slave_init) data_sample
                               (of_int 8) None).

Definition comm_regs_sample : list Z :=
  default [] (Comm.update_i2c_registers (replicate 16 0) data_sample).

(** A command write, a write of the emissivity, a write to a status
    register and a read. *)
Definition events_sample : list bus_event :=
  [rx 0xFF; rx 0x02; stop; rx 0x04; rx 90; stop; rx 0x19; rx 7; rd; stop].

Definition handled_sample : Slave * list Z :=
  default (slave_zero, []) (run_handler events_sample slave_init).

(** The slave once the driver loop has handed over a frame. *)
Definition slave_streaming : Slave :=
  {| state := state slave_init;
     register_map := register_map slave_init;
     current_frame := Some (frame_of_columns cooling_band) |}.

Definition streamed_sample : Slave * list Z :=
  default (slave_zero, [])
          (run_handler (rx (Z.of_nat REG_FRAME_DATA_START) :: replicate 4 rd)
                       slave_streaming).

Definition actions_sample : list action :=
  [ Irq (fst (rx 4)) 4; Irq (fst (rx 250)) 250; Irq (fst stop) 0;
    Update data_sample (of_int 8) None; SetMode OUTPUT_MODE_ALL ].

Definition slave_after_actions : Slave :=
  default slave_zero (run actions_sample slave_init).

(** What holds of the variables between any two steps of the firmware. *)
Definition slave_ok (s : Slave) : Prop :=
  length (register_map s) = 256%nat
  /\ (current_register (state s) < 256)%nat
  /\ 0 <= frame_read_offset (state s) <= 768
  /\ enabled (state s) = true
  /\ nth REG_FIRMWARE_VERSION (register_map s) 0 = 1
  /\ nth REG_OUTPUT_MODE (register_map s) 0 = Z.land (output_mode (state s)) 0xFF
  /\ slave_address (state s) = Z.land (nth REG_I2C_ADDRESS (register_map s) 0) 0x7F
  /\ (forall j, (j <= REG_RESERVED_0F)%nat -> is_byte (nth j (register_map s) 0)).

(** The emissivity the driver loop reads is a fraction. *)
Definition emissivity_in_range (byte : Z) : bool :=
  let e := fdiv (of_int (if byte >? 100 then 100 else byte)) (of_int 100) in
  isfinite e && fle zero e && fle e (of_int 1).

End Bus.

Import Bus.

(* ================================================================== *)
(** ** Notions for the earlier algorithm *)
(* ================================================================== *)

Module Early.

Import Thermal.

(** The statistics [detect_tyre_span] derives from the profile, and the
    threshold of its growth loops. *)
Definition profile_median (profile : list float) : float :=
  fst (fast_median (take WIDTH profile) WIDTH).

Definition profile_mad (profile : list float) : float :=
  fast_mad profile WIDTH (profile_median profile).

Definition span_threshold (profile : list float) (cfg : ThermalConfig) : float :=
  fadd (profile_median profile) (fmul (mad_threshold cfg) (profile_mad profile)).

(** Column [i] is above the threshold. *)
Definition above (profile : list float) (cfg : ThermalConfig) (i : Z) : bool :=
  fgt (aget profile (Z.to_nat i)) (span_threshold profile cfg).

(** The seed search after the columns [0 .. k-1]: the largest value above
    [-300] so far and its column. *)
Definition seed_scan (profile : list float) (k : nat) : float * Z :=
  fold_left (fun (acc : float * Z) i =>
               if fgt (aget profile (Z.to_nat i)) (fst acc)
               then (aget profile (Z.to_nat i), i) else acc)
            (seqZ 0 (Z.of_nat k)) (of_int (-300), SENSOR_WIDTH ÷ 2).

End Early.

Import Early.

(* ================================================================== *)
(** ** Notions for the stages of the detection pipeline *)
(* ================================================================== *)

Module Stages.

Import Detect.

(** The sign bit is clear, or the value is NaN: what the statistics of
    deviations and squares can be. *)
Definition sign_clear (x : float) : bool :=
  match x with
  | S754_nan => true
  | S754_zero s | S754_infinity s | S754_finite s _ _ => negb s
  end.

Definition all_sign_clear (l : list float) : Prop :=
  Forall (fun x => sign_clear x = true) l.

(** A binary32 value other than NaN. *)
Definition number (x : float) : Prop := valid x = true /\ isnan x = false.
Definition all_numbers (l : list float) : Prop := Forall number l.

(** [lo <= x <= hi] in binary32. *)
Definition between (lo hi x : float) : bool := fle lo x && fle x hi.

(** [a] is contained in [b]. *)
Definition span_within (a b : Z * Z) : Prop := fst b <= fst a /\ snd a <= snd b.

(** What the geometry clamp does to the ordered span [(l, r)] of the
    sensor: the result is an ordered span of the sensor whose width is
    within one column of the bounds; a narrow span is widened around
    itself, by an even number of columns; a wide one is narrowed inside
    itself, by an even number of columns. *)
Definition geometry_case (l r : Z) : bool :=
  let s := apply_geometry_constraints (l, r) in
  let w := r - l + 1 in
  let w' := snd s - fst s + 1 in
  (0 <=? fst s) && (fst s <=? snd s) && (snd s <? SENSOR_WIDTH)
  && (min_tyre_width config - 1 <=? w') && (w' <=? max_tyre_width config + 1)
  && (if w <? min_tyre_width config
      then (fst s <=? l) && (r <=? snd s)
           && (w' =? w + 2 * ((min_tyre_width config - w) ÷ 2))
      else true)
  && (if w >? max_tyre_width config
      then (l <=? fst s) && (snd s <=? r)
           && (w' =? w - 2 * ((w - max_tyre_width config) ÷ 2))
      else true).

(** A state with two stored detections. *)
Definition state_full : TemporalState :=
  {| prev_profile := replicate WIDTH zero;
     prev_detections := [(10, 20); (11, 21)];
     prev_detection_count := 2;
     has_previous := true |}.

End Stages.

Import Stages.

(* ================================================================== *)
(** ** Notions for the values handed to the outputs *)
(* ================================================================== *)

Module Emitted.

Import Thermal I2CSlave MainLoop.






End Emitted.

Import Emitted.

(* ================================================================== *)
(** ** Generic lemmas: exhaustive checks, arrays, binary32 *)
(* ================================================================== *)

Lemma forallb_seqZ (P : Z -> bool) (m n : Z) :
  forallb P (seqZ m n) = true -> forall z, m <= z < m + n -> P z = true.
Proof.
  intros H z Hz. rewrite forallb_forall in H. apply H.
  apply list_elem_of_In, elem_of_seqZ. exact Hz.
Qed.

Lemma span_eqb_eq (a b : Z * Z) : span_eqb a b = true -> a = b.
Proof.
  destruct a, b. unfold span_eqb. cbn [fst snd].
  intros [H1 H2]%andb_prop. apply Z.eqb_eq in H1, H2. congruence.
Qed.

Lemma feqb_eq (x y : float) : feqb x y = true -> x = y.
Proof.
  destruct x as [s1|s1| |s1 m1 e1], y as [s2|s2| |s2 m2 e2]; cbn;
    try discriminate; try reflexivity.
  - intros H. apply Bool.eqb_prop in H. congruence.
  - intros H. apply Bool.eqb_prop in H. congruence.
  - intros H. apply andb_prop in H as [H He]. apply andb_prop in H as [Hs Hm].
    apply Bool.eqb_prop in Hs. apply Pos.eqb_eq in Hm. apply Z.eqb_eq in He.
    congruence.
Qed.

Lemma fadd_comm (x y : float) : fadd x y = fadd y x.
Proof.
  unfold fadd, SFadd.
  destruct x as [sx|sx| |sx mx ex], y as [sy|sy| |sy my ey];
    try reflexivity; try (destruct sx, sy; reflexivity).
  rewrite (Z.min_comm ey ex). f_equal. apply Z.add_comm.
Qed.

Lemma aget_insert_eq (l : list float) (i : nat) (v : float) :
  (i < length l)%nat -> aget (<[i := v]> l) i = v.
Proof.
  intros H. unfold aget. rewrite nth_lookup, list_lookup_insert_eq by exact H.
  reflexivity.
Qed.

Lemma aget_insert_ne (l : list float) (i j : nat) (v : float) :
  i <> j -> aget (<[i := v]> l) j = aget l j.
Proof.
  intros H. unfold aget. rewrite !nth_lookup, list_lookup_insert_ne by exact H.
  reflexivity.
Qed.

Lemma aget_app_drop (a l : list float) (k : nat) :
  length a = k -> aget (a ++ drop k l) k = aget l k.
Proof.
  intros Ha. unfold aget. rewrite !nth_lookup.
  rewrite lookup_app_r by lia. rewrite lookup_drop. do 2 f_equal. lia.
Qed.

Lemma insert_app_drop {A} (a l : list A) (k : nat) (v : A) :
  length a = k -> (k < length l)%nat ->
  <[k := v]> (a ++ drop k l) = (a ++ [v]) ++ drop (S k) l.
Proof.
  intros Ha Hk. rewrite insert_app_r_alt by lia.
  destruct (lookup_lt_is_Some_2 l k Hk) as [x Hx].
  rewrite (drop_S l x k Hx). replace (k - length a)%nat with 0%nat by lia.
  cbn. rewrite <- app_assoc. reflexivity.
Qed.

(* ================================================================== *)
(** ** Geometry clamp *)
(* ================================================================== *)

Section Geometry.

Import Detect.

Lemma geometry_noop_on_sensor (s : Z * Z) :
  on_sensor s -> width_in_bounds s -> apply_geometry_constraints s = s.
Proof.
  destruct s as [l r]. unfold on_sensor, width_in_bounds, span_width.
  cbn [fst snd]. intros [Hl Hr] [Hmin Hmax].
  unfold apply_geometry_constraints, clamp_span.
  change (min_tyre_width config) with 6 in *.
  change (max_tyre_width config) with 28 in *.
  change SENSOR_WIDTH with 32 in *.
  destruct (Z.ltb_spec (r - l + 1) 6); [lia|].
  rewrite (Z.gtb_ltb (r - l + 1) 28).
  destruct (Z.ltb_spec 28 (r - l + 1)); [lia|].
  destruct (Z.ltb_spec l 0); [lia|].
  rewrite (Z.geb_leb r 32).
  destruct (Z.leb_spec 32 r); [lia|]. reflexivity.
Qed.

Lemma clamp_span_on_sensor (s : Z * Z) : on_sensor (clamp_span s).
Proof.
  destruct s as [l r]. unfold clamp_span, on_sensor. change SENSOR_WIDTH with 32.
  destruct (Z.ltb_spec l 0); rewrite (Z.geb_leb r 32);
    destruct (Z.leb_spec 32 r); cbn [fst snd]; lia.
Qed.

(** Whatever it is given, the geometry clamp returns a span whose ends are
    columns of the sensor. *)
Lemma geometry_on_sensor (s : Z * Z) : on_sensor (apply_geometry_constraints s).
Proof.
  destruct s as [l r]. unfold apply_geometry_constraints.
  repeat match goal with
         | |- context [if ?c then _ else _] => destruct c
         end; apply clamp_span_on_sensor.
Qed.

(** C6: a span of the sensor whose width is already within
    [min_tyre_width, max_tyre_width] is returned unchanged by the geometry
    clamp; every result of the clamp is a span of the sensor, so whenever
    the width of a result satisfies the bounds, reapplying the clamp to it
    is a no-op. *)
Theorem geometry_clamp_noop :
  (forall s, on_sensor s -> width_in_bounds s -> apply_geometry_constraints s = s)
  /\ (forall s,
        width_in_bounds (apply_geometry_constraints s) ->
        apply_geometry_constraints (apply_geometry_constraints s)
        = apply_geometry_constraints s).
Proof.
  split; [exact geometry_noop_on_sensor|].
  intros s Hw. apply geometry_noop_on_sensor; [apply geometry_on_sensor | exact Hw].
Qed.

Lemma geometry_clamp_noop_witness :
  apply_geometry_constraints (12, 19) = (12, 19).
Proof.
  apply (proj1 geometry_clamp_noop (12, 19)).
  - unfold on_sensor, SENSOR_WIDTH; cbn [fst snd]; lia.
  - unfold width_in_bounds, span_width;
      cbn [fst snd min_tyre_width max_tyre_width config]; lia.
Defined.

Lemma geometry_table :
  forallb (fun l => forallb (fun r =>
     if l <=? r then
       let s := apply_geometry_constraints (l, r) in
       (0 <=? fst s) && (fst s <=? snd s) && (snd s <? SENSOR_WIDTH)
       && span_eqb (apply_geometry_constraints s) s
     else true) (seqZ 0 SENSOR_WIDTH)) (seqZ 0 SENSOR_WIDTH) = true.
Proof. vm_compute. reflexivity. Qed.

Lemma geometry_table_spec (s : Z * Z) :
  span_ok s ->
  span_ok (apply_geometry_constraints s)
  /\ apply_geometry_constraints (apply_geometry_constraints s)
     = apply_geometry_constraints s.
Proof.
  destruct s as [l r]. unfold span_ok. cbn [fst snd]. intros [[Hl Hlr] Hr].
  pose proof (forallb_seqZ _ _ _ geometry_table l ltac:(lia)) as T.
  cbn beta in T.
  pose proof (forallb_seqZ _ _ _ T r ltac:(lia)) as T'. cbn beta zeta in T'.
  destruct (Z.leb_spec l r); [|lia].
  apply andb_prop in T' as [T' Te]. apply andb_prop in T' as [T' T3].
  apply andb_prop in T' as [T1 T2].
  apply Z.leb_le in T1, T2. apply Z.ltb_lt in T3.
  split; [lia | apply span_eqb_eq; exact Te].
Qed.

(** The geometry clamp keeps a span on the sensor in order. *)
Lemma geometry_span_ok (s : Z * Z) :
  span_ok s -> span_ok (apply_geometry_constraints s).
Proof. intros H. apply geometry_table_spec. exact H. Qed.

(** X24: on every ordered span of the sensor the geometry clamp is
    idempotent: applying it to its own result changes nothing, also when
    the result is one column off the width bounds. *)
Lemma geometry_idempotent (s : Z * Z) :
  span_ok s ->
  apply_geometry_constraints (apply_geometry_constraints s)
  = apply_geometry_constraints s.
Proof. intros H. apply geometry_table_spec. exact H. Qed.

Lemma geometry_idempotent_witness :
  apply_geometry_constraints (apply_geometry_constraints (14, 16))
  = apply_geometry_constraints (14, 16).
Proof.
  apply (geometry_idempotent (14, 16)).
  unfold span_ok, SENSOR_WIDTH; cbn [fst snd]; lia.
Defined.

End Geometry.

(* ================================================================== *)
(** ** Temporal filter *)
(* ================================================================== *)

Section Ema.

Import Detect.

Lemma ema_fold (current output0 prev0 : list float) (k : nat) :
  (k <= length output0)%nat -> (k <= length prev0)%nat ->
  fold_left (ema_step current) (seq 0 k) (output0, prev0)
  = (map (ema_value current prev0) (seq 0 k) ++ drop k output0,
     map (ema_value current prev0) (seq 0 k) ++ drop k prev0).
Proof.
  induction k as [|k IH]; intros Ho Hp.
  - cbn. rewrite !drop_0. reflexivity.
  - rewrite seq_S, fold_left_app, IH by lia. cbn [fold_left ema_step Nat.add].
    rewrite map_app. cbn [map].
    assert (Hlen : length (map (ema_value current prev0) (seq 0 k)) = k)
      by (rewrite length_map, length_seq; reflexivity).
    rewrite aget_app_drop by exact Hlen.
    rewrite !insert_app_drop by (exact Hlen || lia).
    reflexivity.
Qed.

(** C4: with a previous profile, every column of the output is
    [ema_alpha * current[i] + (1 - ema_alpha) * prev_profile[i]]; on the
    first call the output is the current profile; in both cases the state
    afterwards has [has_previous] set and [prev_profile] equal to the
    output, and the detection history is untouched. *)
Theorem apply_ema_spec (current output0 : list float) (st : TemporalState) :
  profile_sized current -> profile_sized output0 -> profile_sized (prev_profile st) ->
  let output := fst (apply_ema current output0 WIDTH st) in
  let st' := snd (apply_ema current output0 WIDTH st) in
  (has_previous st = true ->
     forall i, (i < WIDTH)%nat ->
       aget output i
       = fadd (fmul (ema_alpha config) (aget current i))
              (fmul (fsub (of_int 1) (ema_alpha config)) (aget (prev_profile st) i)))
  /\ (has_previous st = false -> output = current)
  /\ has_previous st' = true
  /\ prev_profile st' = output
  /\ prev_detections st' = prev_detections st
  /\ prev_detection_count st' = prev_detection_count st.
Proof.
  unfold profile_sized. intros Hc Ho Hp. unfold apply_ema.
  assert (Hdo : drop WIDTH output0 = []) by (apply drop_ge; lia).
  assert (Hdp : drop WIDTH (prev_profile st) = []) by (apply drop_ge; lia).
  assert (Htc : take WIDTH current = current) by (apply take_ge; lia).
  destruct (has_previous st) eqn:Hprev; cbn [negb].
  - rewrite ema_fold by lia.
    cbn [fst snd prev_profile has_previous prev_detections prev_detection_count].
    rewrite Hdo, Hdp, !app_nil_r.
    repeat split; try congruence.
    intros _ i Hi. unfold aget at 1.
    rewrite (nth_indep _ zero (ema_value current (prev_profile st) 0%nat))
      by (rewrite length_map, length_seq; exact Hi).
    rewrite map_nth, seq_nth by exact Hi. reflexivity.
  - cbn [fst snd prev_profile has_previous prev_detections prev_detection_count].
    rewrite Hdo, Hdp, Htc, !app_nil_r.
    repeat split; try congruence.
Qed.

Lemma apply_ema_spec_witness :
  prev_profile
    (snd (apply_ema (replicate WIDTH (of_int 25)) (replicate WIDTH zero) WIDTH
                    temporal_state_init))
  = fst (apply_ema (replicate WIDTH (of_int 25)) (replicate WIDTH zero) WIDTH
                   temporal_state_init).
Proof.
  pose proof (apply_ema_spec (replicate WIDTH (of_int 25)) (replicate WIDTH zero)
                             temporal_state_init eq_refl eq_refl eq_refl) as H.
  cbv zeta in H. exact (proj1 (proj2 (proj2 (proj2 H)))).
Defined.

End Ema.

(* ================================================================== *)
(** ** Hot-pixel removal *)
(* ================================================================== *)

Section HotPixels.

Import Detect.

Lemma calculate_median_single (a : float) : calculate_median [a] 1 = a.
Proof. reflexivity. Qed.

(** The median of two values is half their sum, whatever their order. *)
Lemma calculate_median_pair (a b : float) :
  calculate_median [a; b] 2 = fdiv (fadd a b) (of_int 2).
Proof.
  assert (E : calculate_median [a; b] 2
              = let arr' := swap_if_gt 0 [a; b] 1 in
                fdiv (fadd (aget arr' 0) (aget arr' 1)) (of_int 2))
    by reflexivity.
  rewrite E. unfold swap_if_gt.
  change (aget [a; b] 0) with a. change (aget [a; b] 1) with b.
  destruct (fgt a b); cbv zeta.
  - change (fdiv (fadd b a) (of_int 2) = fdiv (fadd a b) (of_int 2)).
    rewrite (fadd_comm b a). reflexivity.
  - reflexivity.
Qed.

Lemma hot_step_ne (w : nat) (row : list float) (i j : nat) :
  i <> j -> aget (hot_pixel_step w row i) j = aget row j.
Proof.
  intros H. unfold hot_pixel_step.
  repeat case_match; try reflexivity; apply aget_insert_ne; exact H.
Qed.

Lemma hot_step_length (w : nat) (row : list float) (i : nat) :
  length (hot_pixel_step w row i) = length row.
Proof.
  unfold hot_pixel_step. repeat case_match; try reflexivity; apply length_insert.
Qed.

Lemma hot_step_cold (w : nat) (row : list float) (i : nat) :
  hot (aget row i) = false -> hot_pixel_step w row i = row.
Proof. unfold hot, hot_pixel_step. intros ->. reflexivity. Qed.

Lemma hot_prefix_S w row n :
  hot_prefix w row (S n) = hot_pixel_step w (hot_prefix w row n) n.
Proof. unfold hot_prefix. rewrite seq_S, fold_left_app. reflexivity. Qed.

Lemma hot_prefix_length w row n : length (hot_prefix w row n) = length row.
Proof.
  induction n as [|n IH]; [reflexivity|].
  rewrite hot_prefix_S, hot_step_length. exact IH.
Qed.

(** Columns the loop has not reached yet still hold the input. *)
Lemma hot_prefix_ahead w row n j :
  (n <= j)%nat -> aget (hot_prefix w row n) j = aget row j.
Proof.
  induction n as [|n IH]; intros H; [reflexivity|].
  rewrite hot_prefix_S, hot_step_ne by lia. apply IH. lia.
Qed.

(** A column is final once the loop has passed it. *)
Lemma hot_prefix_behind w row n m j :
  (j < n)%nat -> (n <= m)%nat ->
  aget (hot_prefix w row m) j = aget (hot_prefix w row n) j.
Proof.
  intros Hj. induction 1 as [|m Hm IH]; [reflexivity|].
  rewrite hot_prefix_S, hot_step_ne by lia. exact IH.
Qed.

Lemma hot_prefix_cold w row n j :
  hot (aget row j) = false -> aget (hot_prefix w row n) j = aget row j.
Proof.
  intros Hc. induction n as [|n IH]; [reflexivity|].
  rewrite hot_prefix_S. destruct (Nat.eq_dec n j) as [->|Hne].
  - rewrite hot_step_cold; [exact IH|]. rewrite IH. exact Hc.
  - rewrite hot_step_ne by exact Hne. exact IH.
Qed.

Lemma remove_hot_pixels_at (row : list float) (w i : nat) :
  (i < w)%nat ->
  aget (remove_hot_pixels row w) i
  = aget (hot_pixel_step w (hot_prefix w row i) i) i.
Proof.
  intros Hi. change (remove_hot_pixels row w) with (hot_prefix w row w).
  rewrite (hot_prefix_behind w row (S i) w i) by lia.
  rewrite hot_prefix_S. reflexivity.
Qed.

(** C7: in a row of [w >= 2] pixels, a pixel that does not exceed the
    threshold is left unchanged; a pixel above the threshold between two
    neighbours that do not exceed it is replaced by the median of the two,
    which is half their sum; a pixel above the threshold at the left edge
    is replaced by its right neighbour, and one at the right edge by its
    left neighbour (as the loop left it, which is the input value when
    that neighbour does not exceed the threshold). *)
Theorem remove_hot_pixels_spec (row : list float) (w : nat) :
  length row = w -> (2 <= w)%nat ->
  let out := remove_hot_pixels row w in
  (forall i, (i < w)%nat -> hot (aget row i) = false -> aget out i = aget row i)
  /\ (forall i, (0 < i)%nat -> (i + 1 < w)%nat ->
        hot (aget row i) = true ->
        hot (aget row (i - 1)) = false -> hot (aget row (i + 1)) = false ->
        aget out i = calculate_median [aget row (i - 1); aget row (i + 1)] 2
        /\ aget out i = fdiv (fadd (aget row (i - 1)) (aget row (i + 1))) (of_int 2))
  /\ (hot (aget row 0) = true -> aget out 0 = aget row 1)
  /\ (hot (aget row (w - 1)) = true ->
        aget out (w - 1) = aget out (w - 2)
        /\ (hot (aget row (w - 2)) = false -> aget out (w - 1) = aget row (w - 2))).
Proof.
  intros Hlen Hw out. subst out.
  split; [|split; [|split]].
  - intros i _ Hc. apply hot_prefix_cold. exact Hc.
  - intros i Hi0 Hi1 Hh Hl Hr.
    assert (Hmain : aget (remove_hot_pixels row w) i
                    = calculate_median [aget row (i - 1); aget row (i + 1)] 2).
    { rewrite remove_hot_pixels_at by lia. unfold hot_pixel_step.
      rewrite (hot_prefix_ahead w row i i) by lia.
      rewrite (hot_prefix_ahead w row i (i + 1)) by lia.
      rewrite (hot_prefix_cold w row i (i - 1)) by exact Hl.
      unfold hot in Hh. rewrite Hh.
      replace (0 <? i)%nat with true by (symmetry; apply Nat.ltb_lt; lia).
      replace (Z.of_nat i <? Z.of_nat w - 1) with true
        by (symmetry; apply Z.ltb_lt; lia).
      cbn [app length Nat.ltb Nat.leb].
      apply aget_insert_eq. rewrite hot_prefix_length. lia. }
    split; [exact Hmain|]. rewrite Hmain. apply calculate_median_pair.
  - intros Hh. rewrite remove_hot_pixels_at by lia. unfold hot_pixel_step.
    change (hot_prefix w row 0) with row.
    unfold hot in Hh. rewrite Hh.
    replace (Z.of_nat 0 <? Z.of_nat w - 1) with true
      by (symmetry; apply Z.ltb_lt; lia).
    cbn [app length Nat.ltb Nat.leb Nat.add].
    rewrite calculate_median_single. apply aget_insert_eq. lia.
  - intros Hh.
    assert (Hlast : aget (remove_hot_pixels row w) (w - 1)
                    = aget (hot_prefix w row (w - 1)) (w - 2)).
    { rewrite remove_hot_pixels_at by lia. unfold hot_pixel_step.
      rewrite (hot_prefix_ahead w row (w - 1) (w - 1)) by lia.
      unfold hot in Hh. rewrite Hh.
      replace (0 <? w - 1)%nat with true by (symmetry; apply Nat.ltb_lt; lia).
      replace (Z.of_nat (w - 1) <? Z.of_nat w - 1) with false
        by (symmetry; apply Z.ltb_ge; lia).
      cbn [app length Nat.ltb Nat.leb].
      rewrite calculate_median_single.
      replace (w - 1 - 1)%nat with (w - 2)%nat by lia.
      apply aget_insert_eq. rewrite hot_prefix_length. lia. }
    split.
    + rewrite Hlast. symmetry.
      change (remove_hot_pixels row w) with (hot_prefix w row w).
      apply hot_prefix_behind; lia.
    + intros Hl. rewrite Hlast. apply hot_prefix_cold. exact Hl.
Qed.

Lemma remove_hot_pixels_spec_witness :
  aget (remove_hot_pixels row_hot 32) 2
  = fdiv (fadd (of_int 21) (of_int 23)) (of_int 2)
  /\ aget (remove_hot_pixels row_hot 32) 31 = of_int 50.
Proof.
  pose proof (remove_hot_pixels_spec row_hot 32 eq_refl ltac:(lia)) as H.
  cbv zeta in H. destruct H as (_ & H2 & _ & H4). split.
  - apply (H2 2%nat); [lia | lia | reflexivity | reflexivity | reflexivity].
  - apply (proj2 (H4 eq_refl)). reflexivity.
Defined.

End HotPixels.

(* ================================================================== *)
(** ** Region growing *)
(* ================================================================== *)

Section GrowScan.

Import Detect.

Variable ok : Z -> bool.
Variable max_fail : Z.
Hypothesis max_fail_nonneg : 0 <= max_fail.

(** The three cases of one loop iteration: a column meeting a criterion
    becomes the boundary and clears the counter; a failing column
    increments the counter and, while the counter does not exceed
    [max_fail], leaves the boundary where it is; once the counter exceeds
    [max_fail] the scan ends at the recorded boundary. *)
Lemma grow_scan_success i rest bound fc :
  ok i = true ->
  grow_scan ok max_fail (i :: rest) bound fc = grow_scan ok max_fail rest i 0.
Proof. intros H. cbn. rewrite H. reflexivity. Qed.

Lemma grow_scan_tolerated i rest bound fc :
  ok i = false -> fc + 1 <= max_fail ->
  grow_scan ok max_fail (i :: rest) bound fc
  = grow_scan ok max_fail rest bound (fc + 1).
Proof.
  intros H Hfc. cbn. rewrite H.
  destruct (Z.gtb_spec (fc + 1) max_fail); [lia | reflexivity].
Qed.

Lemma grow_scan_stop i rest bound fc :
  ok i = false -> max_fail < fc + 1 ->
  grow_scan ok max_fail (i :: rest) bound fc = bound.
Proof.
  intros H Hfc. cbn. rewrite H.
  destruct (Z.gtb_spec (fc + 1) max_fail); [reflexivity | lia].
Qed.

(** A run of failing columns that keeps the counter within [max_fail] is
    passed over, and the passing column after it becomes the boundary
    with the counter back at 0. *)
Lemma grow_scan_gap (fails : list Z) (i : Z) (rest : list Z) (bound fc : Z) :
  Forall (fun j => ok j = false) fails ->
  fc + Z.of_nat (length fails) <= max_fail ->
  ok i = true ->
  grow_scan ok max_fail (fails ++ i :: rest) bound fc
  = grow_scan ok max_fail rest i 0.
Proof.
  intros Hf. revert fc. induction Hf as [|j fails Hj Hf IH]; intros fc Hfc Hi.
  - cbn [app]. apply grow_scan_success. exact Hi.
  - cbn [app]. cbn [length] in Hfc.
    rewrite grow_scan_tolerated by (try assumption; lia).
    apply IH; [lia | exact Hi].
Qed.

(** A run of failing columns that takes the counter beyond [max_fail]
    ends the scan at the recorded boundary, whatever follows. *)
Lemma grow_scan_break (fails rest : list Z) (bound fc : Z) :
  Forall (fun j => ok j = false) fails ->
  max_fail < fc + Z.of_nat (length fails) ->
  fc <= max_fail ->
  grow_scan ok max_fail (fails ++ rest) bound fc = bound.
Proof.
  intros Hf. revert fc. induction Hf as [|j fails Hj Hf IH]; intros fc Hfc Hle.
  - cbn [length] in Hfc. lia.
  - cbn [app]. cbn [length] in Hfc.
    destruct (Z.le_gt_cases (fc + 1) max_fail) as [H | H].
    + rewrite grow_scan_tolerated by assumption. apply IH; lia.
    + apply grow_scan_stop; [exact Hj | lia].
Qed.

Variable col : nat -> Z.

(** The scan has looked at the columns up to distance [k0]; the boundary
    is at distance [kb] and every column after it has failed, so the
    counter is [k0 - kb].  The scan of the next [n] columns ends at a
    distance [kr] that is the old boundary or a column meeting a
    criterion; the columns after it fail, up to [max_fail + 1] of them;
    and between the old boundary and [kr] there is a success within every
    [max_fail + 1] columns. *)
Lemma grow_scan_ray (n k0 kb : nat) :
  (kb <= k0)%nat -> Z.of_nat (k0 - kb) <= max_fail ->
  (forall j, (kb < j <= k0)%nat -> ok (col j) = false) ->
  exists kr : nat,
    grow_scan ok max_fail (ray col k0 n) (col kb) (Z.of_nat (k0 - kb)) = col kr
    /\ (kb <= kr <= k0 + n)%nat
    /\ (kr = kb \/ ok (col kr) = true)
    /\ (forall j, (kr < j <= k0 + n)%nat ->
                  Z.of_nat j <= Z.of_nat kr + max_fail + 1 ->
                  ok (col j) = false)
    /\ (forall j, (kb <= j < kr)%nat ->
          exists t, (j < t <= kr)%nat /\ Z.of_nat t <= Z.of_nat j + max_fail + 1
                    /\ ok (col t) = true).
Proof.
  revert k0 kb. induction n as [|n IH]; intros k0 kb Hk Hf Hfail.
  - exists kb. cbn. repeat split; try lia; auto.
    intros j Hj _. apply Hfail. lia.
  - unfold ray. cbn [seq map]. fold (ray col (S k0) n).
    destruct (ok (col (S k0))) eqn:Hok.
    + rewrite grow_scan_success by exact Hok.
      destruct (IH (S k0) (S k0)) as (kr & Hr & Hb & Hs & Hmax & Hrun).
      * lia.
      * lia.
      * intros j Hj. lia.
      * replace (S k0 - S k0)%nat with 0%nat in Hr by lia.
        exists kr. split; [exact Hr|]. split; [lia|]. split.
        { right. destruct Hs as [-> | Hs]; assumption. }
        split.
        { intros j Hj Hj'. apply Hmax; lia. }
        { intros j Hj. destruct (Nat.lt_ge_cases j (S k0)) as [Hlt | Hge].
          - exists (S k0). repeat split; try lia. exact Hok.
          - apply Hrun. lia. }
    + destruct (Z.le_gt_cases (Z.of_nat (k0 - kb) + 1) max_fail) as [Hle | Hgt].
      * rewrite grow_scan_tolerated by assumption.
        replace (Z.of_nat (k0 - kb) + 1) with (Z.of_nat (S k0 - kb)) by lia.
        destruct (IH (S k0) kb) as (kr & Hr & Hb & Hs & Hmax & Hrun).
        { lia. }
        { lia. }
        { intros j Hj. destruct (Nat.eq_dec j (S k0)) as [-> | Hne];
            [exact Hok | apply Hfail; lia]. }
        exists kr. split; [exact Hr|]. split; [lia|]. split; [exact Hs|].
        split; [intros j Hj Hj'; apply Hmax; lia | exact Hrun].
      * rewrite grow_scan_stop by assumption.
        exists kb. split; [reflexivity|]. split; [lia|]. split; [left; reflexivity|].
        split.
        { intros j Hj Hj'. destruct (Nat.eq_dec j (S k0)) as [-> | Hne];
            [exact Hok | apply Hfail; lia]. }
        { intros j Hj. lia. }
Qed.

End GrowScan.

Section GrowRegion.

Import Detect.

Variable profile : list float.
Variables median_temp mad_global : float.

(** The test the loops apply is the disjunction of the two criteria on
    the profile. *)
Lemma grow_ok_extends (i : Z) :
  grow_ok profile median_temp (grow_params profile median_temp mad_global) i = true
  <-> extends_span profile median_temp mad_global i.
Proof.
  unfold grow_ok, column_ok, extends_span, grow_params, seed_inverted,
    similarity_k, local_window, contrast_delta, seed_value. cbv zeta.
  cbn [g_centre_temp g_k g_delta g_inverted].
  rewrite orb_true_iff.
  change (centre_col config + 2 <? SENSOR_WIDTH) with true.
  change (centre_col config - 2 >=? 0) with true. cbv iota.
  change (Z.to_nat (centre_col config + 2 - (centre_col config - 2) + 1)) with 5%nat.
  match goal with |- context [if ?b then _ else _] => destruct b end; reflexivity.
Qed.

Lemma grow_ok_fails (i : Z) :
  grow_ok profile median_temp (grow_params profile median_temp mad_global) i = false
  <-> ~ extends_span profile median_temp mad_global i.
Proof.
  rewrite <- grow_ok_extends. destruct (grow_ok _ _ _ i); split; congruence.
Qed.

(** The grown region is an ordered span of the sensor around the seed. *)
Lemma grow_region_span_ok : span_ok (grow_region profile median_temp mad_global).
Proof.
  unfold grow_region, span_ok. cbn [fst snd].
  set (ok := grow_ok profile median_temp
                     (grow_params profile median_temp mad_global)).
  change (centre_col config) with 16. change (max_fail_count config) with 2.
  change SENSOR_WIDTH with 32.
  change (cols_left 16) with (ray (fun k => 16 - Z.of_nat k) 0 16).
  change (cols_right 16) with (ray (fun k => 16 + Z.of_nat k) 0 15).
  destruct (grow_scan_ray ok 2 ltac:(lia) (fun k => 16 - Z.of_nat k) 16 0 0)
    as (kl & Hl & Hbl & _); [lia | cbn; lia | intros; lia |].
  destruct (grow_scan_ray ok 2 ltac:(lia) (fun k => 16 + Z.of_nat k) 15 0 0)
    as (kr & Hr & Hbr & _); [lia | cbn; lia | intros; lia |].
  cbn beta in Hl, Hr. change (Z.of_nat (0 - 0)) with 0 in Hl, Hr.
  change (16 - Z.of_nat 0) with 16 in Hl. change (16 + Z.of_nat 0) with 16 in Hr.
  rewrite Hl, Hr. lia.
Qed.

(** C2: a column extends the span when its value is within [k] of the
    seed's value or meets the global contrast test for the computed
    inversion flag, with the seed value, [delta], the flag and [k] as
    the specification derives them from the profile.  The left boundary
    [L] returned by [grow_region] is the seed or a column that extends the
    span, never a failing one; the columns just beyond it fail,
    [max_fail_count + 1] of them unless the sensor edge comes first, which
    is where the counter exceeded [max_fail_count]; and between [L] and
    the seed every failing run was tolerated: each column has an extending
    column within [max_fail_count + 1] columns on its far side.  The same
    holds for the right boundary [R], mirrored.  The scan itself passes
    over a failing run that keeps the counter within [max_fail_count] and
    restarts the counter at the next passing column, which becomes the
    boundary; a failing run that takes the counter beyond
    [max_fail_count] ends it at the recorded boundary. *)
Theorem grow_region_boundaries :
  let extends := extends_span profile median_temp mad_global in
  let c := centre_col config in
  let mf := max_fail_count config in
  let L := fst (grow_region profile median_temp mad_global) in
  let R := snd (grow_region profile median_temp mad_global) in
  (0 <= L <= c
   /\ (L = c \/ extends L)
   /\ (forall j, 0 <= j < L -> L - (mf + 1) <= j -> ~ extends j)
   /\ (forall j, L < j <= c ->
         exists t, L <= t < j /\ j - (mf + 1) <= t /\ extends t))
  /\ (c <= R < SENSOR_WIDTH
      /\ (R = c \/ extends R)
      /\ (forall j, R < j < SENSOR_WIDTH -> j <= R + (mf + 1) -> ~ extends j)
      /\ (forall j, c <= j < R ->
            exists t, j < t <= R /\ t <= j + (mf + 1) /\ extends t))
  /\ (forall (ok : Z -> bool) (fails : list Z) (i : Z) (rest : list Z)
             (bound fail_count : Z),
        Forall (fun j => ok j = false) fails ->
        fail_count + Z.of_nat (length fails) <= mf ->
        ok i = true ->
        grow_scan ok mf (fails ++ i :: rest) bound fail_count
        = grow_scan ok mf rest i 0)
  /\ (forall (ok : Z -> bool) (fails rest : list Z) (bound fail_count : Z),
        Forall (fun j => ok j = false) fails ->
        fail_count <= mf < fail_count + Z.of_nat (length fails) ->
        grow_scan ok mf (fails ++ rest) bound fail_count = bound).
Proof.
  intros extends c mf L R.
  set (ok := grow_ok profile median_temp
                     (grow_params profile median_temp mad_global)).
  assert (Hp : forall i, ok i = true -> extends i)
    by (intros i; apply grow_ok_extends).
  assert (Hn : forall i, ok i = false -> ~ extends i)
    by (intros i; apply grow_ok_fails).
  subst L R. unfold grow_region. cbn [fst snd]. fold ok.
  change (centre_col config) with 16 in *. change (max_fail_count config) with 2 in *.
  subst c mf. change SENSOR_WIDTH with 32.
  split; [|split; [|split]].
  - change (cols_left 16) with (ray (fun k => 16 - Z.of_nat k) 0 16).
    destruct (grow_scan_ray ok 2 ltac:(lia) (fun k => 16 - Z.of_nat k) 16 0 0)
      as (kr & Hr & Hb & Hs & Hmax & Hrun); [lia | cbn; lia | intros; lia |].
    cbn beta in Hr. change (Z.of_nat (0 - 0)) with 0 in Hr.
    change (16 - Z.of_nat 0) with 16 in Hr.
    rewrite Hr. split; [lia|]. split.
    { destruct Hs as [-> | Hs]; [left; reflexivity | right; apply Hp, Hs]. }
    split.
    + intros j Hj Hj'. apply Hn.
      specialize (Hmax (Z.to_nat (16 - j)) ltac:(lia) ltac:(lia)).
      cbn beta in Hmax.
      replace (16 - Z.of_nat (Z.to_nat (16 - j))) with j in Hmax by lia.
      exact Hmax.
    + intros j Hj.
      destruct (Hrun (Z.to_nat (16 - j)) ltac:(lia)) as (t & Ht & Ht' & Hok).
      exists (16 - Z.of_nat t). repeat split; try lia. apply Hp, Hok.
  - change (cols_right 16) with (ray (fun k => 16 + Z.of_nat k) 0 15).
    destruct (grow_scan_ray ok 2 ltac:(lia) (fun k => 16 + Z.of_nat k) 15 0 0)
      as (kr & Hr & Hb & Hs & Hmax & Hrun); [lia | cbn; lia | intros; lia |].
    cbn beta in Hr. change (Z.of_nat (0 - 0)) with 0 in Hr.
    change (16 + Z.of_nat 0) with 16 in Hr.
    rewrite Hr. split; [lia|]. split.
    { destruct Hs as [-> | Hs]; [left; reflexivity | right; apply Hp, Hs]. }
    split.
    + intros j Hj Hj'. apply Hn.
      specialize (Hmax (Z.to_nat (j - 16)) ltac:(lia) ltac:(lia)).
      cbn beta in Hmax.
      replace (16 + Z.of_nat (Z.to_nat (j - 16))) with j in Hmax by lia.
      exact Hmax.
    + intros j Hj.
      destruct (Hrun (Z.to_nat (j - 16)) ltac:(lia)) as (t & Ht & Ht' & Hok).
      exists (16 + Z.of_nat t). repeat split; try lia. apply Hp, Hok.
  - intros ok' fails i rest bound fc Hf Hfc Hi. apply grow_scan_gap; assumption.
  - intros ok' fails rest bound fc Hf [Hle Hfc]. apply grow_scan_break; assumption.
Qed.

End GrowRegion.

(* ================================================================== *)
(** ** Persistence smoothing *)
(* ================================================================== *)

Section Persistence.

Import Detect.

Lemma apply_persistence_first st s :
  prev_detection_count st = 0 ->
  apply_persistence st s
  = (s, with_history st (<[0%nat := s]> (prev_detections st)) 1).
Proof. intros Hc. destruct s. unfold apply_persistence. rewrite Hc. reflexivity. Qed.

Lemma apply_persistence_second st s :
  prev_detection_count st = 1 ->
  apply_persistence st s
  = (s, with_history st (<[1%nat := s]> (prev_detections st)) 2).
Proof. intros Hc. destruct s. unfold apply_persistence. rewrite Hc. reflexivity. Qed.

Lemma apply_persistence_full st a0 b0 a1 b1 l r :
  prev_detection_count st = 2 ->
  prev_detections st = [(a0, b0); (a1, b1)] ->
  apply_persistence st (l, r)
  = ((weighted_avg a0 a1 l, weighted_avg b0 b1 r),
     with_history st [(a1, b1); (weighted_avg a0 a1 l, weighted_avg b0 b1 r)] 2).
Proof.
  intros Hc Hh. unfold apply_persistence. rewrite Hc, Hh. reflexivity.
Qed.

(** Exactness of the accumulation on column indices, by exhaustive
    evaluation of each single operation. *)
Lemma weight_products_table :
  forallb (fun a =>
             feqb (fadd zero (fmul (of_int a) (of_int 1))) (of_int a)
             && feqb (fmul (of_int a) (of_int 4)) (of_int (4 * a))
             && feqb (fmul (of_int a) (of_int 9)) (of_int (9 * a)))
          (seqZ 0 32) = true.
Proof. vm_compute. reflexivity. Qed.

Lemma weight_sum1_table :
  forallb (fun x => forallb (fun y =>
             feqb (fadd (of_int x) (of_int (4 * y))) (of_int (x + 4 * y)))
          (seqZ 0 32)) (seqZ 0 32) = true.
Proof. vm_compute. reflexivity. Qed.

Lemma weight_sum2_table :
  forallb (fun u => forallb (fun c =>
             feqb (fadd (of_int u) (of_int (9 * c))) (of_int (u + 9 * c)))
          (seqZ 0 32)) (seqZ 0 156) = true.
Proof. vm_compute. reflexivity. Qed.

Lemma weight_quotient_table :
  forallb (fun s => to_int (fdiv (of_int s) total_weight) =? s / 14)
          (seqZ 0 435) = true.
Proof. vm_compute. reflexivity. Qed.

(** On column indices the weighted average is the integer quotient
    [(a0 + 4 a1 + 9 a) / 14]. *)
Lemma weighted_avg_spec a0 a1 a :
  0 <= a0 < 32 -> 0 <= a1 < 32 -> 0 <= a < 32 ->
  weighted_avg a0 a1 a = (a0 + 4 * a1 + 9 * a) / 14.
Proof.
  intros H0 H1 H. unfold weighted_avg. fold total_weight.
  pose proof (forallb_seqZ _ _ _ weight_products_table a0 ltac:(lia)) as P0.
  pose proof (forallb_seqZ _ _ _ weight_products_table a1 ltac:(lia)) as P1.
  pose proof (forallb_seqZ _ _ _ weight_products_table a ltac:(lia)) as P2.
  cbn beta in P0, P1, P2.
  apply andb_prop in P0 as [P0 _]. apply andb_prop in P0 as [P0 _].
  apply andb_prop in P1 as [P1 _]. apply andb_prop in P1 as [_ P1].
  apply andb_prop in P2 as [_ P2].
  rewrite (feqb_eq _ _ P0), (feqb_eq _ _ P1), (feqb_eq _ _ P2).
  pose proof (forallb_seqZ _ _ _ weight_sum1_table a0 ltac:(lia)) as S1.
  cbn beta in S1.
  rewrite (feqb_eq _ _ (forallb_seqZ _ _ _ S1 a1 ltac:(lia))).
  pose proof (forallb_seqZ _ _ _ weight_sum2_table (a0 + 4 * a1) ltac:(lia)) as S2.
  cbn beta in S2.
  rewrite (feqb_eq _ _ (forallb_seqZ _ _ _ S2 a ltac:(lia))).
  apply Z.eqb_eq.
  exact (forallb_seqZ _ _ _ weight_quotient_table (a0 + 4 * a1 + 9 * a) ltac:(lia)).
Qed.

(** The conversions to [int] of the smoothing are defined in C. *)
Lemma weight_quotient_defined :
  forallb (fun s => cast_defined (fdiv (of_int s) total_weight)) (seqZ 0 435) = true.
Proof. vm_compute. reflexivity. Qed.

Lemma weighted_avg_same a : 0 <= a < 32 -> weighted_avg a a a = a.
Proof.
  intros H. rewrite weighted_avg_spec by lia.
  replace (a + 4 * a + 9 * a) with (a * 14) by lia. apply Z.div_mul. lia.
Qed.

Lemma feed_identical_state (s : Z * Z) (st : TemporalState) (n : nat) :
  column_span s ->
  prev_detection_count st = 0 -> length (prev_detections st) = 2%nat ->
  let st' := snd (feed_identical (S (S n)) s st) in
  prev_detection_count st' = 2 /\ prev_detections st' = [s; s]
  /\ fst (feed_identical (S (S n)) s st) = s.
Proof.
  intros Hs Hc Hl. destruct s as [l r]. destruct Hs as [Hsl Hsr].
  cbn [fst snd] in Hsl, Hsr. change SENSOR_WIDTH with 32 in *.
  induction n as [|n IH].
  - cbn [feed_identical snd]. rewrite (apply_persistence_first st (l, r) Hc).
    cbn [snd]. rewrite apply_persistence_second by reflexivity.
    destruct (prev_detections st) as [|h0 [|h1 [|]]]; try discriminate.
    cbn. auto.
  - cbv zeta in IH. destruct IH as (IHc & IHh & IHo).
    change (feed_identical (S (S (S n))) (l, r) st)
      with (apply_persistence (snd (feed_identical (S (S n)) (l, r) st)) (l, r)).
    rewrite (apply_persistence_full _ l r l r l r IHc IHh).
    rewrite !weighted_avg_same by lia. cbn. auto.
Qed.

Lemma smooth_step_range (x : Z) (h : Z * Z) :
  0 <= x < 32 -> 0 <= fst h < 32 -> 0 <= snd h < 32 ->
  0 <= fst (smooth_step x h) < 32 /\ 0 <= snd (smooth_step x h) < 32.
Proof. intros Hx H0 H1. unfold smooth_step. cbn [fst snd]. split; [lia | zlia]. Qed.

Lemma smooth_iter_range (x : Z) (h : Z * Z) (k : nat) :
  0 <= x < 32 -> 0 <= fst h < 32 -> 0 <= snd h < 32 ->
  0 <= fst (Nat.iter k (smooth_step x) h) < 32
  /\ 0 <= snd (Nat.iter k (smooth_step x) h) < 32.
Proof.
  intros Hx H0 H1. induction k as [|k IH]; [cbn; lia|].
  cbn [Nat.iter]. apply smooth_step_range; [exact Hx | apply IH | apply IH].
Qed.

(** With a full history the [k]-th of [k] identical detections comes out
    as the [k]-th iterate of [smooth_step] at either end. *)
Lemma feed_identical_full (st : TemporalState) (a0 b0 a1 b1 l r : Z) (k : nat) :
  prev_detection_count st = 2 ->
  prev_detections st = [(a0, b0); (a1, b1)] ->
  0 <= a0 < 32 -> 0 <= b0 < 32 -> 0 <= a1 < 32 -> 0 <= b1 < 32 ->
  0 <= l < 32 -> 0 <= r < 32 ->
  let hl := Nat.iter (S k) (smooth_step l) (a0, a1) in
  let hr := Nat.iter (S k) (smooth_step r) (b0, b1) in
  fst (feed_identical (S k) (l, r) st) = (snd hl, snd hr)
  /\ prev_detection_count (snd (feed_identical (S k) (l, r) st)) = 2
  /\ prev_detections (snd (feed_identical (S k) (l, r) st))
     = [(fst hl, fst hr); (snd hl, snd hr)].
Proof.
  intros Hc Hh A0 B0 A1 B1 Hl Hr. induction k as [|k IH].
  - cbn [feed_identical snd Nat.iter].
    rewrite (apply_persistence_full st a0 b0 a1 b1 l r Hc Hh).
    rewrite !weighted_avg_spec by lia. cbn. auto.
  - cbv zeta in IH. destruct IH as (_ & IHc & IHh).
    change (feed_identical (S (S k)) (l, r) st)
      with (apply_persistence (snd (feed_identical (S k) (l, r) st)) (l, r)).
    rewrite (apply_persistence_full _ _ _ _ _ l r IHc IHh).
    pose proof (smooth_iter_range l (a0, a1) (S k) Hl A0 A1) as [Rl0 Rl1].
    pose proof (smooth_iter_range r (b0, b1) (S k) Hr B0 B1) as [Rr0 Rr1].
    rewrite !weighted_avg_spec by assumption.
    cbv zeta. cbn [fst snd with_history prev_detection_count prev_detections].
    change (Nat.iter (S (S k)) (smooth_step l) (a0, a1))
      with (smooth_step l (Nat.iter (S k) (smooth_step l) (a0, a1))).
    change (Nat.iter (S (S k)) (smooth_step r) (b0, b1))
      with (smooth_step r (Nat.iter (S k) (smooth_step r) (b0, b1))).
    unfold smooth_step at 1 3 5 6 7 8. cbn [fst snd]. auto.
Qed.

(** The fifth and sixth iterates lie at most one column below the input,
    from any two stored values; from a stored value followed by the input
    itself, already the fourth and fifth.  By evaluation of all cases. *)
Lemma smooth_table :
  forallb (fun x => forallb (fun h0 =>
     at_most_one_below x (snd (Nat.iter 4 (smooth_step x) (h0, x)))
     && at_most_one_below x (snd (Nat.iter 5 (smooth_step x) (h0, x)))
     && forallb (fun h1 =>
          at_most_one_below x (snd (Nat.iter 5 (smooth_step x) (h0, h1)))
          && at_most_one_below x (snd (Nat.iter 6 (smooth_step x) (h0, h1))))
        (seqZ 0 32)) (seqZ 0 32)) (seqZ 0 32) = true.
Proof. vm_compute. reflexivity. Qed.

(** From stored values that are not below the input the fourth and fifth
    iterates are the input; from one such value followed by the input,
    the third and fourth. *)
Lemma smooth_table_above :
  forallb (fun x => forallb (fun h0 =>
     if x <=? h0 then
       (snd (Nat.iter 3 (smooth_step x) (h0, x)) =? x)
       && (snd (Nat.iter 4 (smooth_step x) (h0, x)) =? x)
       && forallb (fun h1 =>
            if x <=? h1 then
              (snd (Nat.iter 4 (smooth_step x) (h0, h1)) =? x)
              && (snd (Nat.iter 5 (smooth_step x) (h0, h1)) =? x)
            else true) (seqZ 0 32)
     else true) (seqZ 0 32)) (seqZ 0 32) = true.
Proof. vm_compute. reflexivity. Qed.

Lemma smooth_step_near (x : Z) (h : Z * Z) :
  at_most_one_below x (fst h) = true -> at_most_one_below x (snd h) = true ->
  at_most_one_below x (snd (smooth_step x h)) = true.
Proof.
  unfold at_most_one_below, smooth_step. cbn [fst snd]. intros H0 H1.
  apply andb_prop in H0 as [H0 H0']. apply andb_prop in H1 as [H1 H1'].
  apply Z.leb_le in H0, H0', H1, H1'.
  apply andb_true_intro. split; apply Z.leb_le; zlia.
Qed.

Lemma smooth_step_fixed (x : Z) : smooth_step x (x, x) = (x, x).
Proof.
  unfold smooth_step. cbn [fst snd]. f_equal.
  replace (x + 4 * x + 9 * x) with (x * 14) by lia. apply Z.div_mul. lia.
Qed.

Lemma fst_smooth_iter (x : Z) (h : Z * Z) (k : nat) :
  fst (Nat.iter (S k) (smooth_step x) h) = snd (Nat.iter k (smooth_step x) h).
Proof. reflexivity. Qed.

(** Once two successive iterates are within one column below the input,
    all later ones are. *)
Lemma smooth_near_from (x : Z) (h : Z * Z) (k0 k : nat) :
  at_most_one_below x (snd (Nat.iter k0 (smooth_step x) h)) = true ->
  at_most_one_below x (snd (Nat.iter (S k0) (smooth_step x) h)) = true ->
  (k0 <= k)%nat ->
  at_most_one_below x (snd (Nat.iter k (smooth_step x) h)) = true.
Proof.
  intros B0 B1 Hk.
  assert (G : forall j,
             at_most_one_below x (snd (Nat.iter (k0 + j) (smooth_step x) h)) = true
             /\ at_most_one_below x (snd (Nat.iter (S (k0 + j)) (smooth_step x) h)) = true).
  { induction j as [|j [I0 I1]].
    - rewrite Nat.add_0_r. split; assumption.
    - replace (k0 + S j)%nat with (S (k0 + j)) by lia. split; [exact I1|].
      change (Nat.iter (S (S (k0 + j))) (smooth_step x) h)
        with (smooth_step x (Nat.iter (S (k0 + j)) (smooth_step x) h)).
      apply smooth_step_near; [rewrite fst_smooth_iter; exact I0 | exact I1]. }
  replace k with (k0 + (k - k0))%nat by lia. apply G.
Qed.

(** Once two successive iterates are the input, all later ones are. *)
Lemma smooth_fixed_from (x : Z) (h : Z * Z) (k0 k : nat) :
  snd (Nat.iter k0 (smooth_step x) h) = x ->
  snd (Nat.iter (S k0) (smooth_step x) h) = x ->
  (k0 <= k)%nat ->
  snd (Nat.iter k (smooth_step x) h) = x.
Proof.
  intros B0 B1 Hk.
  assert (G : forall j, Nat.iter (S (k0 + j)) (smooth_step x) h = (x, x)).
  { induction j as [|j IH].
    - rewrite Nat.add_0_r. apply injective_projections.
      + rewrite fst_smooth_iter. exact B0.
      + exact B1.
    - replace (k0 + S j)%nat with (S (k0 + j)) by lia.
      change (Nat.iter (S (S (k0 + j))) (smooth_step x) h)
        with (smooth_step x (Nat.iter (S (k0 + j)) (smooth_step x) h)).
      rewrite IH. apply smooth_step_fixed. }
  destruct (Nat.eq_dec k k0) as [-> | Hne]; [exact B0|].
  replace k with (S (k0 + (k - k0 - 1)))%nat by lia. rewrite G. reflexivity.
Qed.

Lemma smooth_table_at (x h0 : Z) :
  0 <= x < 32 -> 0 <= h0 < 32 ->
  at_most_one_below x (snd (Nat.iter 4 (smooth_step x) (h0, x))) = true
  /\ at_most_one_below x (snd (Nat.iter 5 (smooth_step x) (h0, x))) = true
  /\ forall h1, 0 <= h1 < 32 ->
       at_most_one_below x (snd (Nat.iter 5 (smooth_step x) (h0, h1))) = true
       /\ at_most_one_below x (snd (Nat.iter 6 (smooth_step x) (h0, h1))) = true.
Proof.
  intros Hx H0.
  pose proof (forallb_seqZ _ _ _ smooth_table x ltac:(lia)) as T. cbn beta in T.
  pose proof (forallb_seqZ _ _ _ T h0 ltac:(lia)) as T'. cbn beta in T'.
  apply andb_prop in T' as [T1 T2]. apply andb_prop in T1 as [T4 T5].
  split; [exact T4|]. split; [exact T5|].
  intros h1 H1. pose proof (forallb_seqZ _ _ _ T2 h1 ltac:(lia)) as T3.
  cbn beta in T3. apply andb_prop in T3. exact T3.
Qed.

Lemma smooth_table_above_at (x h0 : Z) :
  0 <= x < 32 -> 0 <= h0 < 32 -> x <= h0 ->
  snd (Nat.iter 3 (smooth_step x) (h0, x)) = x
  /\ snd (Nat.iter 4 (smooth_step x) (h0, x)) = x
  /\ forall h1, 0 <= h1 < 32 -> x <= h1 ->
       snd (Nat.iter 4 (smooth_step x) (h0, h1)) = x
       /\ snd (Nat.iter 5 (smooth_step x) (h0, h1)) = x.
Proof.
  intros Hx H0 A0.
  pose proof (forallb_seqZ _ _ _ smooth_table_above x ltac:(lia)) as T. cbn beta in T.
  pose proof (forallb_seqZ _ _ _ T h0 ltac:(lia)) as T'. cbn beta in T'.
  destruct (Z.leb_spec x h0); [|lia].
  apply andb_prop in T' as [T1 T2]. apply andb_prop in T1 as [T3 T4].
  apply Z.eqb_eq in T3, T4.
  split; [exact T3|]. split; [exact T4|].
  intros h1 H1 A1. pose proof (forallb_seqZ _ _ _ T2 h1 ltac:(lia)) as T5.
  cbn beta in T5. destruct (Z.leb_spec x h1); [|lia].
  apply andb_prop in T5 as [T5 T6]. apply Z.eqb_eq in T5, T6. split; assumption.
Qed.

Lemma feed_identical_shift (s : Z * Z) (st : TemporalState) (n : nat) :
  feed_identical (S (S n)) s st
  = feed_identical (S n) s (snd (apply_persistence st s)).
Proof.
  induction n as [|n IH]; [reflexivity|].
  change (feed_identical (S (S (S n))) s st)
    with (apply_persistence (snd (feed_identical (S (S n)) s st)) s).
  rewrite IH. reflexivity.
Qed.

Lemma near_bounds (x v : Z) :
  at_most_one_below x v = true -> x - 1 <= v <= x.
Proof.
  unfold at_most_one_below. intros H. apply andb_prop in H as [H1 H2].
  apply Z.leb_le in H1, H2. lia.
Qed.

(** C5, amended: [n] identical detections [s] are fed to a history of
    ordered sensor spans.  From an empty history every call returns [s].
    From any history the output of the [n]-th call, [n >= 5], lies at
    either end on the column of [s] or on the column just below it, since
    the smoothed span, not the detection, is stored and the quotient is
    truncated.  If no stored span lies below [s] at either end, the output
    is [s] from the fourth call on. *)
Theorem persistence_identical (s : Z * Z) (st : TemporalState) (n : nat) :
  column_span s -> hist_ok st ->
  let out := fst (feed_identical n s st) in
  (prev_detection_count st = 0 -> out = s)
  /\ ((5 <= n)%nat ->
      fst s - 1 <= fst out <= fst s /\ snd s - 1 <= snd out <= snd s)
  /\ ((4 <= n)%nat -> history_not_below st s -> out = s).
Proof.
  intros Hs (Hlen & Hcount & Hslots) out. subst out.
  destruct s as [l r]. destruct Hs as [Hl Hr]. cbn [fst snd] in Hl, Hr.
  change SENSOR_WIDTH with 32 in *.
  destruct (prev_detections st) as [|[a0 b0] [|[a1 b1] [|]]] eqn:Hh;
    try discriminate. clear Hlen.
  pose proof (Hslots 0%nat) as S0. pose proof (Hslots 1%nat) as S1.
  unfold span_ok, slot in S0, S1. cbn [nth fst snd] in S0, S1.
  change SENSOR_WIDTH with 32 in *. clear Hslots.
  assert (Hc : prev_detection_count st = 0 \/ prev_detection_count st = 1
               \/ prev_detection_count st = 2) by lia.
  destruct Hc as [Hc | [Hc | Hc]].
  - (* empty history *)
    assert (E : fst (feed_identical n (l, r) st) = (l, r)).
    { destruct n as [|[|n]]; [reflexivity | |].
      - cbn [feed_identical snd]. rewrite (apply_persistence_first st (l, r) Hc).
        reflexivity.
      - apply (feed_identical_state (l, r) st n).
        + split; cbn [fst snd]; change SENSOR_WIDTH with 32; lia.
        + exact Hc.
        + rewrite Hh. reflexivity. }
    rewrite E. cbn [fst snd]. repeat split; try lia; reflexivity.
  - (* one stored span *)
    split; [intros H0; lia|].
    assert (F : forall k,
               fst (feed_identical (S (S k)) (l, r) st)
               = (snd (Nat.iter (S k) (smooth_step l) (a0, l)),
                  snd (Nat.iter (S k) (smooth_step r) (b0, r)))).
    { intros k. rewrite feed_identical_shift.
      rewrite (apply_persistence_second st (l, r) Hc). cbn [snd].
      apply (feed_identical_full _ a0 b0 l r l r k);
        first [ lia | reflexivity
              | cbn [with_history prev_detections]; rewrite Hh; reflexivity ]. }
    destruct (smooth_table_at l a0 ltac:(lia) ltac:(lia)) as (L4 & L5 & _).
    destruct (smooth_table_at r b0 ltac:(lia) ltac:(lia)) as (R4 & R5 & _).
    split.
    + intros Hn. destruct n as [|[|k]]; try lia. rewrite F. cbn [fst snd].
      split; apply near_bounds.
      * apply (smooth_near_from l (a0, l) 4); [exact L4 | exact L5 | lia].
      * apply (smooth_near_from r (b0, r) 4); [exact R4 | exact R5 | lia].
    + intros Hn Hb. destruct n as [|[|k]]; try lia. rewrite F.
      destruct (Hb 0%nat ltac:(lia)) as [Ba Bb].
      rewrite Hh in Ba, Bb. unfold slot in Ba, Bb. cbn [nth fst snd] in Ba, Bb.
      destruct (smooth_table_above_at l a0 ltac:(lia) ltac:(lia) Ba) as (A3 & A4 & _).
      destruct (smooth_table_above_at r b0 ltac:(lia) ltac:(lia) Bb) as (B3 & B4 & _).
      f_equal.
      * apply (smooth_fixed_from l (a0, l) 3); [exact A3 | exact A4 | lia].
      * apply (smooth_fixed_from r (b0, r) 3); [exact B3 | exact B4 | lia].
  - (* full history *)
    split; [intros H0; lia|].
    assert (F : forall k,
               fst (feed_identical (S k) (l, r) st)
               = (snd (Nat.iter (S k) (smooth_step l) (a0, a1)),
                  snd (Nat.iter (S k) (smooth_step r) (b0, b1)))).
    { intros k.
      apply (feed_identical_full st a0 b0 a1 b1 l r k); first [lia | exact Hh]. }
    destruct (smooth_table_at l a0 ltac:(lia) ltac:(lia)) as (_ & _ & TL).
    destruct (smooth_table_at r b0 ltac:(lia) ltac:(lia)) as (_ & _ & TR).
    destruct (TL a1 ltac:(lia)) as [L5 L6]. destruct (TR b1 ltac:(lia)) as [R5 R6].
    split.
    + intros Hn. destruct n as [|k]; try lia. rewrite F. cbn [fst snd].
      split; apply near_bounds.
      * apply (smooth_near_from l (a0, a1) 5); [exact L5 | exact L6 | lia].
      * apply (smooth_near_from r (b0, b1) 5); [exact R5 | exact R6 | lia].
    + intros Hn Hb. destruct n as [|k]; try lia. rewrite F.
      destruct (Hb 0%nat ltac:(lia)) as [Ba0 Bb0].
      destruct (Hb 1%nat ltac:(lia)) as [Ba1 Bb1].
      rewrite Hh in Ba0, Bb0, Ba1, Bb1. unfold slot in Ba0, Bb0, Ba1, Bb1.
      cbn [nth fst snd] in Ba0, Bb0, Ba1, Bb1.
      destruct (smooth_table_above_at l a0 ltac:(lia) ltac:(lia) Ba0) as (_ & _ & AL).
      destruct (smooth_table_above_at r b0 ltac:(lia) ltac:(lia) Bb0) as (_ & _ & AR).
      destruct (AL a1 ltac:(lia) Ba1) as [A4 A5].
      destruct (AR b1 ltac:(lia) Bb1) as [B4 B5].
      f_equal.
      * apply (smooth_fixed_from l (a0, a1) 4); [exact A4 | exact A5 | lia].
      * apply (smooth_fixed_from r (b0, b1) 4); [exact B4 | exact B5 | lia].
Qed.

Lemma persistence_identical_witness :
  12 - 1 <= fst (fst (feed_identical 5 (12, 19) state_after_10_17)) <= 12
  /\ 19 - 1 <= snd (fst (feed_identical 5 (12, 19) state_after_10_17)) <= 19.
Proof.
  apply (persistence_identical (12, 19) state_after_10_17 5).
  - unfold column_span, SENSOR_WIDTH. cbn [fst snd]. lia.
  - assert (E : prev_detections state_after_10_17 = [(10, 17); (0, 0)])
      by reflexivity.
    assert (C : prev_detection_count state_after_10_17 = 1) by reflexivity.
    unfold hist_ok. rewrite E, C. split; [reflexivity|]. split; [lia|].
    intros [|[|[|i]]]; unfold span_ok, slot, SENSOR_WIDTH; cbn [nth fst snd]; lia.
  - lia.
Defined.

(** C5, the claim as worded fails.  After one frame showing a hot band
    over the columns 10..17 and twelve frames showing it over the columns
    12..19 the history holds (11, 18) twice; on the next such frame the
    span handed to the smoothing is (12, 19), and of any number of
    identical detections (12, 19) fed in that state every one comes out as
    (11, 18), one column below the input at either end. *)
Lemma persistence_identical_counterexample :
  let frame1 := frame_of_columns (band 10 17 100) in
  let frame2 := frame_of_columns (band 12 19 100) in
  let st := process_frames (frame1 :: replicate 12 frame2) in
  prev_detection_count st = 2
  /\ prev_detections st = [(11, 18); (11, 18)]
  /\ fst (stage_spans frame2 st) = ((12, 19), (12, 19), (11, 18))
  /\ (forall n : nat, (1 <= n)%nat ->
        fst (feed_identical n (12, 19) st) = (11, 18)).
Proof.
  intros frame1 frame2 st.
  assert (C : prev_detection_count st = 2) by (vm_compute; reflexivity).
  assert (H : prev_detections st = [(11, 18); (11, 18)]) by (vm_compute; reflexivity).
  assert (G : fst (stage_spans frame2 st) = ((12, 19), (12, 19), (11, 18)))
    by (vm_compute; reflexivity).
  split; [exact C|]. split; [exact H|]. split; [exact G|].
  clear G. clearbody st. intros n Hn. destruct n as [|k]; [lia|].
  destruct (feed_identical_full st 11 18 11 18 12 19 k C H) as (E & _); try lia.
  rewrite E. f_equal.
  - assert (F : forall j, Nat.iter j (smooth_step 12) (11, 11) = (11, 11)).
    { induction j as [|j IH]; [reflexivity|].
      change (Nat.iter (S j) (smooth_step 12) (11, 11))
        with (smooth_step 12 (Nat.iter j (smooth_step 12) (11, 11))).
      rewrite IH. reflexivity. }
    rewrite F. reflexivity.
  - assert (F : forall j, Nat.iter j (smooth_step 19) (18, 18) = (18, 18)).
    { induction j as [|j IH]; [reflexivity|].
      change (Nat.iter (S j) (smooth_step 19) (18, 18))
        with (smooth_step 19 (Nat.iter j (smooth_step 19) (18, 18))).
      rewrite IH. reflexivity. }
    rewrite F. reflexivity.
Qed.

End Persistence.

(* ================================================================== *)
(** ** Temporal-continuity clamp *)
(* ================================================================== *)

Section Temporal.

Import Detect.

Lemma apply_temporal_empty st s :
  prev_detection_count st = 0 -> apply_temporal_constraints st s = s.
Proof. intros Hc. unfold apply_temporal_constraints. rewrite Hc. reflexivity. Qed.

Lemma apply_temporal_unfold st l r pl pr :
  prev_detection_count st <> 0 ->
  slot (prev_detections st) 0 = (pl, pr) ->
  apply_temporal_constraints st (l, r)
  = let pw := pr - pl + 1 in
    let cw := r - l + 1 in
    let s1 := if grew_too_much pw cw
              then (l + (cw - upper_target pw) ÷ 2, r - (cw - upper_target pw) ÷ 2)
              else (l, r) in
    let s2 := if shrank_too_much pw cw
              then (fst s1 - (lower_target pw - cw) ÷ 2,
                    snd s1 + (lower_target pw - cw) ÷ 2)
              else s1 in
    clamp_span s2.
Proof.
  intros Hc Hs. unfold apply_temporal_constraints.
  destruct (Z.eqb_spec (prev_detection_count st) 0) as [|_]; [contradiction|].
  rewrite Hs. cbv zeta.
  fold (max_change (pr - pl + 1)).
  fold (grew_too_much (pr - pl + 1) (r - l + 1)).
  fold (shrank_too_much (pr - pl + 1) (r - l + 1)).
  fold (upper_target (pr - pl + 1)). fold (lower_target (pr - pl + 1)).
  destruct (grew_too_much _ _), (shrank_too_much _ _); reflexivity.
Qed.

(** The float decisions, for every pair of widths that fits the sensor. *)
Lemma temporal_case_table :
  forallb (fun pw => forallb (temporal_case pw) (seqZ 1 32)) (seqZ 1 32) = true.
Proof. vm_compute. reflexivity. Qed.

Lemma slack_case_table :
  forallb (fun pw => forallb (slack_case pw) (seqZ 1 32)) (seqZ 1 32) = true.
Proof. vm_compute. reflexivity. Qed.

Lemma upper_target_table :
  forallb (fun pw => pw <=? upper_target pw) (seqZ 1 32) = true.
Proof. vm_compute. reflexivity. Qed.

(** The conversions to [int] of the clamp are defined in C. *)
Lemma temporal_targets_defined :
  forallb (fun pw => cast_defined (fadd (of_int pw) (max_change pw))
                     && cast_defined (fsub (of_int pw) (max_change pw)))
          (seqZ 1 32) = true.
Proof. vm_compute. reflexivity. Qed.

Lemma upper_target_spec pw : 1 <= pw <= 32 -> pw <= upper_target pw.
Proof.
  intros Hp. apply Z.leb_le.
  exact (forallb_seqZ _ _ _ upper_target_table pw ltac:(lia)).
Qed.

Lemma temporal_case_spec pw cw :
  1 <= pw <= 32 -> 1 <= cw <= 32 -> temporal_case pw cw = true.
Proof.
  intros Hp Hc.
  pose proof (forallb_seqZ _ _ _ temporal_case_table pw ltac:(lia)) as T.
  cbn beta in T. exact (forallb_seqZ _ _ _ T cw ltac:(lia)).
Qed.

Lemma slack_case_spec pw w :
  1 <= pw <= 32 -> 1 <= w <= 32 -> slack_case pw w = true.
Proof.
  intros Hp Hc.
  pose proof (forallb_seqZ _ _ _ slack_case_table pw ltac:(lia)) as T.
  cbn beta in T. exact (forallb_seqZ _ _ _ T w ltac:(lia)).
Qed.

(** C3, the claim as worded fails: with the single stored detection
    (13, 18), of width 6, the clamp turns the span (11, 20), of width 10,
    into (12, 19), of width 8; the change of 2 exceeds
    [6 * max_width_change_ratio], which is about 1.8. *)
Lemma temporal_clamp_bound_counterexample :
  let st := with_history temporal_state_init [(13, 18); (0, 0)] 1 in
  prev_detection_count st = 1
  /\ most_recent st = (13, 18)
  /\ apply_temporal_constraints st (11, 20) = (12, 19)
  /\ width_change_bounded st (11, 20) = false.
Proof. vm_compute. repeat split. Qed.

(** The call of the counterexample is the one the pipeline makes on the
    second of two frames showing a hot band over the columns 13..18 and
    then over the columns 11..20. *)
Lemma temporal_clamp_counterexample_reached :
  let frame1 := frame_of_columns (band 13 18 100) in
  let frame2 := frame_of_columns (band 11 20 100) in
  let st1 := process_frames [frame1] in
  let smoothed := fst (smoothed_profile frame2 st1) in
  let grown := grow_region smoothed (calculate_median smoothed WIDTH)
                           (calculate_mad smoothed WIDTH) in
  prev_detections st1 = [(13, 18); (0, 0)]
  /\ prev_detection_count st1 = 1
  /\ flt (calculate_mad smoothed WIDTH) (mad_uniform_threshold config) = false
  /\ apply_geometry_constraints grown = (11, 20)
  /\ tyre_width (snd (fst (detect_tyre frame2 tyre_zero st1))) = 8.
Proof. vm_compute. repeat split. Qed.

(** Once both history slots are filled the clamp still compares with slot
    0, which is then the older of the two stored detections. *)
Lemma temporal_clamp_uses_slot0 :
  let st := with_history temporal_state_init [(13, 18); (11, 20)] 2 in
  most_recent st = (11, 20)
  /\ apply_temporal_constraints st (11, 20) = (12, 19).
Proof. vm_compute. split; reflexivity. Qed.

(** The three cases of the clamp on ordered spans of the sensor: the span
    is shrunk by [(cw - upper_target) / 2] columns at each end, or widened
    by [(lower_target - cw) / 2] columns at each end and cut at the sensor
    edges, or left alone. *)
Lemma temporal_clamp_cases (st : TemporalState) (l r pl pr : Z) :
  prev_detection_count st <> 0 ->
  slot (prev_detections st) 0 = (pl, pr) ->
  span_ok (pl, pr) -> span_ok (l, r) ->
  let pw := pr - pl + 1 in
  let cw := r - l + 1 in
  let s' := apply_temporal_constraints st (l, r) in
  (grew_too_much pw cw = true /\ shrank_too_much pw cw = false
   /\ pw <= upper_target pw < cw
   /\ s' = (l + (cw - upper_target pw) ÷ 2, r - (cw - upper_target pw) ÷ 2))
  \/ (grew_too_much pw cw = false /\ shrank_too_much pw cw = true
      /\ cw <= lower_target pw <= pw
      /\ s' = clamp_span (l - (lower_target pw - cw) ÷ 2,
                          r + (lower_target pw - cw) ÷ 2))
  \/ (grew_too_much pw cw = false /\ shrank_too_much pw cw = false
      /\ s' = (l, r)).
Proof.
  intros Hc Hs Hp Hsp pw cw s'.
  unfold span_ok in Hp, Hsp. cbn [fst snd] in Hp, Hsp.
  change SENSOR_WIDTH with 32 in *.
  assert (Hpw : 1 <= pw <= 32) by (subst pw; lia).
  assert (Hcw : 1 <= cw <= 32) by (subst cw; lia).
  pose proof (temporal_case_spec pw cw Hpw Hcw) as T.
  unfold temporal_case in T. apply andb_prop in T as [Tg Ts].
  subst s'. rewrite (apply_temporal_unfold st l r pl pr Hc Hs).
  cbv zeta. fold pw cw.
  destruct (grew_too_much pw cw) eqn:Hg.
  - apply andb_prop in Tg as [Tg Tns]. apply andb_prop in Tg as [T1 T2].
    apply negb_true_iff in Tns. rewrite Tns.
    apply Z.leb_le in T1. apply Z.ltb_lt in T2.
    left. split; [reflexivity|]. split; [reflexivity|]. split; [lia|].
    assert (Hsh : 0 <= (cw - upper_target pw) ÷ 2 <= cw - upper_target pw) by zlia.
    unfold clamp_span. change SENSOR_WIDTH with 32.
    destruct (Z.ltb_spec (l + (cw - upper_target pw) ÷ 2) 0); [lia|].
    destruct (Z.geb_spec (r - (cw - upper_target pw) ÷ 2) 32); [lia|].
    reflexivity.
  - destruct (shrank_too_much pw cw) eqn:Hsk.
    + apply andb_prop in Ts as [T1 T2]. apply Z.leb_le in T1. apply Z.leb_le in T2.
      right. left. cbn [fst snd]. repeat split; lia.
    + right. right. split; [reflexivity|]. split; [reflexivity|].
      unfold clamp_span. change SENSOR_WIDTH with 32.
      destruct (Z.ltb_spec l 0); [lia|]. destruct (Z.geb_spec r 32); [lia|].
      reflexivity.
Qed.

(** C3, amended: with a non-empty history whose slot 0 holds an ordered
    span of the sensor, of width [pw], the clamp of an ordered span of
    width [cw] yields an ordered span of the sensor of width [w'] with
    [w' - pw <= max_change + 1].  When [cw > pw + max_change] the width
    becomes the truncated bound [upper_target pw] or one column more;
    when [cw < pw - max_change] the span is widened, never beyond the
    truncated bound [lower_target pw], and unless an end is cut at the
    sensor edge it reaches that bound or one column less; otherwise the
    span is unchanged. *)
Theorem temporal_clamp_amended (st : TemporalState) (l r pl pr : Z) :
  prev_detection_count st <> 0 ->
  slot (prev_detections st) 0 = (pl, pr) ->
  span_ok (pl, pr) -> span_ok (l, r) ->
  let pw := pr - pl + 1 in
  let cw := r - l + 1 in
  let s' := apply_temporal_constraints st (l, r) in
  let w' := span_width s' in
  span_ok s'
  /\ fle (of_int (w' - pw)) (fadd (max_change pw) (of_int 1)) = true
  /\ (grew_too_much pw cw = true ->
        upper_target pw <= w' <= upper_target pw + 1 /\ w' <= cw)
  /\ (shrank_too_much pw cw = true ->
        cw <= w' <= lower_target pw
        /\ (0 <= l - (lower_target pw - cw) ÷ 2 ->
            r + (lower_target pw - cw) ÷ 2 < SENSOR_WIDTH ->
            lower_target pw - 1 <= w'))
  /\ (grew_too_much pw cw = false -> shrank_too_much pw cw = false -> s' = (l, r)).
Proof.
  intros Hc Hs Hp Hsp pw cw s' w'.
  pose proof (temporal_clamp_cases st l r pl pr Hc Hs Hp Hsp) as Hcases.
  cbv zeta in Hcases. fold pw cw s' in Hcases.
  unfold span_ok in Hp, Hsp |- *. cbn [fst snd] in Hp, Hsp.
  change SENSOR_WIDTH with 32 in *.
  assert (Hpw : 1 <= pw <= 32) by (subst pw; lia).
  assert (Hcw : 1 <= cw <= 32) by (subst cw; lia).
  pose proof (upper_target_spec pw Hpw) as Hut.
  subst w'. unfold span_width.
  destruct Hcases as [(Hg & Hk & Ht & ->) | [(Hg & Hk & Ht & ->) | (Hg & Hk & ->)]];
    rewrite Hg, Hk.
  - set (ut := upper_target pw) in *. cbn [fst snd].
    assert (Hsh : 0 <= (cw - ut) ÷ 2
                  /\ cw - ut - 1 <= 2 * ((cw - ut) ÷ 2) <= cw - ut) by zlia.
    assert (Hw : ut <= r - (cw - ut) ÷ 2 - (l + (cw - ut) ÷ 2) + 1 <= ut + 1)
      by (subst cw; lia).
    split; [lia|]. split.
    + pose proof (slack_case_spec pw (r - (cw - ut) ÷ 2 - (l + (cw - ut) ÷ 2) + 1)
                    Hpw ltac:(lia)) as S.
      unfold slack_case in S. fold ut in S.
      destruct (Z.leb_spec (r - (cw - ut) ÷ 2 - (l + (cw - ut) ÷ 2) + 1) (ut + 1));
        [exact S | lia].
    + split; [intros _; subst cw; lia|]. split; intros; discriminate.
  - set (lt := lower_target pw) in *.
    assert (Hex : 0 <= (lt - cw) ÷ 2
                  /\ lt - cw - 1 <= 2 * ((lt - cw) ÷ 2) <= lt - cw) by zlia.
    unfold clamp_span. change SENSOR_WIDTH with 32.
    destruct (Z.ltb_spec (l - (lt - cw) ÷ 2) 0);
      destruct (Z.geb_spec (r + (lt - cw) ÷ 2) 32); cbn [fst snd].
    all: split; [subst cw; lia|].
    all: split;
      [ match goal with
        | Hq : 1 <= ?p <= 32 |- fle (of_int (?w - ?p)) _ = true =>
          pose proof (slack_case_spec p w Hq ltac:(subst cw; lia)) as S;
          unfold slack_case in S;
          destruct (Z.leb_spec w (upper_target p + 1)); [exact S | subst cw; lia]
        end |].
    all: split; [intros; discriminate|].
    all: split; [intros _; subst cw; lia | intros; discriminate].
  - cbn [fst snd]. split; [lia|]. split.
    + pose proof (slack_case_spec pw cw Hpw Hcw) as S. unfold slack_case in S.
      rewrite Hg in S. rewrite orb_true_r in S. exact S.
    + split; [intros; discriminate|]. split; [intros; discriminate | reflexivity].
Qed.

Lemma temporal_clamp_amended_witness :
  span_ok (apply_temporal_constraints
             (with_history temporal_state_init [(13, 18); (0, 0)] 1) (11, 20)).
Proof.
  assert (Hc : prev_detection_count
                 (with_history temporal_state_init [(13, 18); (0, 0)] 1) <> 0)
    by (cbn; lia).
  assert (H1 : span_ok (13, 18)) by (unfold span_ok, SENSOR_WIDTH; cbn; lia).
  assert (H2 : span_ok (11, 20)) by (unfold span_ok, SENSOR_WIDTH; cbn; lia).
  exact (proj1 (temporal_clamp_amended
                  (with_history temporal_state_init [(13, 18); (0, 0)] 1)
                  11 20 13 18 Hc eq_refl H1 H2)).
Defined.

End Temporal.

(* ================================================================== *)
(** ** Span and history invariants of the stabilizer *)
(* ================================================================== *)

Section Invariants.

Import Detect.

Lemma hist_ok_init : hist_ok temporal_state_init.
Proof.
  unfold hist_ok. cbn [temporal_state_init prev_detections prev_detection_count length].
  split; [reflexivity|]. split; [lia|].
  intros [|[|[|i]]]; unfold span_ok, SENSOR_WIDTH; cbn; lia.
Qed.

Lemma slot_insert_eq (h : list (Z * Z)) (i : nat) (s : Z * Z) :
  (i < length h)%nat -> slot (<[i := s]> h) i = s.
Proof.
  intros H. unfold slot. rewrite nth_lookup, list_lookup_insert_eq by exact H.
  reflexivity.
Qed.

Lemma slot_insert_ne (h : list (Z * Z)) (i j : nat) (s : Z * Z) :
  i <> j -> slot (<[i := s]> h) j = slot h j.
Proof.
  intros H. unfold slot. rewrite !nth_lookup, list_lookup_insert_ne by exact H.
  reflexivity.
Qed.

Lemma slots_ok_insert (h : list (Z * Z)) (k : nat) (s : Z * Z) :
  (forall i, span_ok (slot h i)) -> span_ok s ->
  forall i, span_ok (slot (<[k := s]> h) i).
Proof.
  intros Hh Hs i. destruct (Nat.eq_dec k i) as [-> | Hne].
  - destruct (Nat.lt_ge_cases i (length h)) as [Hlt | Hge].
    + rewrite slot_insert_eq by exact Hlt. exact Hs.
    + rewrite list_insert_ge by exact Hge. apply Hh.
  - rewrite slot_insert_ne by exact Hne. apply Hh.
Qed.

Lemma temporal_span_ok (st : TemporalState) (s : Z * Z) :
  hist_ok st -> span_ok s -> span_ok (apply_temporal_constraints st s).
Proof.
  intros (Hlen & Hcnt & Hslots) Hs.
  destruct (Z.eq_dec (prev_detection_count st) 0) as [Hz | Hnz].
  - rewrite apply_temporal_empty by exact Hz. exact Hs.
  - destruct s as [l r].
    destruct (slot (prev_detections st) 0) as [pl pr] eqn:Hslot.
    assert (Hp : span_ok (pl, pr)) by (rewrite <- Hslot; apply Hslots).
    pose proof (temporal_clamp_cases st l r pl pr Hnz Hslot Hp Hs) as Hcases.
    cbv zeta in Hcases. unfold span_ok in Hp, Hs |- *.
    cbn [fst snd] in Hp, Hs. change SENSOR_WIDTH with 32 in *.
    destruct Hcases as [(_ & _ & Ht & ->) | [(_ & _ & Ht & ->) | (_ & _ & ->)]].
    + cbn [fst snd]. zlia.
    + unfold clamp_span. change SENSOR_WIDTH with 32.
      assert (Hex : 0 <= (lower_target (pr - pl + 1) - (r - l + 1)) ÷ 2) by zlia.
      destruct (Z.ltb_spec (l - (lower_target (pr - pl + 1) - (r - l + 1)) ÷ 2) 0);
        destruct (Z.geb_spec (r + (lower_target (pr - pl + 1) - (r - l + 1)) ÷ 2) 32);
        cbn [fst snd]; lia.
    + cbn [fst snd]. lia.
Qed.

Lemma weighted_avg_span_ok a0 b0 a1 b1 l r :
  span_ok (a0, b0) -> span_ok (a1, b1) -> span_ok (l, r) ->
  span_ok (weighted_avg a0 a1 l, weighted_avg b0 b1 r).
Proof.
  unfold span_ok. cbn [fst snd]. change SENSOR_WIDTH with 32.
  intros H0 H1 H. rewrite !weighted_avg_spec by lia. zlia.
Qed.

Lemma persistence_span_ok (st : TemporalState) (s : Z * Z) :
  hist_ok st -> span_ok s ->
  span_ok (fst (apply_persistence st s)) /\ hist_ok (snd (apply_persistence st s)).
Proof.
  intros (Hlen & Hcnt & Hslots) Hs.
  assert (Hcases : prev_detection_count st = 0 \/ prev_detection_count st = 1
                   \/ prev_detection_count st = 2) by lia.
  destruct Hcases as [Hc | [Hc | Hc]].
  - rewrite apply_persistence_first by exact Hc. cbn [fst snd].
    split; [exact Hs|]. unfold hist_ok, with_history.
    cbn [prev_detections prev_detection_count].
    rewrite length_insert. split; [lia|]. split; [lia|].
    apply slots_ok_insert; assumption.
  - rewrite apply_persistence_second by exact Hc. cbn [fst snd].
    split; [exact Hs|]. unfold hist_ok, with_history.
    cbn [prev_detections prev_detection_count].
    rewrite length_insert. split; [lia|]. split; [lia|].
    apply slots_ok_insert; assumption.
  - destruct (prev_detections st) as [|[a0 b0] [|[a1 b1] [|]]] eqn:Hh;
      try discriminate.
    destruct s as [l r].
    rewrite (apply_persistence_full st a0 b0 a1 b1 l r Hc Hh). cbn [fst snd].
    pose proof (Hslots 0%nat) as H0. pose proof (Hslots 1%nat) as H1.
    change (span_ok (a0, b0)) in H0. change (span_ok (a1, b1)) in H1.
    pose proof (weighted_avg_span_ok a0 b0 a1 b1 l r H0 H1 Hs) as Hw.
    split; [exact Hw|]. unfold hist_ok, with_history.
    cbn [prev_detections prev_detection_count length].
    split; [lia|]. split; [lia|].
    intros [|[|i]]; [exact H1 | exact Hw |].
    apply (Hslots (S (S i))).
Qed.

Lemma apply_ema_history current output0 n st :
  prev_detections (snd (apply_ema current output0 n st)) = prev_detections st
  /\ prev_detection_count (snd (apply_ema current output0 n st))
     = prev_detection_count st.
Proof.
  unfold apply_ema. destruct (negb (has_previous st)); [split; reflexivity|].
  destruct (fold_left _ _ _) as [output prev]. split; reflexivity.
Qed.

Lemma smoothed_profile_hist_ok frame st :
  hist_ok st -> hist_ok (snd (smoothed_profile frame st)).
Proof.
  unfold smoothed_profile, hist_ok. intros H.
  destruct (apply_ema_history
              (median_filter_3 (column_profile (extract_middle_rows frame)) WIDTH)
              (replicate WIDTH zero) WIDTH st) as [-> ->].
  exact H.
Qed.

Lemma stage_spans_ok frame st :
  hist_ok st ->
  let '(s1, s2, s3, st2) := stage_spans frame st in
  span_ok s1 /\ span_ok s2 /\ span_ok s3 /\ hist_ok st2.
Proof.
  intros H. unfold stage_spans.
  pose proof (smoothed_profile_hist_ok frame st H) as H1.
  destruct (smoothed_profile frame st) as [smoothed st1]. cbn [snd] in H1.
  pose proof (grow_region_span_ok smoothed (calculate_median smoothed WIDTH)
                                  (calculate_mad smoothed WIDTH)) as G0.
  pose proof (geometry_span_ok _ G0) as G1.
  pose proof (temporal_span_ok st1 _ H1 G1) as G2.
  pose proof (persistence_span_ok st1 _ H1 G2) as [G3 H2].
  destruct (apply_persistence st1 _) as [s3 st2]. cbn [fst snd] in G3, H2.
  auto.
Qed.

Lemma detect_tyre_stages frame result st :
  let '(s1, s2, s3, st2) := stage_spans frame st in
  let out := detect_tyre frame result st in
  (detected (snd (fst out)) = 1 ->
     span_start (snd (fst out)) = fst s3
     /\ span_end (snd (fst out)) = snd s3
     /\ tyre_width (snd (fst out)) = span_width s3
     /\ snd out = st2)
  /\ (detected (snd (fst out)) <> 1 ->
        snd out = snd (smoothed_profile frame st)).
Proof.
  unfold stage_spans, detect_tyre, stabilize.
  destruct (smoothed_profile frame st) as [smoothed st1].
  destruct (apply_persistence st1 _) as [[l r] st2] eqn:Hp.
  cbv zeta.
  destruct (flt (calculate_mad smoothed WIDTH) (mad_uniform_threshold config)).
  - cbn [fst snd detected]. split; [intros; discriminate | reflexivity].
  - cbn [fst snd]. unfold analyze_tyre. cbn [detected span_start span_end tyre_width].
    split; [| intros Hne; exfalso; apply Hne; reflexivity].
    intros _. repeat split.
Qed.

Lemma detect_tyre_hist_ok frame result st :
  hist_ok st -> hist_ok (snd (detect_tyre frame result st)).
Proof.
  intros H. pose proof (stage_spans_ok frame st H) as Hs.
  pose proof (detect_tyre_stages frame result st) as Hd.
  destruct (stage_spans frame st) as [[[s1 s2] s3] st2].
  cbv zeta in Hd. destruct Hd as [Hdet Hno].
  destruct (Z.eq_dec (detected (snd (fst (detect_tyre frame result st)))) 1)
    as [He | Hne].
  - destruct (Hdet He) as (_ & _ & _ & ->). apply Hs.
  - rewrite (Hno Hne). apply smoothed_profile_hist_ok. exact H.
Qed.

Lemma process_frames_hist_ok (frames : list (list float)) :
  hist_ok (process_frames frames).
Proof.
  unfold process_frames. generalize hist_ok_init.
  generalize temporal_state_init as st. induction frames as [|f frames IH];
    intros st H; cbn [fold_left]; [exact H|].
  apply IH. apply detect_tyre_hist_ok. exact H.
Qed.

(** C10: in any state the driver loop can reach, both history slots hold
    ordered spans of the sensor; the spans the next frame has after
    the geometry clamp, after the temporal-continuity clamp and after
    persistence smoothing all satisfy [0 <= left <= right <= 31], and so
    does the history afterwards; and a result with [detected = 1] reports
    the span after persistence, whose width is at least 1. *)
Theorem stabilizer_spans_in_range
        (frames : list (list float)) (frame : list float) (result : TyreData) :
  let st := process_frames frames in
  let '(s1, s2, s3, st2) := stage_spans frame st in
  let out := detect_tyre frame result st in
  hist_ok st
  /\ span_ok s1 /\ span_ok s2 /\ span_ok s3
  /\ hist_ok (snd out)
  /\ (detected (snd (fst out)) = 1 ->
        (span_start (snd (fst out)), span_end (snd (fst out))) = s3
        /\ tyre_width (snd (fst out)) = span_width s3
        /\ 1 <= tyre_width (snd (fst out))).
Proof.
  intros st.
  pose proof (process_frames_hist_ok frames) as H. fold st in H.
  pose proof (stage_spans_ok frame st H) as Hs.
  pose proof (detect_tyre_stages frame result st) as Hd.
  pose proof (detect_tyre_hist_ok frame result st H) as Ho.
  destruct (stage_spans frame st) as [[[s1 s2] s3] st2].
  cbv zeta in Hd |- *. destruct Hs as (G1 & G2 & G3 & H2).
  destruct Hd as [Hdet _].
  split; [exact H|]. split; [exact G1|]. split; [exact G2|].
  split; [exact G3|]. split; [exact Ho|].
  intros Hone. destruct (Hdet Hone) as (E1 & E2 & E3 & _).
  split; [rewrite E1, E2; destruct s3; reflexivity|].
  split; [exact E3|].
  rewrite E3. unfold span_width. destruct G3 as [G3 _]. lia.
Qed.

End Invariants.

(* ================================================================== *)
(** ** The no-detection branch *)
(* ================================================================== *)

Section NoDetection.

Import Detect.

(** The three zones of the no-detection branch gather 40, 40 and 48
    pixels: 10, 10 and 12 columns of the 4 middle rows. *)
Lemma fallback_zone_sizes (frame : list float) :
  length (zone_pixels frame 0 9) = 40%nat
  /\ length (zone_pixels frame 10 19) = 40%nat
  /\ length (zone_pixels frame 20 31) = 48%nat.
Proof. repeat split. Qed.

(** The all-zero frame and a frame at a constant 25 degrees are both
    rejected by the uniformity gate: their [mad_global] is 0. *)
Lemma constant_frames_are_uniform :
  calculate_mad (fst (smoothed_profile (frame_of_columns (fun _ => 0))
                                       temporal_state_init)) WIDTH = zero
  /\ calculate_mad (fst (smoothed_profile (frame_of_columns (fun _ => 25))
                                          temporal_state_init)) WIDTH = zero
  /\ flt zero (mad_uniform_threshold config) = true.
Proof. vm_compute. repeat split. Qed.

(** C1, the claim as worded fails: on the frame that is 25 degrees
    everywhere, processed first with a zeroed result record, the gate
    rejects the frame and the result has [detected = 0] and confidence 0,
    but the reported span is (0, 0) with width 0, not the sensor width,
    and the three zones are not equal: the outer one has 12 columns. *)
Lemma uniform_frame_span_counterexample :
  let frame := frame_of_columns (fun _ => 25) in
  let smoothed := fst (smoothed_profile frame temporal_state_init) in
  let d := snd (fst (detect_tyre frame tyre_zero temporal_state_init)) in
  flt (calculate_mad smoothed WIDTH) (mad_uniform_threshold config) = true
  /\ detected d = 0
  /\ confidence d = zero
  /\ (span_start d, span_end d) = (0, 0)
  /\ (span_start d, span_end d) <> (0, SENSOR_WIDTH - 1)
  /\ tyre_width d = 0
  /\ right d = calculate_zone_stats frame 20 31
  /\ length (zone_pixels frame 0 9) <> length (zone_pixels frame 20 31).
Proof. vm_compute. repeat split; discriminate. Qed.

(** C1, amended: when [mad_global < mad_uniform_threshold] the pipeline
    returns 0 with [detected = 0], confidence 0, gradient 0 and
    [tyre_width = 0]; [span_start] and [span_end] keep the values of the
    caller's record; the zone statistics are computed from the raw frame
    over the columns 0..9, 10..19 and 20..31; the state is the one the
    temporal filter left, with the detection history untouched. *)
Theorem uniform_frame_no_detection
        (frame : list float) (result : TyreData) (st : TemporalState) :
  let sp := smoothed_profile frame st in
  flt (calculate_mad (fst sp) WIDTH) (mad_uniform_threshold config) = true ->
  detect_tyre frame result st
  = (0,
     {| left := calculate_zone_stats frame 0 9;
        centre := calculate_zone_stats frame 10 19;
        right := calculate_zone_stats frame 20 31;
        detected := 0;
        span_start := span_start result;
        span_end := span_end result;
        tyre_width := 0;
        confidence := zero;
        lateral_gradient := zero |},
     snd sp)
  /\ prev_detections (snd sp) = prev_detections st
  /\ prev_detection_count (snd sp) = prev_detection_count st
  /\ length (zone_pixels frame 0 9) = 40%nat
  /\ length (zone_pixels frame 10 19) = 40%nat
  /\ length (zone_pixels frame 20 31) = 48%nat.
Proof.
  intros sp Hgate. split.
  - unfold detect_tyre. subst sp.
    destruct (smoothed_profile frame st) as [smoothed st1].
    cbn [fst snd] in Hgate |- *. rewrite Hgate. reflexivity.
  - subst sp. unfold smoothed_profile.
    destruct (apply_ema_history
                (median_filter_3 (column_profile (extract_middle_rows frame)) WIDTH)
                (replicate WIDTH zero) WIDTH st) as [-> ->].
    split; [reflexivity|]. split; [reflexivity|]. apply fallback_zone_sizes.
Qed.

Lemma uniform_frame_no_detection_witness :
  fst (fst (detect_tyre (frame_of_columns (fun _ => 25)) tyre_zero
                        temporal_state_init)) = 0.
Proof.
  pose proof (uniform_frame_no_detection (frame_of_columns (fun _ => 25)) tyre_zero
                temporal_state_init) as H.
  cbv zeta in H. rewrite (proj1 (H ltac:(vm_compute; reflexivity))).
  reflexivity.
Defined.

(** The earlier algorithm does report the full width when it detects
    nothing. *)
Lemma detect_tyre_span_not_detected
      (profile : list float) (cfg : Thermal.ThermalConfig) :
  Thermal.detected (Thermal.detect_tyre_span profile cfg) = false ->
  Thermal.span_start (Thermal.detect_tyre_span profile cfg) = 0
  /\ Thermal.span_end (Thermal.detect_tyre_span profile cfg) = 31
  /\ Thermal.tyre_width (Thermal.detect_tyre_span profile cfg) = 32
  /\ Thermal.confidence (Thermal.detect_tyre_span profile cfg) = zero.
Proof.
  unfold Thermal.detect_tyre_span.
  destruct (Thermal.fast_median _ _) as [profile_median sorted].
  cbv zeta.
  match goal with |- context [if ?c then _ else _] => destruct c end.
  - cbn. discriminate.
  - cbn. intros _. repeat split.
Qed.

End NoDetection.

(* ================================================================== *)
(** ** Order of binary32 values and the two lateral gradients *)
(* ================================================================== *)

Section FloatOrder.

Lemma digits2_pos_bounds (m : positive) :
  2 ^ (Zpos (digits2_pos m) - 1) <= Zpos m < 2 ^ Zpos (digits2_pos m).
Proof.
  induction m as [m IH | m IH |]; cbn [digits2_pos].
  - rewrite Pos2Z.inj_succ. replace (Z.succ (Zpos (digits2_pos m)) - 1)
      with (Z.succ (Zpos (digits2_pos m) - 1)) by lia.
    rewrite !Z.pow_succ_r by lia. lia.
  - rewrite Pos2Z.inj_succ. replace (Z.succ (Zpos (digits2_pos m)) - 1)
      with (Z.succ (Zpos (digits2_pos m) - 1)) by lia.
    rewrite !Z.pow_succ_r by lia. lia.
  - cbn. lia.
Qed.

Lemma bounded_bounds (m : positive) (e : Z) :
  bounded prec emax m e = true ->
  -149 <= e <= 104 /\ Zpos m < 2 ^ 24 /\ (-149 < e -> 2 ^ 23 <= Zpos m).
Proof.
  unfold bounded, canonical_mantissa, fexp, emin, prec, emax.
  intros [Hc He]%andb_prop. apply Z.eqb_eq in Hc. apply Z.leb_le in He.
  pose proof (digits2_pos_bounds m) as [Hlo Hhi].
  set (d := Zpos (digits2_pos m)) in *.
  assert (Hd : 1 <= d) by (subst d; lia).
  split; [lia|]. split.
  - assert (d <= 24) by lia.
    apply Z.lt_le_trans with (2 ^ d); [exact Hhi|].
    apply Z.pow_le_mono_r; lia.
  - intros Hn. assert (d = 24) as Hd24 by lia.
    rewrite Hd24 in Hlo. exact Hlo.
Qed.

Lemma finite_key_pos (m : positive) (e : Z) :
  bounded prec emax m e = true -> 0 < Zpos m * 2 ^ (e + 149) < 2 ^ 300.
Proof.
  intros H. destruct (bounded_bounds m e H) as (He & Hm & _).
  assert (0 < 2 ^ (e + 149)) by (apply Z.pow_pos_nonneg; lia).
  split; [lia|].
  apply Z.lt_le_trans with (2 ^ 24 * 2 ^ (e + 149)).
  - apply Z.mul_lt_mono_pos_r; lia.
  - rewrite <- Z.pow_add_r by lia. apply Z.pow_le_mono_r; lia.
Qed.

Lemma finite_key_compare (m1 m2 : positive) (e1 e2 : Z) :
  bounded prec emax m1 e1 = true -> bounded prec emax m2 e2 = true ->
  match e1 ?= e2 with
  | Lt => Lt
  | Gt => Gt
  | Eq => Pos.compare_cont Eq m1 m2
  end = (Zpos m1 * 2 ^ (e1 + 149) ?= Zpos m2 * 2 ^ (e2 + 149)).
Proof.
  intros H1 H2.
  destruct (bounded_bounds m1 e1 H1) as (He1 & Hm1 & Hn1).
  destruct (bounded_bounds m2 e2 H2) as (He2 & Hm2 & Hn2).
  change (2 ^ 24) with 16777216 in *. change (2 ^ 23) with 8388608 in *.
  destruct (Z.compare_spec e1 e2) as [-> | Hlt | Hgt]; symmetry.
  - change (Pos.compare_cont Eq m1 m2) with (Zpos m1 ?= Zpos m2).
    symmetry. apply Zmult_compare_compat_r. apply Z.lt_gt, Z.pow_pos_nonneg; lia.
  - apply Z.compare_lt_iff.
    replace (e2 + 149) with ((e1 + 149) + (e2 - e1)) by lia.
    rewrite (Z.pow_add_r 2 (e1 + 149) (e2 - e1)) by lia.
    assert (0 < 2 ^ (e1 + 149)) by (apply Z.pow_pos_nonneg; lia).
    assert (2 ^ 1 <= 2 ^ (e2 - e1)) by (apply Z.pow_le_mono_r; lia).
    change (2 ^ 1) with 2 in *.
    specialize (Hn2 ltac:(lia)).
    set (P := 2 ^ (e1 + 149)) in *. set (Q := 2 ^ (e2 - e1)) in *.
    assert (Zpos m1 * P < 16777216 * P) by (apply Z.mul_lt_mono_pos_r; lia).
    assert (P * 2 <= P * Q) by (apply Z.mul_le_mono_nonneg_l; lia).
    assert (8388608 * (P * Q) <= Zpos m2 * (P * Q))
      by (apply Z.mul_le_mono_nonneg_r; lia).
    lia.
  - apply Z.compare_gt_iff.
    replace (e1 + 149) with ((e2 + 149) + (e1 - e2)) by lia.
    rewrite (Z.pow_add_r 2 (e2 + 149) (e1 - e2)) by lia.
    assert (0 < 2 ^ (e2 + 149)) by (apply Z.pow_pos_nonneg; lia).
    assert (2 ^ 1 <= 2 ^ (e1 - e2)) by (apply Z.pow_le_mono_r; lia).
    change (2 ^ 1) with 2 in *.
    specialize (Hn1 ltac:(lia)).
    set (P := 2 ^ (e2 + 149)) in *. set (Q := 2 ^ (e1 - e2)) in *.
    assert (Zpos m2 * P < 16777216 * P) by (apply Z.mul_lt_mono_pos_r; lia).
    assert (P * 2 <= P * Q) by (apply Z.mul_le_mono_nonneg_l; lia).
    assert (8388608 * (P * Q) <= Zpos m1 * (P * Q))
      by (apply Z.mul_le_mono_nonneg_r; lia).
    lia.
Qed.

Lemma compare_key (x y : float) :
  valid x = true -> valid y = true -> isnan x = false -> isnan y = false ->
  SFcompare x y = Some (key x ?= key y).
Proof.
  unfold valid.
  destruct x as [sx|sx| |sx mx ex], y as [sy|sy| |sy my ey];
    cbn [valid_binary isnan SFcompare key]; intros Vx Vy Nx Ny;
    try discriminate.
  - reflexivity.
  - destruct sy; reflexivity.
  - pose proof (finite_key_pos my ey Vy). destruct sy; cbn [cond_Zopp];
      f_equal; symmetry; [apply Z.compare_gt_iff | apply Z.compare_lt_iff]; lia.
  - destruct sx; reflexivity.
  - destruct sx, sy; reflexivity.
  - pose proof (finite_key_pos my ey Vy). destruct sx, sy; cbn [cond_Zopp];
      f_equal; symmetry;
      try (apply Z.compare_gt_iff; lia); try (apply Z.compare_lt_iff; lia).
  - pose proof (finite_key_pos mx ex Vx). destruct sx; cbn [cond_Zopp];
      f_equal; symmetry; [apply Z.compare_lt_iff | apply Z.compare_gt_iff]; lia.
  - pose proof (finite_key_pos mx ex Vx). destruct sx, sy; cbn [cond_Zopp];
      f_equal; symmetry;
      try (apply Z.compare_gt_iff; lia); try (apply Z.compare_lt_iff; lia).
  - pose proof (finite_key_pos mx ex Vx). pose proof (finite_key_pos my ey Vy).
    pose proof (finite_key_compare mx my ex ey Vx Vy) as Hc.
    destruct sx, sy; cbn [cond_Zopp]; f_equal.
    + rewrite Z.compare_opp.
      rewrite (Z.compare_antisym (Zpos mx * 2 ^ (ex + 149)) (Zpos my * 2 ^ (ey + 149))).
      rewrite <- Hc. destruct (ex ?= ey); reflexivity.
    + symmetry. apply Z.compare_lt_iff. lia.
    + symmetry. apply Z.compare_gt_iff. lia.
    + exact Hc.
Qed.

Lemma iter_xO_pow (m d : positive) :
  Zpos (Pos.iter xO m d) = Zpos m * 2 ^ Zpos d.
Proof.
  induction d as [|d IH] using Pos.peano_ind.
  - cbn. lia.
  - rewrite Pos.iter_succ, Pos2Z.inj_succ, Z.pow_succ_r by lia.
    rewrite Pos2Z.inj_xO, IH. lia.
Qed.

Lemma shl_align_value (m : positive) (e e' : Z) :
  e' <= e -> Zpos (fst (shl_align m e e')) = Zpos m * 2 ^ (e - e').
Proof.
  intros H. unfold shl_align.
  destruct (e' - e) as [|p|p] eqn:Hd; cbn [fst].
  - replace (e - e') with 0 by lia. cbn. lia.
  - lia.
  - rewrite iter_xO_pow. replace (e - e') with (Zpos p) by lia. reflexivity.
Qed.

(** Rounding keeps the sign it is given. *)
Lemma binary_round_aux_not_negative (m e : Z) (l : location) :
  not_negative (binary_round_aux prec emax false m e l).
Proof.
  unfold binary_round_aux, not_negative.
  destruct (shr_fexp prec emax m e l) as [mrs' e'].
  destruct (shr_fexp prec emax _ e' loc_Exact) as [mrs'' e''].
  destruct (shr_m mrs'') as [|p|p]; try reflexivity.
  destruct (e'' <=? emax - prec); reflexivity.
Qed.

Lemma binary_normalize_not_negative (z e : Z) :
  0 <= z -> not_negative (binary_normalize prec emax z e false).
Proof.
  intros Hz. destruct z as [|p|p]; cbn [binary_normalize]; [reflexivity| |lia].
  unfold binary_round. destruct (shl_align _ _ _) as [mz ez].
  apply binary_round_aux_not_negative.
Qed.

(** The difference of two binary32 values is never negative when the
    first is not below the second. *)
Lemma fsub_not_negative (x y : float) :
  valid x = true -> valid y = true -> isnan x = false -> isnan y = false ->
  key y <= key x -> not_negative (fsub x y).
Proof.
  unfold valid, not_negative, fsub.
  destruct x as [sx|sx| |sx mx ex], y as [sy|sy| |sy my ey];
    cbn [valid_binary isnan key SFsub]; intros Vx Vy Nx Ny Hk;
    try discriminate.
  all: assert (HB : 0 < 2 ^ 300) by (apply Z.pow_pos_nonneg; lia).
  all: set (B := 2 ^ 300) in *.
  all: try (pose proof (finite_key_pos mx ex Vx)).
  all: try (pose proof (finite_key_pos my ey Vy)).
  all: try (destruct sx, sy; cbn [cond_Zopp negb] in Hk |- *;
            solve [reflexivity | lia]).
  all: try (destruct sx; cbn [cond_Zopp negb] in Hk |- *; solve [reflexivity | lia]).
  all: try (destruct sy; cbn [cond_Zopp negb] in Hk |- *; solve [reflexivity | lia]).
  clear HB B.
  apply binary_normalize_not_negative.
  { destruct (bounded_bounds mx ex Vx) as (Hex & _).
    destruct (bounded_bounds my ey Vy) as (Hey & _).
    rewrite !shl_align_value by lia.
    set (ez := Z.min ex ey) in *.
    assert (Hp : 0 < 2 ^ (ez + 149)) by (apply Z.pow_pos_nonneg; lia).
    replace (ex + 149) with ((ex - ez) + (ez + 149)) in Hk by lia.
    replace (ey + 149) with ((ey - ez) + (ez + 149)) in Hk by lia.
    rewrite (Z.pow_add_r 2 (ex - ez) (ez + 149)) in Hk by lia.
    rewrite (Z.pow_add_r 2 (ey - ez) (ez + 149)) in Hk by lia.
    set (X := Zpos mx * 2 ^ (ex - ez)) in *.
    set (Y := Zpos my * 2 ^ (ey - ez)) in *.
    rewrite !Z.mul_assoc in Hk. fold X Y in Hk.
    assert (Hxy : cond_Zopp sy Y * 2 ^ (ez + 149) <= cond_Zopp sx X * 2 ^ (ez + 149)).
    { destruct sx, sy; cbn [cond_Zopp] in Hk |- *; lia. }
    apply Z.mul_le_mono_pos_r in Hxy; [lia | exact Hp]. }
Qed.

Lemma flt_key (x y : float) :
  valid x = true -> valid y = true -> flt x y = true ->
  isnan x = false /\ isnan y = false /\ key x < key y.
Proof.
  intros Vx Vy H. unfold flt, SFltb in H.
  assert (Nx : isnan x = false) by (destruct x; [reflexivity..|discriminate|reflexivity]).
  assert (Ny : isnan y = false)
    by (destruct x, y; try reflexivity; discriminate).
  rewrite (compare_key x y Vx Vy Nx Ny) in H.
  split; [exact Nx|]. split; [exact Ny|].
  apply Z.compare_lt_iff. cbv beta iota in H.
  destruct (key x ?= key y) eqn:Hc; [discriminate|exact Hc|discriminate].
Qed.

Lemma flt_nan_r (x y : float) : isnan y = true -> flt x y = false.
Proof. destruct y; try discriminate. intros _. destruct x; reflexivity. Qed.

(** Shifting and rounding keep a mantissa non-negative, so rounding with
    the positive sign never yields NaN. *)
Lemma shr_1_nonneg (mrs : shr_record) : 0 <= shr_m mrs -> 0 <= shr_m (shr_1 mrs).
Proof.
  destruct mrs as [m r s]. cbn [shr_m]. intros H.
  destruct m as [|[p|p|]|p]; cbn; lia.
Qed.

Lemma iter_shr_1_nonneg (n : positive) (mrs : shr_record) :
  0 <= shr_m mrs -> 0 <= shr_m (SpecFloat.iter_pos shr_1 n mrs).
Proof.
  revert mrs. induction n as [n IH | n IH |]; intros mrs H; cbn [SpecFloat.iter_pos].
  - apply IH, IH, shr_1_nonneg, H.
  - apply IH, IH, H.
  - apply shr_1_nonneg, H.
Qed.

Lemma shr_fexp_nonneg (m e : Z) (l : location) :
  0 <= m -> 0 <= shr_m (fst (shr_fexp prec emax m e l)).
Proof.
  intros H. unfold shr_fexp, shr.
  assert (H0 : 0 <= shr_m (shr_record_of_loc m l))
    by (destruct l as [|[]]; exact H).
  destruct (fexp prec emax (Zdigits2 m + e) - e); cbn [fst];
    [exact H0 | apply iter_shr_1_nonneg; exact H0 | exact H0].
Qed.

Lemma round_nearest_even_nonneg (m : Z) (l : location) :
  0 <= m -> 0 <= round_nearest_even m l.
Proof.
  intros H. unfold round_nearest_even.
  destruct l as [|[]]; try lia. destruct (Z.even m); lia.
Qed.

(** Rounding a non-negative mantissa with a positive sign gives [+0], a
    positive finite value or [+inf]. *)
Lemma binary_round_aux_nonneg (m e : Z) (l : location) :
  0 <= m -> fle zero (binary_round_aux prec emax false m e l) = true.
Proof.
  intros H. unfold binary_round_aux.
  pose proof (shr_fexp_nonneg m e l H) as H1.
  destruct (shr_fexp prec emax m e l) as [mrs' e']. cbn [fst] in H1.
  pose proof (shr_fexp_nonneg _ e' loc_Exact
                (round_nearest_even_nonneg _ (loc_of_shr_record mrs') H1)) as H2.
  destruct (shr_fexp prec emax _ e' loc_Exact) as [mrs'' e'']. cbn [fst] in H2.
  destruct (shr_m mrs'') as [|p|p]; [reflexivity | | lia].
  destruct (e'' <=? emax - prec); reflexivity.
Qed.

Lemma binary_normalize_nonneg (z e : Z) :
  0 <= z -> fle zero (binary_normalize prec emax z e false) = true.
Proof.
  intros Hz. destruct z as [|p|p]; cbn [binary_normalize]; [reflexivity| |lia].
  unfold binary_round. destruct (shl_align _ _ _) as [mz ez].
  apply binary_round_aux_nonneg. lia.
Qed.

Lemma fsub_finite_nonneg (x y : float) :
  valid x = true -> valid y = true -> isfinite x = true -> isfinite y = true ->
  key y <= key x -> fle zero (fsub x y) = true.
Proof.
  unfold valid, fsub.
  destruct x as [sx|sx| |sx mx ex], y as [sy|sy| |sy my ey];
    cbn [valid_binary isfinite key SFsub]; intros Vx Vy Fx Fy Hk;
    try discriminate.
  all: try (pose proof (finite_key_pos mx ex Vx)).
  all: try (pose proof (finite_key_pos my ey Vy)).
  all: try (destruct sx, sy; cbn [cond_Zopp negb] in Hk |- *;
            solve [reflexivity | lia]).
  all: try (destruct sx; cbn [cond_Zopp negb] in Hk |- *; solve [reflexivity | lia]).
  all: try (destruct sy; cbn [cond_Zopp negb] in Hk |- *; solve [reflexivity | lia]).
  apply binary_normalize_nonneg.
  destruct (bounded_bounds mx ex Vx) as (Hex & _).
  destruct (bounded_bounds my ey Vy) as (Hey & _).
  rewrite !shl_align_value by lia.
  set (ez := Z.min ex ey) in *.
  assert (Hp : 0 < 2 ^ (ez + 149)) by (apply Z.pow_pos_nonneg; lia).
  replace (ex + 149) with ((ex - ez) + (ez + 149)) in Hk by lia.
  replace (ey + 149) with ((ey - ez) + (ez + 149)) in Hk by lia.
  rewrite (Z.pow_add_r 2 (ex - ez) (ez + 149)) in Hk by lia.
  rewrite (Z.pow_add_r 2 (ey - ez) (ez + 149)) in Hk by lia.
  set (X := Zpos mx * 2 ^ (ex - ez)) in *.
  set (Y := Zpos my * 2 ^ (ey - ez)) in *.
  rewrite !Z.mul_assoc in Hk. fold X Y in Hk.
  assert (Hxy : cond_Zopp sy Y * 2 ^ (ez + 149) <= cond_Zopp sx X * 2 ^ (ez + 149)).
  { destruct sx, sy; cbn [cond_Zopp] in Hk |- *; lia. }
  apply Z.mul_le_mono_pos_r in Hxy; [lia | exact Hp].
Qed.

End FloatOrder.

Section Gradient.
Import Detect.

Lemma aget_valid (l : list float) (i : nat) : all_valid l -> valid (aget l i) = true.
Proof.
  intros H. unfold aget. destruct (nth_in_or_default i l zero) as [Hin | ->];
    [|reflexivity].
  unfold all_valid in H. rewrite Forall_forall in H. apply H.
  apply list_elem_of_In. exact Hin.
Qed.

Lemma scan_min_nan (vals : list float) (init : float) :
  isnan init = true -> scan_min vals init = init.
Proof.
  intros Hn. unfold scan_min. induction vals as [|x vals IH]; [reflexivity|].
  cbn [fold_left]. rewrite (flt_nan_r x init Hn). exact IH.
Qed.

Lemma scan_max_nan (vals : list float) (init : float) :
  isnan init = true -> scan_max vals init = init.
Proof.
  intros Hn. unfold scan_max. induction vals as [|x vals IH]; [reflexivity|].
  cbn [fold_left]. unfold fgt.
  replace (SFltb init x) with false by (destruct init; try discriminate; reflexivity).
  exact IH.
Qed.

Lemma scan_min_le (vals : list float) (init : float) :
  all_valid vals -> valid init = true -> isnan init = false ->
  valid (scan_min vals init) = true /\ isnan (scan_min vals init) = false
  /\ key (scan_min vals init) <= key init.
Proof.
  unfold scan_min. intros Hv. revert init.
  induction Hv as [|x vals Hx Hv IH]; intros init Vi Ni; cbn [fold_left].
  - repeat split; [exact Vi | exact Ni | lia].
  - destruct (flt x init) eqn:Hlt.
    + destruct (flt_key x init Hx Vi Hlt) as (Nx & _ & Hk).
      destruct (IH x Hx Nx) as (V & N & K). repeat split; [exact V | exact N | lia].
    + apply IH; assumption.
Qed.

Lemma scan_max_ge (vals : list float) (init : float) :
  all_valid vals -> valid init = true -> isnan init = false ->
  valid (scan_max vals init) = true /\ isnan (scan_max vals init) = false
  /\ key init <= key (scan_max vals init).
Proof.
  unfold scan_max. intros Hv. revert init.
  induction Hv as [|x vals Hx Hv IH]; intros init Vi Ni; cbn [fold_left].
  - repeat split; [exact Vi | exact Ni | lia].
  - destruct (fgt x init) eqn:Hgt.
    + destruct (flt_key init x Vi Hx Hgt) as (_ & Nx & Hk).
      destruct (IH x Hx Nx) as (V & N & K). repeat split; [exact V | exact N | lia].
    + apply IH; assumption.
Qed.

Lemma span_values_valid (profile : list float) (l r : Z) :
  all_valid profile -> all_valid (span_values profile l r).
Proof.
  intros H. unfold span_values, all_valid. apply Forall_map.
  apply Forall_forall. intros i _. apply aget_valid. exact H.
Qed.

Lemma profile_range_not_negative (profile : list float) (l r : Z) :
  all_valid profile -> not_negative (profile_range profile l r).
Proof.
  intros H. unfold profile_range.
  pose proof (aget_valid profile (Z.to_nat l) H) as Vf.
  pose proof (span_values_valid profile l r H) as Vs.
  set (first := aget profile (Z.to_nat l)) in *.
  destruct (isnan first) eqn:Nf.
  - rewrite scan_min_nan, scan_max_nan by exact Nf.
    destruct first; try discriminate. reflexivity.
  - destruct (scan_min_le _ first Vs Vf Nf) as (V1 & N1 & K1).
    destruct (scan_max_ge _ first Vs Vf Nf) as (V2 & N2 & K2).
    apply fsub_not_negative; try assumption. lia.
Qed.

Lemma scan_min_finite (vals : list float) (init : float) :
  all_finite vals -> isfinite init = true -> isfinite (scan_min vals init) = true.
Proof.
  unfold scan_min. intros Hv. revert init.
  induction Hv as [|x vals Hx Hv IH]; intros init Fi; cbn [fold_left];
    [exact Fi|].
  destruct (flt x init); apply IH; assumption.
Qed.

Lemma scan_max_finite (vals : list float) (init : float) :
  all_finite vals -> isfinite init = true -> isfinite (scan_max vals init) = true.
Proof.
  unfold scan_max. intros Hv. revert init.
  induction Hv as [|x vals Hx Hv IH]; intros init Fi; cbn [fold_left];
    [exact Fi|].
  destruct (fgt x init); apply IH; assumption.
Qed.

Lemma aget_finite (l : list float) (i : nat) :
  all_finite l -> isfinite (aget l i) = true.
Proof.
  intros H. unfold aget. destruct (nth_in_or_default i l zero) as [Hin | ->];
    [|reflexivity].
  unfold all_finite in H. rewrite Forall_forall in H. apply H.
  apply list_elem_of_In. exact Hin.
Qed.

Lemma isfinite_not_nan (x : float) : isfinite x = true -> isnan x = false.
Proof. destruct x; try discriminate; reflexivity. Qed.

Lemma profile_range_nonneg (profile : list float) (l r : Z) :
  all_valid profile -> all_finite profile ->
  fle zero (profile_range profile l r) = true.
Proof.
  intros Hv Hf. unfold profile_range.
  pose proof (aget_valid profile (Z.to_nat l) Hv) as Vf.
  pose proof (aget_finite profile (Z.to_nat l) Hf) as Ff.
  pose proof (span_values_valid profile l r Hv) as Vs.
  assert (Fs : all_finite (span_values profile l r)).
  { unfold span_values, all_finite. apply Forall_map, Forall_forall.
    intros i _. apply aget_finite. exact Hf. }
  set (first := aget profile (Z.to_nat l)) in *.
  pose proof (isfinite_not_nan first Ff) as Nf.
  destruct (scan_min_le _ first Vs Vf Nf) as (V1 & N1 & K1).
  destruct (scan_max_ge _ first Vs Vf Nf) as (V2 & N2 & K2).
  apply fsub_finite_nonneg; try assumption.
  - apply scan_max_finite; assumption.
  - apply scan_min_finite; assumption.
  - lia.
Qed.

Lemma early_gradient_is_zone_difference
      (frame : list float) (cfg : Thermal.ThermalConfig) (n : Z) :
  let d := fst (Thermal.thermal_algorithm_process frame cfg n) in
  Thermal.detected (Thermal.detection d) = true ->
  Thermal.lateral_gradient d
  = fsub (Thermal.avg (Thermal.right d)) (Thermal.avg (Thermal.left d)).
Proof.
  unfold Thermal.thermal_algorithm_process.
  destruct (Thermal.detected (Thermal.detect_tyre_span _ cfg)) eqn:Hd;
    cbn [fst Thermal.detection Thermal.lateral_gradient Thermal.right Thermal.left].
  - reflexivity.
  - rewrite Hd. discriminate.
Qed.

End Gradient.

(* ================================================================== *)
(** ** Sanitization at the output boundary *)
(* ================================================================== *)

Section Sanitize.

Import Thermal.

Lemma sanitize_float_spec (x : float) :
  isfinite (Comm.sanitize_float x) = true
  /\ (isfinite x = true -> Comm.sanitize_float x = x)
  /\ (isfinite x = false -> Comm.sanitize_float x = zero).
Proof.
  unfold Comm.sanitize_float. destruct (isfinite x) eqn:Hx; cbn [negb].
  - repeat split; [exact Hx | discriminate].
  - repeat split; discriminate.
Qed.

Lemma sanitized_field_finite (x : float) :
  field_finite (Comm.FFloat (Comm.sanitize_float x)) = true.
Proof. apply sanitize_float_spec. Qed.

(** X23: every float handed to the serial formatter is finite, in the CSV
    record and in the JSON record, with or without a temperature
    profile, whatever the frame data and the frame rate are. *)
Lemma serial_fields_finite (data : FrameData) (fps : float)
      (temperature_profile : option (list float)) :
  forallb field_finite (Comm.send_serial_compact data fps) = true
  /\ forallb field_finite (Comm.send_serial_json data fps temperature_profile) = true.
Proof.
  split.
  - unfold Comm.send_serial_compact. cbn [forallb field_finite].
    rewrite !(proj1 (sanitize_float_spec _)). reflexivity.
  - unfold Comm.send_serial_json, Comm.zone_fields.
    rewrite !forallb_app. cbn [forallb field_finite].
    rewrite !(proj1 (sanitize_float_spec _)). cbn [andb].
    destruct temperature_profile as [prof|]; [|reflexivity].
    apply forallb_forall. intros f Hf. apply in_map_iff in Hf as (i & <- & _).
    apply sanitized_field_finite.
Qed.



Lemma cast_uint8_nonfinite (x : float) :
  isfinite x = false -> cast_uint8 x = None.
Proof. destruct x; try discriminate; reflexivity. Qed.

Lemma cast_int16_nonfinite (x : float) :
  isfinite x = false -> cast_int16 x = None.
Proof. destruct x; try discriminate; reflexivity. Qed.

Lemma fmul_10_nonfinite (x : float) :
  isfinite x = false -> isfinite (fmul x (of_int 10)) = false.
Proof.
  destruct x as [s|s| |s m e]; try discriminate; intros _;
    [destruct s|]; reflexivity.
Qed.

(** The register block of [communication.c], which no function of the
    firmware fills (nothing calls [update_i2c_registers]), would be
    written with plain casts: a non-finite zone average has no defined
    register value there. *)
Lemma update_i2c_registers_not_sanitized (regs : list Z) (data : FrameData) :
  isfinite (avg (left data)) = false ->
  Comm.update_i2c_registers regs data = None.
Proof.
  intros H. unfold Comm.update_i2c_registers.
  rewrite (cast_int16_nonfinite _ (fmul_10_nonfinite _ H)). reflexivity.
Qed.

Lemma fmul_100_nonfinite (x : float) :
  isfinite x = false -> isfinite (fmul x (of_int 100)) = false.
Proof.
  destruct x as [s|s| |s m e]; try discriminate; intros _;
    [destruct s|]; reflexivity.
Qed.

End Sanitize.

(* ================================================================== *)
(** ** The register maps *)
(* ================================================================== *)

Section RegisterMap.

Import Thermal I2CSlave.

Lemma nth_insert_eq (l : list Z) (i : nat) (v : Z) :
  (i < length l)%nat -> nth i (<[i := v]> l) 0 = v.
Proof. intros H. rewrite nth_lookup, list_lookup_insert_eq by exact H. reflexivity. Qed.

Lemma nth_insert_ne (l : list Z) (i j : nat) (v : Z) :
  i <> j -> nth j (<[i := v]> l) 0 = nth j l 0.
Proof. intros H. rewrite !nth_lookup, list_lookup_insert_ne by exact H. reflexivity. Qed.

Lemma lo_byte_mod (v : Z) : lo_byte v = v mod 256.
Proof. unfold lo_byte. change 0xFF with (Z.ones 8). rewrite Z.land_ones by lia. reflexivity. Qed.

Lemma hi_byte_mod (v : Z) : hi_byte v = (v / 256) mod 256.
Proof.
  unfold hi_byte. change 0xFF with (Z.ones 8). rewrite Z.land_ones by lia.
  rewrite Z.shiftr_div_pow2 by lia. reflexivity.
Qed.

Lemma bytes_range (v : Z) : 0 <= lo_byte v <= 255 /\ 0 <= hi_byte v <= 255.
Proof. rewrite lo_byte_mod, hi_byte_mod. split; zlia. Qed.

Lemma int16_round_trip (v : Z) :
  -32768 <= v <= 32767 -> decode_int16 (lo_byte v) (hi_byte v) = v.
Proof.
  intros H. unfold decode_int16. rewrite lo_byte_mod, hi_byte_mod. cbv zeta.
  destruct (Z.ltb_spec (v mod 256 + 256 * ((v / 256) mod 256)) 32768); zlia.
Qed.

Lemma cast_range_bounds lo hi x z : cast_range lo hi x = Some z -> lo <= z <= hi.
Proof.
  unfold cast_range. destruct (truncate x) as [t|]; [|discriminate].
  destruct (Z.leb_spec lo t), (Z.leb_spec t hi); cbn; intros [= <-]; lia.
Qed.

Lemma temp_to_int16_tenths_range (temp : float) (v : Z) :
  temp_to_int16_tenths temp = Some v -> -32768 <= v <= 32767.
Proof.
  unfold temp_to_int16_tenths. destruct (negb (isfinite temp)).
  - intros [= <-]. lia.
  - apply cast_range_bounds.
Qed.

Lemma put16_length reg_l reg_h v m : length (put16 reg_l reg_h v m) = length m.
Proof. unfold put16. rewrite !length_insert. reflexivity. Qed.

Lemma put16_other reg_l reg_h v m j :
  j <> reg_l -> j <> reg_h -> nth j (put16 reg_l reg_h v m) 0 = nth j m 0.
Proof. intros H1 H2. unfold put16. rewrite !nth_insert_ne by congruence. reflexivity. Qed.

Lemma put16_reg16 reg_l reg_h v m :
  reg_l <> reg_h -> (reg_l < length m)%nat -> (reg_h < length m)%nat ->
  -32768 <= v <= 32767 ->
  reg16 (put16 reg_l reg_h v m) reg_l reg_h = v.
Proof.
  intros Hne Hl Hh Hv. unfold reg16, put16.
  rewrite nth_insert_ne by congruence. rewrite nth_insert_eq by exact Hl.
  rewrite nth_insert_eq by (rewrite length_insert; exact Hh).
  apply int16_round_trip, Hv.
Qed.

Lemma reg16_put16_other reg_l reg_h v m a b :
  a <> reg_l -> a <> reg_h -> b <> reg_l -> b <> reg_h ->
  reg16 (put16 reg_l reg_h v m) a b = reg16 m a b.
Proof. intros. unfold reg16. rewrite !put16_other by assumption. reflexivity. Qed.

Lemma fold_put16_frame (val : nat -> option Z) (chs : list nat) (om : option (list Z))
      (m' : list Z) :
  fold_left (fun om ch => m ← om; temp ← val ch;
                          Some (put16 (REG_RAW_CH0_L + ch * 2)
                                      (REG_RAW_CH0_L + ch * 2 + 1) temp m))
            chs om = Some m' ->
  exists m, om = Some m /\ length m' = length m
  /\ forall j, (forall ch, In ch chs -> j <> (REG_RAW_CH0_L + ch * 2)%nat
                                   /\ j <> (REG_RAW_CH0_L + ch * 2 + 1)%nat) ->
               nth j m' 0 = nth j m 0.
Proof.
  revert om. induction chs as [|ch chs IH]; intros om H.
  - exists m'. split; [exact H|]. split; [reflexivity|]. intros; reflexivity.
  - cbn [fold_left] in H. apply IH in H as (m1 & E & Hl & Hj).
    destruct om as [m|]; [|discriminate]. cbn [mbind option_bind] in E.
    destruct (val ch) as [t|]; [|discriminate]. cbn [mbind option_bind] in E.
    injection E as <-. exists m. split; [reflexivity|].
    rewrite put16_length in Hl. split; [exact Hl|].
    intros j Hn. rewrite Hj by (intros c Hc; apply Hn; right; exact Hc).
    apply put16_other; apply (Hn ch); left; reflexivity.
Qed.

Lemma raw_channels_frame (f : list float) (chs : list nat) (m m' : list Z) :
  fold_left (put_raw_channel f) chs (Some m) = Some m' ->
  length m' = length m
  /\ forall j, (forall ch, In ch chs -> j <> (REG_RAW_CH0_L + ch * 2)%nat
                                   /\ j <> (REG_RAW_CH0_L + ch * 2 + 1)%nat) ->
               nth j m' 0 = nth j m 0.
Proof.
  intros H.
  destruct (fold_put16_frame (fun ch => temp_to_int16_tenths (raw_channel f ch))
                             chs (Some m) m' H) as (m0 & [= <-] & R).
  exact R.
Qed.

Lemma updated_register_false (j : nat) :
  updated_register j = false ->
  (j < 0x11 \/ 0x19 < j < 0x20 \/ 0x2D < j < 0x30 \/ 0x4F < j)%nat.
Proof.
  unfold updated_register.
  destruct (Nat.leb_spec 0x11 j), (Nat.leb_spec j 0x19), (Nat.leb_spec 0x20 j),
    (Nat.leb_spec j 0x2D), (Nat.leb_spec 0x30 j), (Nat.leb_spec j 0x4F);
    cbn; try discriminate; intros _; lia.
Qed.

Lemma update_frame
      (en : bool) (m : list Z) (data : FrameData) (fps : float)
      (frame : option (list float)) (m' : list Z) :
  i2c_slave_update en m data fps frame = Some m' ->
  length m' = length m
  /\ forall j, updated_register j = false -> nth j m' 0 = nth j m 0.
Proof.
  unfold i2c_slave_update. destruct en; cbn [negb].
  2:{ intros [= <-]. split; reflexivity. }
  destruct (cast_uint8 fps) as [fps8|]; [|discriminate]. cbn [mbind option_bind].
  destruct (cast_uint8 _) as [conf8|]; [|discriminate]. cbn [mbind option_bind].
  destruct (temp_to_int16_tenths (median (left data))) as [lm|]; [|discriminate].
  cbn [mbind option_bind].
  destruct (temp_to_int16_tenths (median (centre data))) as [cm|]; [|discriminate].
  cbn [mbind option_bind].
  destruct (temp_to_int16_tenths (median (right data))) as [rm|]; [|discriminate].
  cbn [mbind option_bind].
  destruct (temp_to_int16_tenths (avg (left data))) as [la|]; [|discriminate].
  cbn [mbind option_bind].
  destruct (temp_to_int16_tenths (avg (centre data))) as [ca|]; [|discriminate].
  cbn [mbind option_bind].
  destruct (temp_to_int16_tenths (avg (right data))) as [ra|]; [|discriminate].
  cbn [mbind option_bind].
  destruct (temp_to_int16_tenths (lateral_gradient data)) as [lg|]; [|discriminate].
  cbn [mbind option_bind]. cbv zeta.
  intros H.
  assert (G : exists m1, length m1 = length m
            /\ (forall j, updated_register j = false -> nth j m1 0 = nth j m 0)
            /\ match frame with
               | Some f => fold_left (put_raw_channel f) (seq 0 16) (Some m1)
               | None => Some m1
               end = Some m').
  { eexists. split; [|split; [|exact H]].
    - rewrite !put16_length, !length_insert. reflexivity.
    - intros j Hj. apply updated_register_false in Hj.
      rewrite !put16_other by (unfold REG_LEFT_MEDIAN_L, REG_LEFT_MEDIAN_H,
        REG_CENTRE_MEDIAN_L, REG_CENTRE_MEDIAN_H, REG_RIGHT_MEDIAN_L, REG_RIGHT_MEDIAN_H,
        REG_LEFT_AVG_L, REG_LEFT_AVG_H, REG_CENTRE_AVG_L, REG_CENTRE_AVG_H,
        REG_RIGHT_AVG_L, REG_RIGHT_AVG_H, REG_LATERAL_GRADIENT_L,
        REG_LATERAL_GRADIENT_H; lia).
      rewrite !nth_insert_ne by (unfold REG_FRAME_NUMBER_L, REG_FRAME_NUMBER_H, REG_FPS,
        REG_DETECTED, REG_CONFIDENCE, REG_TYRE_WIDTH, REG_SPAN_START, REG_SPAN_END,
        REG_WARNINGS; lia).
      reflexivity. }
  clear H. destruct G as (m1 & Hl & Hj & H). split.
  - destruct frame as [f|].
    + apply raw_channels_frame in H as [H _]. congruence.
    + injection H as <-. exact Hl.
  - intros j Hu. rewrite <- (Hj j Hu). destruct frame as [f|].
    + apply raw_channels_frame in H as [_ H]. apply H.
      intros ch Hc. apply in_seq in Hc. apply updated_register_false in Hu.
      unfold REG_RAW_CH0_L. lia.
    + injection H as <-. reflexivity.
Qed.

(** X1: [i2c_slave_update] keeps the length of the register map and, when
    the slave is disabled, the whole map; when it runs it writes only the
    status block 0x11..0x19, the temperatures 0x20..0x2D and the raw
    channels 0x30..0x4F: the configuration registers, the firmware version
    and everything from 0x50 on are left as they were. *)
Theorem i2c_slave_update_frame
        (en : bool) (m : list Z) (data : FrameData) (fps : float)
        (frame : option (list float)) (m' : list Z) :
  i2c_slave_update en m data fps frame = Some m' ->
  length m' = length m
  /\ (en = false -> m' = m)
  /\ forall j, updated_register j = false -> nth j m' 0 = nth j m 0.
Proof.
  intros H. destruct (update_frame en m data fps frame m' H) as [L F].
  split; [exact L|]. split; [|exact F].
  intros ->. unfold i2c_slave_update in H. cbn [negb] in H.
  injection H as <-. reflexivity.
Qed.

Lemma i2c_slave_update_frame_witness :
  length regs_sample = length (register_map slave_init)
  /\ nth REG_EMISSIVITY regs_sample 0 = nth REG_EMISSIVITY (register_map slave_init) 0.
Proof.
  destruct (i2c_slave_update_frame true (register_map slave_init) data_sample
                                   (of_int 8) None regs_sample)
    as (L & _ & F); [vm_compute; reflexivity|].
  split; [exact L | apply F; reflexivity].
Defined.

Lemma reg16_frame (m m' : list Z) (a b : nat) :
  nth a m' 0 = nth a m 0 -> nth b m' 0 = nth b m 0 -> reg16 m' a b = reg16 m a b.
Proof. unfold reg16. intros -> ->. reflexivity. Qed.

Ltac reg_consts :=
  unfold REG_LEFT_MEDIAN_L, REG_LEFT_MEDIAN_H,
        REG_CENTRE_MEDIAN_L, REG_CENTRE_MEDIAN_H, REG_RIGHT_MEDIAN_L, REG_RIGHT_MEDIAN_H,
        REG_LEFT_AVG_L, REG_LEFT_AVG_H, REG_CENTRE_AVG_L, REG_CENTRE_AVG_H,
        REG_RIGHT_AVG_L, REG_RIGHT_AVG_H, REG_LATERAL_GRADIENT_L,
        REG_LATERAL_GRADIENT_H, REG_FRAME_NUMBER_L, REG_FRAME_NUMBER_H, REG_FPS,
        REG_DETECTED, REG_CONFIDENCE, REG_TYRE_WIDTH, REG_SPAN_START, REG_SPAN_END,
        REG_WARNINGS, REG_FALLBACK_MODE, REG_RAW_CH0_L in *.

Ltac reg16_get :=
  repeat first
    [ rewrite put16_reg16 by
        first [ reg_consts; rewrite ?put16_length; lia | assumption ]
    | rewrite reg16_put16_other by (reg_consts; lia) ].

(** X2: after [i2c_slave_update] each temperature register pair holds, low
    byte first, the two's complement 16-bit value [temp_to_int16_tenths]
    gave: a reader that assembles the pair gets that value back.  The
    centre pairs always hold the centre median and average.  In fallback
    mode (no tyre detected and register [REG_FALLBACK_MODE] equal to 1) the
    left and right pairs repeat the centre values and the gradient pair is
    0; otherwise they hold the left and right values and the gradient. *)
Theorem i2c_slave_update_temperatures
        (m : list Z) (data : FrameData) (fps : float)
        (frame : option (list float)) (m' : list Z) :
  (REG_LATERAL_GRADIENT_H < length m)%nat ->
  i2c_slave_update true m data fps frame = Some m' ->
  let fallback := negb (detected (detection data))
                  && (nth REG_FALLBACK_MODE m 0 =? 1) in
  Some (reg16 m' REG_CENTRE_MEDIAN_L REG_CENTRE_MEDIAN_H)
  = temp_to_int16_tenths (median (centre data))
  /\ Some (reg16 m' REG_CENTRE_AVG_L REG_CENTRE_AVG_H)
     = temp_to_int16_tenths (avg (centre data))
  /\ if fallback then
       reg16 m' REG_LEFT_MEDIAN_L REG_LEFT_MEDIAN_H
       = reg16 m' REG_CENTRE_MEDIAN_L REG_CENTRE_MEDIAN_H
       /\ reg16 m' REG_RIGHT_MEDIAN_L REG_RIGHT_MEDIAN_H
          = reg16 m' REG_CENTRE_MEDIAN_L REG_CENTRE_MEDIAN_H
       /\ reg16 m' REG_LEFT_AVG_L REG_LEFT_AVG_H
          = reg16 m' REG_CENTRE_AVG_L REG_CENTRE_AVG_H
       /\ reg16 m' REG_RIGHT_AVG_L REG_RIGHT_AVG_H
          = reg16 m' REG_CENTRE_AVG_L REG_CENTRE_AVG_H
       /\ reg16 m' REG_LATERAL_GRADIENT_L REG_LATERAL_GRADIENT_H = 0
     else
       Some (reg16 m' REG_LEFT_MEDIAN_L REG_LEFT_MEDIAN_H)
       = temp_to_int16_tenths (median (left data))
       /\ Some (reg16 m' REG_RIGHT_MEDIAN_L REG_RIGHT_MEDIAN_H)
          = temp_to_int16_tenths (median (right data))
       /\ Some (reg16 m' REG_LEFT_AVG_L REG_LEFT_AVG_H)
          = temp_to_int16_tenths (avg (left data))
       /\ Some (reg16 m' REG_RIGHT_AVG_L REG_RIGHT_AVG_H)
          = temp_to_int16_tenths (avg (right data))
       /\ Some (reg16 m' REG_LATERAL_GRADIENT_L REG_LATERAL_GRADIENT_H)
          = temp_to_int16_tenths (lateral_gradient data).
Proof.
  intros Hlen. unfold i2c_slave_update. cbn [negb].
  destruct (cast_uint8 fps) as [fps8|]; [|discriminate]. cbn [mbind option_bind].
  destruct (cast_uint8 _) as [conf8|]; [|discriminate]. cbn [mbind option_bind].
  destruct (temp_to_int16_tenths (median (left data))) as [lm|] eqn:Elm; [|discriminate].
  cbn [mbind option_bind].
  destruct (temp_to_int16_tenths (median (centre data))) as [cm|] eqn:Ecm; [|discriminate].
  cbn [mbind option_bind].
  destruct (temp_to_int16_tenths (median (right data))) as [rm|] eqn:Erm; [|discriminate].
  cbn [mbind option_bind].
  destruct (temp_to_int16_tenths (avg (left data))) as [la|] eqn:Ela; [|discriminate].
  cbn [mbind option_bind].
  destruct (temp_to_int16_tenths (avg (centre data))) as [ca|] eqn:Eca; [|discriminate].
  cbn [mbind option_bind].
  destruct (temp_to_int16_tenths (avg (right data))) as [ra|] eqn:Era; [|discriminate].
  cbn [mbind option_bind].
  destruct (temp_to_int16_tenths (lateral_gradient data)) as [lg|] eqn:Elg; [|discriminate].
  cbn [mbind option_bind]. cbv zeta.
  apply temp_to_int16_tenths_range in Elm, Ecm, Erm, Ela, Eca, Era, Elg.
  match goal with
  | |- context [put16 REG_LEFT_MEDIAN_L REG_LEFT_MEDIAN_H _ ?b] => set (m0 := b)
  end.
  assert (L0 : length m0 = length m) by (unfold m0; rewrite !length_insert; reflexivity).
  assert (F0 : nth REG_FALLBACK_MODE m0 0 = nth REG_FALLBACK_MODE m 0).
  { unfold m0. rewrite !nth_insert_ne by (reg_consts; lia). reflexivity. }
  rewrite F0. clearbody m0. rewrite <- L0 in Hlen. clear L0 F0.
  set (fallback := negb (detected (detection data)) && (nth REG_FALLBACK_MODE m 0 =? 1)).
  match goal with
  | |- match frame with Some f => fold_left _ _ (Some ?b) | None => _ end = _ -> _ =>
    set (m1 := b)
  end.
  intros H.
  assert (T : forall a b, (a < 0x30)%nat -> (b < 0x30)%nat -> reg16 m' a b = reg16 m1 a b).
  { intros a b Ha Hb. destruct frame as [f|].
    - apply raw_channels_frame in H as [_ H].
      apply reg16_frame; apply H; intros ch _; reg_consts; lia.
    - injection H as <-. reflexivity. }
  rewrite !T by (reg_consts; lia). clear T H.
  assert (Hf : -32768 <= 0 <= 32767) by lia.
  unfold m1. clear m1.
  destruct fallback; reg16_get; repeat split; reflexivity.
Qed.

Lemma i2c_slave_update_temperatures_witness :
  Some (reg16 regs_sample REG_CENTRE_MEDIAN_L REG_CENTRE_MEDIAN_H)
  = temp_to_int16_tenths (median (centre data_sample)).
Proof.
  assert (L : (REG_LATERAL_GRADIENT_H < length (register_map slave_init))%nat)
    by (vm_compute; lia).
  assert (U : i2c_slave_update true (register_map slave_init) data_sample (of_int 8) None
              = Some regs_sample) by (vm_compute; reflexivity).
  exact (proj1 (i2c_slave_update_temperatures (register_map slave_init) data_sample
                  (of_int 8) None regs_sample L U)).
Defined.

Lemma uint16_round_trip (v : Z) :
  lo_byte (Z.land v 0xFFFF) + 256 * hi_byte (Z.land v 0xFFFF) = v mod 65536.
Proof.
  rewrite lo_byte_mod, hi_byte_mod. change 0xFFFF with (Z.ones 16).
  rewrite Z.land_ones by lia. change (2 ^ 16) with 65536. zlia.
Qed.

(** X3: the register block of [communication.c] is filled high byte first:
    the pairs (0x00, 0x01), (0x02, 0x03), (0x04, 0x05) and (0x0B, 0x0C)
    hold the 16-bit values of ten times the left, centre and right averages
    and the lateral gradient, the pair (0x0D, 0x0E) the frame number modulo
    65536; the length of the block is kept and no register above 0x0E is
    written. *)
Theorem update_i2c_registers_spec
        (regs : list Z) (data : FrameData) (regs' : list Z) :
  (0x0E < length regs)%nat ->
  Comm.update_i2c_registers regs data = Some regs' ->
  length regs' = length regs
  /\ (forall j, (0x0E < j)%nat -> nth j regs' 0 = nth j regs 0)
  /\ Some (reg16 regs' 0x01 0x00) = cast_int16 (fmul (avg (left data)) (of_int 10))
  /\ Some (reg16 regs' 0x03 0x02) = cast_int16 (fmul (avg (centre data)) (of_int 10))
  /\ Some (reg16 regs' 0x05 0x04) = cast_int16 (fmul (avg (right data)) (of_int 10))
  /\ Some (reg16 regs' 0x0C 0x0B) = cast_int16 (fmul (lateral_gradient data) (of_int 10))
  /\ nth 0x0E regs' 0 + 256 * nth 0x0D regs' 0 = frame_number data mod 65536.
Proof.
  intros Hlen. unfold Comm.update_i2c_registers.
  destruct (cast_int16 (fmul (avg (left data)) _)) as [lt|] eqn:El; [|discriminate].
  cbn [mbind option_bind].
  destruct (cast_int16 (fmul (avg (centre data)) _)) as [ct|] eqn:Ec; [|discriminate].
  cbn [mbind option_bind].
  destruct (cast_int16 (fmul (avg (right data)) _)) as [rt|] eqn:Er; [|discriminate].
  cbn [mbind option_bind].
  destruct (cast_int16 (fmul (lateral_gradient data) _)) as [lg|] eqn:Eg; [|discriminate].
  cbn [mbind option_bind].
  destruct (cast_uint8 _) as [conf|]; [|discriminate].
  cbn [mbind option_bind]. cbv zeta.
  apply cast_range_bounds in El, Ec, Er, Eg.
  intros [= <-].
  split; [rewrite !length_insert; reflexivity|].
  split; [intros j Hj; rewrite !nth_insert_ne by lia; reflexivity|].
  unfold reg16.
  repeat match goal with
         | |- context [nth ?i (<[?k := ?v]> ?l) 0] =>
           first [ rewrite (nth_insert_ne l k i v) by lia
                 | rewrite (nth_insert_eq l i v) by (rewrite ?length_insert; lia) ]
         end.
  change (Z.land (Z.shiftr ?v 8) 0xFF) with (hi_byte v).
  change (Z.land ?v 0xFF) with (lo_byte v).
  rewrite !int16_round_trip by assumption.
  repeat split. apply uint16_round_trip.
Qed.

Lemma update_i2c_registers_spec_witness :
  Some (reg16 comm_regs_sample 0x03 0x02)
  = cast_int16 (fmul (avg (centre data_sample)) (of_int 10))
  /\ nth 0x0F comm_regs_sample 0 = 0.
Proof.
  destruct (update_i2c_registers_spec (replicate 16 0) data_sample comm_regs_sample)
    as (_ & F & _ & C & _); [vm_compute; lia | vm_compute; reflexivity |].
  split; [exact C | apply (F 0x0F%nat); lia].
Defined.

End RegisterMap.

(* ================================================================== *)
(** ** The bus side of the slave *)
(* ================================================================== *)

Section Handler.

Import Thermal I2CSlave.

(** What one interrupt can change. *)
Lemma read_request_frame (s s' : Slave) (v : Z) :
  read_request s = Some (s', v) ->
  register_map s' = register_map s /\ current_frame s' = current_frame s
  /\ enabled (state s') = enabled (state s)
  /\ output_mode (state s') = output_mode (state s)
  /\ slave_address (state s') = slave_address (state s).
Proof.
  unfold read_request.
  destruct (current_register (state s) =? REG_FRAME_DATA_START)%nat.
  - destruct (current_frame s) as [f|] eqn:Ef.
    + destruct (frame_read_offset (state s) <? 768).
      * destruct (stream_byte f _) as [b|]; [|discriminate].
        cbn [mbind option_bind]. intros [= <- <-]. repeat split. exact Ef.
      * intros [= <- <-]. repeat split. exact Ef.
    + intros [= <- <-]. repeat split. exact Ef.
  - intros [= <- <-]. repeat split.
Qed.

Lemma receive_byte_frame (s : Slave) (d : Z) :
  length (register_map (receive_byte s d)) = length (register_map s)
  /\ current_frame (receive_byte s d) = current_frame s
  /\ enabled (state (receive_byte s d)) = enabled (state s)
  /\ forall j, (REG_RESERVED_0F < j)%nat ->
               nth j (register_map (receive_byte s d)) 0 = nth j (register_map s) 0.
Proof.
  unfold receive_byte. cbv zeta.
  destruct (Nat.eqb_spec (current_register (state s)) 0xFF) as [E|E].
  - destruct (Z.to_nat (Z.land d 255) =? REG_FRAME_DATA_START)%nat; repeat split.
  - destruct (Nat.leb_spec REG_CONFIG_START (current_register (state s))) as [H0|H0];
      destruct (Nat.leb_spec (current_register (state s)) REG_RESERVED_0F) as [H1|H1];
      cbn [andb].
    + assert (G : forall j, (REG_RESERVED_0F < j)%nat ->
                    nth j (<[current_register (state s) := Z.land d 0xFF]> (register_map s)) 0
                    = nth j (register_map s) 0)
        by (intros j Hj; apply nth_insert_ne; lia).
      destruct (current_register (state s) =? REG_I2C_ADDRESS)%nat;
        [|destruct (current_register (state s) =? REG_OUTPUT_MODE)%nat];
        cbn; rewrite length_insert; repeat split; exact G.
    + destruct (Nat.eqb_spec (current_register (state s)) REG_CMD) as [C|C];
        [exfalso; apply E; exact C|]. repeat split.
    + unfold REG_CONFIG_START in H0. lia.
    + unfold REG_CONFIG_START in H0. lia.
Qed.

Lemma handler_frame (status : IrqStatus) (d : Z) (s s' : Slave) (sent : option Z) :
  i2c_slave_handler status d s = Some (s', sent) ->
  length (register_map s') = length (register_map s)
  /\ current_frame s' = current_frame s
  /\ enabled (state s') = enabled (state s)
  /\ forall j, (REG_RESERVED_0F < j)%nat ->
               nth j (register_map s') 0 = nth j (register_map s) 0.
Proof.
  unfold i2c_slave_handler.
  assert (G : exists s1 o1, (if RD_REQ status
                             then r ← read_request s; Some (fst r, Some (snd r))
                             else Some (s, None)) = Some (s1, o1)
              /\ register_map s1 = register_map s /\ current_frame s1 = current_frame s
              /\ enabled (state s1) = enabled (state s)
           \/ (if RD_REQ status
               then r ← read_request s; Some (fst r, Some (snd r))
               else Some (s, None)) = None).
  { destruct (RD_REQ status).
    - destruct (read_request s) as [[s1 v]|] eqn:E.
      + exists s1, (Some v). left. split; [reflexivity|].
        apply read_request_frame in E. tauto.
      + exists s, None. right. reflexivity.
    - exists s, None. left. repeat split. }
  destruct G as (s1 & o1 & [(-> & Hm & Hf & He) | ->]); [|discriminate].
  cbn [mbind option_bind fst snd].
  intros [= <- <-].
  assert (R : forall t, length (register_map t) = length (register_map s1)
                /\ current_frame t = current_frame s1
                /\ enabled (state t) = enabled (state s1)
                /\ (forall j, (REG_RESERVED_0F < j)%nat ->
                      nth j (register_map t) 0 = nth j (register_map s1) 0) ->
              length (register_map (if STOP_DET status then stop_detected t else t))
              = length (register_map s)
              /\ current_frame (if STOP_DET status then stop_detected t else t)
                 = current_frame s
              /\ enabled (state (if STOP_DET status then stop_detected t else t))
                 = enabled (state s)
              /\ (forall j, (REG_RESERVED_0F < j)%nat ->
                    nth j (register_map (if STOP_DET status then stop_detected t else t)) 0
                    = nth j (register_map s) 0)).
  { intros t (A & B & C & D). rewrite <- Hm, <- Hf, <- He.
    destruct (STOP_DET status); cbn; repeat split; assumption. }
  apply R. destruct (RX_FULL status).
  - apply receive_byte_frame.
  - repeat split.
Qed.

(** X4: whatever the master sends, and whatever status bits an interrupt
    carries, the handler never modifies a register above 0x0F: the status,
    temperature and raw-channel registers are read-only over the bus.  This
    includes [REG_WARNINGS]: a data byte is treated as a command only when
    the register pointer is 0xFF, and with the pointer at 0xFF the byte is
    taken as a register address, so [CMD_CLEAR_WARNINGS] is never carried
    out.  The handler also keeps the length of the map and the frame
    pointer. *)
Theorem handler_keeps_read_only_registers
        (events : list bus_event) (s s' : Slave) (out : list Z) :
  run_handler events s = Some (s', out) ->
  length (register_map s') = length (register_map s)
  /\ current_frame s' = current_frame s
  /\ forall j, (REG_RESERVED_0F < j)%nat ->
               nth j (register_map s') 0 = nth j (register_map s) 0.
Proof.
  revert s s' out. induction events as [|e events IH]; intros s s' out H.
  - injection H as <- <-. repeat split.
  - cbn [run_handler] in H.
    destruct (i2c_slave_handler (fst e) (snd e) s) as [[s1 o1]|] eqn:E; [|discriminate].
    cbn [mbind option_bind fst snd] in H.
    destruct (run_handler events s1) as [[s2 o2]|] eqn:E2; [|discriminate].
    cbn [mbind option_bind fst snd] in H. injection H as <- _.
    apply handler_frame in E as (A & B & _ & D).
    apply IH in E2 as (A2 & B2 & D2).
    split; [congruence|]. split; [congruence|].
    intros j Hj. rewrite D2, D by exact Hj. reflexivity.
Qed.

Lemma handler_keeps_read_only_registers_witness :
  nth REG_WARNINGS (register_map (fst handled_sample)) 0
  = nth REG_WARNINGS (register_map slave_init) 0.
Proof.
  assert (R : run_handler events_sample slave_init
              = Some (fst handled_sample, snd handled_sample))
    by (vm_compute; reflexivity).
  destruct (handler_keeps_read_only_registers events_sample slave_init
              (fst handled_sample) (snd handled_sample) R) as (_ & _ & F).
  apply F. vm_compute. lia.
Defined.

End Handler.

Section Transactions.

Import Thermal I2CSlave.

Lemma run_handler_app (a b : list bus_event) (s : Slave) :
  run_handler (a ++ b) s
  = r1 ← run_handler a s; r2 ← run_handler b (fst r1); Some (fst r2, snd r1 ++ snd r2).
Proof.
  revert s. induction a as [|e a IH]; intros s.
  - cbn. destruct (run_handler b s) as [[s2 o2]|]; reflexivity.
  - cbn [app run_handler].
    destruct (i2c_slave_handler (fst e) (snd e) s) as [[s1 o1]|]; [|reflexivity].
    cbn [mbind option_bind fst snd]. rewrite IH.
    destruct (run_handler a s1) as [[s2 o2]|]; [|reflexivity].
    cbn [mbind option_bind fst snd].
    destruct (run_handler b s2) as [[s3 o3]|]; [|reflexivity].
    cbn [mbind option_bind fst snd]. destruct o1; reflexivity.
Qed.

Lemma run_handler_rx (v : Z) (rest : list bus_event) (s : Slave) :
  run_handler (rx v :: rest) s = run_handler rest (receive_byte s v).
Proof.
  cbn [run_handler]. unfold i2c_slave_handler, rx. cbn [fst snd RD_REQ RX_FULL STOP_DET].
  cbn [mbind option_bind fst snd].
  destruct (run_handler rest (receive_byte s v)) as [[s2 o2]|]; reflexivity.
Qed.

Lemma run_handler_stop (s : Slave) :
  run_handler [stop] s = Some (stop_detected s, []).
Proof. reflexivity. Qed.

Lemma run_handler_rd (rest : list bus_event) (s : Slave) :
  run_handler (rd :: rest) s
  = r ← read_request s; r' ← run_handler rest (fst r); Some (fst r', snd r :: snd r').
Proof.
  cbn [run_handler]. unfold i2c_slave_handler, rd. cbn [fst snd RD_REQ RX_FULL STOP_DET].
  destruct (read_request s) as [[s1 v]|]; reflexivity.
Qed.

Lemma byte_of_nat (reg : nat) :
  (reg <= 255)%nat -> Z.to_nat (Z.land (Z.of_nat reg) 0xFF) = reg.
Proof.
  intros H. change 0xFF with (Z.ones 8). rewrite Z.land_ones by lia.
  rewrite Z.mod_small by lia. lia.
Qed.

(** The data bytes of a write, with the pointer at [p]. *)
Lemma data_bytes (vs : list Z) :
  forall (s : Slave) (p : nat),
    current_register (state s) = p ->
    (p + length vs <= 255)%nat ->
    (REG_RESERVED_0F < length (register_map s))%nat ->
    exists s',
      run_handler (map rx vs) s = Some (s', [])
      /\ current_register (state s') = (p + length vs)%nat
      /\ frame_read_offset (state s') = frame_read_offset (state s)
      /\ enabled (state s') = enabled (state s)
      /\ current_frame s' = current_frame s
      /\ (forall j, nth j (register_map s') 0 =
            if (p <=? j)%nat && (j <? p + length vs)%nat && (j <=? REG_RESERVED_0F)%nat
            then Z.land (nth (j - p) vs 0) 0xFF
            else nth j (register_map s) 0)
      /\ output_mode (state s') =
         (if (p <=? REG_OUTPUT_MODE)%nat && (REG_OUTPUT_MODE <? p + length vs)%nat
          then Z.land (nth (REG_OUTPUT_MODE - p) vs 0) 0xFF
          else output_mode (state s))
      /\ slave_address (state s') =
         (if (p =? REG_I2C_ADDRESS)%nat && (0 <? length vs)%nat
          then Z.land (Z.land (nth 0 vs 0) 0xFF) 0x7F
          else slave_address (state s)).
Proof.
  unfold REG_RESERVED_0F, REG_OUTPUT_MODE, REG_I2C_ADDRESS.
  induction vs as [|v vs IH]; intros s p Hp Hlen Hm.
  - exists s. cbn [map run_handler length].
    split; [reflexivity|]. split; [lia|]. do 3 (split; [reflexivity|]).
    split; [|split].
    + intros j. destruct (Nat.leb_spec p j), (Nat.ltb_spec j (p + 0)); cbn; try reflexivity; lia.
    + destruct (Nat.leb_spec p 1), (Nat.ltb_spec 1 (p + 0)); cbn; try reflexivity; lia.
    + rewrite andb_false_r. reflexivity.
  - cbn [map length] in *. rewrite run_handler_rx.
    set (s1 := receive_byte s v).
    assert (S1 : current_register (state s1) = S p
                 /\ frame_read_offset (state s1) = frame_read_offset (state s)
                 /\ enabled (state s1) = enabled (state s)
                 /\ current_frame s1 = current_frame s
                 /\ register_map s1 = (if (p <=? 15)%nat
                                       then <[p := Z.land v 0xFF]> (register_map s)
                                       else register_map s)
                 /\ output_mode (state s1) = (if (p =? 1)%nat then Z.land v 0xFF
                                              else output_mode (state s))
                 /\ slave_address (state s1) = (if (p =? 0)%nat
                                                then Z.land (Z.land v 0xFF) 0x7F
                                                else slave_address (state s))).
    { unfold s1, receive_byte. cbv zeta. rewrite Hp. clear IH s1 Hp.
      destruct (Nat.eqb_spec p 0xFF) as [E|E]; [lia|].
      unfold REG_CONFIG_START, REG_RESERVED_0F, REG_I2C_ADDRESS, REG_OUTPUT_MODE, REG_CMD.
      replace ((p + 1) mod 256)%nat with (S p)
        by (rewrite Nat.mod_small by lia; lia).
      cbn [Nat.leb andb].
      destruct (Nat.leb_spec p 15) as [L|L].
      - destruct (Nat.eqb_spec p 0) as [E0|E0]; [repeat split; subst p; reflexivity|].
        destruct (Nat.eqb_spec p 1) as [E1|E1]; repeat split.
      - destruct (Nat.eqb_spec p 255) as [E2|E2]; [lia|].
        destruct (Nat.eqb_spec p 0) as [E0|E0]; [lia|].
        destruct (Nat.eqb_spec p 1) as [E1|E1]; [lia|]. repeat split. }
    destruct S1 as (C1 & O1 & N1 & F1 & M1 & D1 & A1). clear Hp.
    destruct (IH s1 (S p) C1 ltac:(lia)) as (s' & R & C & O & N & F & M & D & A).
    { rewrite M1. destruct (p <=? 15)%nat; rewrite ?length_insert; exact Hm. }
    exists s'. split; [exact R|]. split; [lia|]. split; [congruence|].
    split; [congruence|]. split; [congruence|]. split; [|split].
    + intros j. rewrite M, M1. clear M D A R.
      destruct (Nat.leb_spec (S p) j), (Nat.ltb_spec j (S p + length vs)),
        (Nat.leb_spec j 15), (Nat.leb_spec p j), (Nat.ltb_spec j (p + S (length vs)));
        cbn [andb]; try lia.
      all: try (replace (j - p)%nat with (S (j - S p)) by lia; reflexivity).
      all: try (destruct (Nat.leb_spec p 15); [|reflexivity]; apply nth_insert_ne; lia).
      all: assert (j = p) by lia; subst j; destruct (Nat.leb_spec p 15); [|lia];
        rewrite nth_insert_eq by lia; replace (p - p)%nat with 0%nat by lia;
        reflexivity.
    + rewrite D, D1. clear M D A R.
      destruct (Nat.leb_spec (S p) 1), (Nat.ltb_spec 1 (S p + length vs)),
        (Nat.leb_spec p 1), (Nat.ltb_spec 1 (p + S (length vs))), (Nat.eqb_spec p 1);
        cbn [andb]; try lia; try reflexivity.
      all: try (replace (1 - p)%nat with (S (1 - S p)) by lia; reflexivity).
      all: subst p; reflexivity.
    + rewrite A, A1. cbn [Nat.eqb andb].
      destruct (Nat.eqb_spec p 0); [subst p|]; reflexivity.
Qed.

(** X5: a write transaction to an idle slave (the register address, data
    bytes, stop) that ends before register 0xFF stores the low 8 bits of
    the [i]-th data byte in register [reg + i] when that register is a
    configuration register (0x00..0x0F) and ignores it otherwise; every
    other register keeps its value.  A byte written to [REG_OUTPUT_MODE]
    becomes the output mode, a byte written to [REG_I2C_ADDRESS] becomes,
    masked to 7 bits, the slave address; nothing is sent to the master and
    the slave is idle again afterwards. *)
Theorem write_transaction (reg : nat) (vs : list Z) (s : Slave) :
  idle s ->
  (REG_RESERVED_0F < length (register_map s))%nat ->
  (reg + length vs <= 255)%nat ->
  exists s',
    run_handler (rx (Z.of_nat reg) :: map rx vs ++ [stop]) s = Some (s', [])
    /\ idle s'
    /\ (forall j, nth j (register_map s') 0 =
          if (reg <=? j)%nat && (j <? reg + length vs)%nat && (j <=? REG_RESERVED_0F)%nat
          then Z.land (nth (j - reg) vs 0) 0xFF
          else nth j (register_map s) 0)
    /\ output_mode (state s') =
       (if (reg <=? REG_OUTPUT_MODE)%nat && (REG_OUTPUT_MODE <? reg + length vs)%nat
        then Z.land (nth (REG_OUTPUT_MODE - reg) vs 0) 0xFF
        else output_mode (state s))
    /\ slave_address (state s') =
       (if (reg =? REG_I2C_ADDRESS)%nat && (0 <? length vs)%nat
        then Z.land (Z.land (nth 0 vs 0) 0xFF) 0x7F
        else slave_address (state s)).
Proof.
  intros Hidle Hm Hlen. rewrite run_handler_rx.
  set (s0 := receive_byte s (Z.of_nat reg)).
  assert (S0 : current_register (state s0) = reg
               /\ register_map s0 = register_map s
               /\ output_mode (state s0) = output_mode (state s)
               /\ slave_address (state s0) = slave_address (state s)).
  { unfold s0, receive_byte. cbv zeta. rewrite Hidle. cbn [Nat.eqb].
    rewrite byte_of_nat by lia.
    destruct (reg =? REG_FRAME_DATA_START)%nat; repeat split. }
  destruct S0 as (C0 & M0 & D0 & A0).
  destruct (data_bytes vs s0 reg C0 Hlen ltac:(rewrite M0; exact Hm))
    as (s1 & R & C & O & N & F & M & D & A).
  rewrite run_handler_app, R. cbn [mbind option_bind fst snd app].
  exists (stop_detected s1). split; [reflexivity|]. split; [reflexivity|].
  cbn [stop_detected set_state register_map state set_register output_mode slave_address].
  rewrite <- M0, <- D0, <- A0. auto.
Qed.

Lemma write_transaction_witness :
  exists s',
    run_handler [rx 4; rx 90; stop] slave_init = Some (s', [])
    /\ nth REG_EMISSIVITY (register_map s') 0 = 90.
Proof.
  destruct (write_transaction 4 [90] slave_init) as (s' & R & _ & M & _);
    [reflexivity | vm_compute; lia | vm_compute; lia |].
  exists s'. split; [exact R|]. rewrite M. reflexivity.
Defined.

Lemma set_register_same (s : Slave) :
  set_state s (set_register (state s) (current_register (state s))) = s.
Proof. destruct s as [[a o c f e] m cf]. reflexivity. Qed.

Lemma set_offset_same (s : Slave) :
  set_state s (set_offset (state s) (frame_read_offset (state s))) = s.
Proof. destruct s as [[a o c f e] m cf]. reflexivity. Qed.

Lemma register_reads (k : nat) :
  forall (s : Slave) (p : nat),
    current_register (state s) = p -> (p < 256)%nat ->
    (forall i, (i < k)%nat -> ((p + i) mod 256)%nat <> REG_FRAME_DATA_START) ->
    run_handler (replicate k rd) s
    = Some (set_state s (set_register (state s) ((p + k) mod 256)),
            map (fun i => nth ((p + i) mod 256) (register_map s) 0) (seq 0 k)).
Proof.
  induction k as [|k IH]; intros s p Hp Hlt Hne.
  - cbn [replicate run_handler seq map]. rewrite Nat.add_0_r, Nat.mod_small by exact Hlt.
    rewrite <- Hp, set_register_same. reflexivity.
  - cbn [replicate]. rewrite run_handler_rd. unfold read_request. cbv zeta.
    pose proof (Hne 0%nat ltac:(lia)) as H0.
    rewrite Nat.add_0_r, Nat.mod_small in H0 by exact Hlt.
    rewrite Hp. destruct (Nat.eqb_spec p REG_FRAME_DATA_START) as [E|_]; [contradiction|].
    cbn [mbind option_bind fst snd].
    rewrite (IH _ ((p + 1) mod 256)%nat); [|reflexivity|apply Nat.mod_upper_bound; lia|].
    + cbn [mbind option_bind fst snd set_state set_register state register_map
              current_frame].
      f_equal. f_equal.
      * unfold set_state, set_register.
        cbn [state register_map current_frame slave_address output_mode
             current_register frame_read_offset enabled].
        rewrite Nat.Div0.add_mod_idemp_l.
        replace (p + 1 + k)%nat with (p + S k)%nat by lia. reflexivity.
      * cbn [seq map]. rewrite Nat.add_0_r, (Nat.mod_small p) by exact Hlt. f_equal.
        rewrite <- seq_shift, map_map. apply map_ext. intros i.
        rewrite Nat.Div0.add_mod_idemp_l. do 2 f_equal. lia.
    + intros i Hi. rewrite Nat.Div0.add_mod_idemp_l.
      replace (p + 1 + i)%nat with (p + S i)%nat by lia. apply Hne. lia.
Qed.

Lemma address_byte (reg : nat) (s : Slave) :
  idle s -> (reg <= 255)%nat -> reg <> REG_FRAME_DATA_START ->
  receive_byte s (Z.of_nat reg) = set_state s (set_register (state s) reg).
Proof.
  intros Hidle Hr Hne. unfold receive_byte. cbv zeta. rewrite Hidle. cbn [Nat.eqb].
  rewrite byte_of_nat by exact Hr.
  destruct (Nat.eqb_spec reg REG_FRAME_DATA_START); [contradiction|]. reflexivity.
Qed.

Lemma stop_idle (s : Slave) (r : nat) :
  idle s -> stop_detected (set_state s (set_register (state s) r)) = s.
Proof.
  unfold idle. destruct s as [[a o c f e] m cf]. cbn. intros ->. reflexivity.
Qed.

(** X6: a read transaction to an idle slave (the register address, [k]
    read requests, stop) that does not touch [REG_FRAME_DATA_START] sends
    the registers [reg], [reg + 1], ... in order, wrapping from 0xFF to
    0x00, and leaves the slave exactly as it was.  A stop between the
    address and the reads discards the address: the reads then start at
    register 0xFF. *)
Theorem read_transaction (reg k : nat) (s : Slave) :
  idle s -> (reg <= 255)%nat -> reg <> REG_FRAME_DATA_START ->
  (forall i, (i < k)%nat -> ((reg + i) mod 256)%nat <> REG_FRAME_DATA_START) ->
  run_handler (rx (Z.of_nat reg) :: replicate k rd ++ [stop]) s
  = Some (s, map (fun i => nth ((reg + i) mod 256) (register_map s) 0) (seq 0 k))
  /\ ((k <= 66)%nat ->
      run_handler (rx (Z.of_nat reg) :: stop :: replicate k rd ++ [stop]) s
      = Some (s, map (fun i => nth ((255 + i) mod 256) (register_map s) 0) (seq 0 k))).
Proof.
  intros Hidle Hr Hne Hk. split.
  - rewrite run_handler_rx, address_byte by assumption.
    rewrite run_handler_app.
    rewrite (register_reads k _ reg); [|reflexivity|lia|exact Hk].
    cbn [mbind option_bind fst snd run_handler].
    unfold i2c_slave_handler, stop. cbn [fst snd RD_REQ RX_FULL STOP_DET].
    cbn [mbind option_bind fst snd].
    rewrite app_nil_r. f_equal. f_equal.
    apply (stop_idle s _ Hidle).
  - intros Hk66. rewrite run_handler_rx, address_byte by assumption.
    change (stop :: replicate k rd ++ [stop]) with ([stop] ++ (replicate k rd ++ [stop])).
    rewrite run_handler_app, run_handler_stop.
    cbn [mbind option_bind fst snd]. rewrite (stop_idle s _ Hidle).
    rewrite run_handler_app.
    rewrite (register_reads k _ 255%nat); [|exact Hidle|lia|].
    + cbn [mbind option_bind fst snd run_handler].
      unfold i2c_slave_handler, stop. cbn [fst snd RD_REQ RX_FULL STOP_DET].
      cbn [mbind option_bind fst snd].
      rewrite app_nil_r. cbn [app]. f_equal. f_equal.
      apply (stop_idle s _ Hidle).
    + intros i Hi. unfold REG_FRAME_DATA_START.
      destruct i as [|i]; [cbn; lia|].
      replace (255 + S i)%nat with (i + 1 * 256)%nat by lia.
      rewrite Nat.Div0.mod_add, Nat.mod_small by lia. lia.
Qed.

Lemma stream_reads (f : list float) (k : nat) :
  forall (s s' : Slave) (o : nat) (out : list Z),
    current_register (state s) = REG_FRAME_DATA_START ->
    current_frame s = Some f ->
    frame_read_offset (state s) = Z.of_nat o -> (o <= 768)%nat ->
    run_handler (replicate k rd) s = Some (s', out) ->
    length out = k
    /\ s' = set_state s (set_offset (state s) (Z.of_nat (Nat.min (o + k) 768)))
    /\ forall i, (i < k)%nat ->
         if (o + i <? 768)%nat then Some (nth i out 0) = stream_byte f (o + i)
         else nth i out 0 = 0.
Proof.
  induction k as [|k IH]; intros s s' o out Hc Hf Ho Hle H.
  - injection H as <- <-. split; [reflexivity|]. split; [|intros i Hi; lia].
    rewrite Nat.add_0_r, Nat.min_l by exact Hle. rewrite <- Ho, set_offset_same.
    reflexivity.
  - cbn [replicate] in H. rewrite run_handler_rd in H. unfold read_request in H.
    cbv zeta in H. rewrite Hc, Nat.eqb_refl, Hf, Ho in H.
    destruct (Z.ltb_spec (Z.of_nat o) 768) as [Lt|Ge].
    + rewrite Nat2Z.id in H.
      destruct (stream_byte f o) as [b|] eqn:Eb; [|discriminate].
      cbn [mbind option_bind fst snd] in H.
      match type of H with
      | context [run_handler _ ?t] => set (s1 := t) in H
      end.
      destruct (run_handler (replicate k rd) s1) as [[s2 o2]|] eqn:E2; [|discriminate].
      cbn [mbind option_bind fst snd] in H. injection H as <- <-.
      apply (IH s1 s2 (S o) o2) in E2 as (L & S2 & N); [|exact Hc|exact Hf| |lia].
      * split; [cbn; lia|]. split.
        { rewrite S2. unfold s1, set_state, set_offset. cbn. do 3 f_equal. lia. }
        intros i Hi. destruct i as [|i].
        { rewrite Nat.add_0_r. destruct (Nat.ltb_spec o 768); [|lia].
          cbn. rewrite Eb. reflexivity. }
        specialize (N i ltac:(lia)).
        replace (o + S i)%nat with (S o + i)%nat by lia. exact N.
      * unfold s1. cbn. rewrite Z.mod_small by lia. lia.
    + assert (o = 768%nat) by lia. subst o.
      cbn [mbind option_bind fst snd] in H.
      destruct (run_handler (replicate k rd) s) as [[s2 o2]|] eqn:E2; [|discriminate].
      cbn [mbind option_bind fst snd] in H. injection H as <- <-.
      apply (IH s s2 768%nat o2) in E2 as (L & S2 & N); [|exact Hc|exact Hf|exact Ho|lia].
      split; [cbn; lia|]. split.
      { rewrite S2. do 3 f_equal. lia. }
      intros i Hi. destruct (Nat.ltb_spec (768 + i) 768); [lia|].
      destruct i as [|i]; [reflexivity|].
      specialize (N i ltac:(lia)).
      destruct (Nat.ltb_spec (768 + i) 768); [lia|]. exact N.
Qed.

(** X7: after the address [REG_FRAME_DATA_START] every read request sends
    one byte of the frame and the register pointer stays where it is.  The
    bytes come in pairs, low byte first: the pair for pixel [px] assembles
    to [temp_to_int16_tenths] of that pixel.  The offset stops at 768, so
    only the pixels 0..383, the upper half of the 768-pixel frame, are ever
    sent; every byte from the 769th on is 0. *)
Theorem frame_stream (k : nat) (f : list float) (s s' : Slave) (out : list Z) :
  idle s -> current_frame s = Some f ->
  run_handler (rx (Z.of_nat REG_FRAME_DATA_START) :: replicate k rd) s = Some (s', out) ->
  length out = k
  /\ current_register (state s') = REG_FRAME_DATA_START
  /\ frame_read_offset (state s') = Z.of_nat (Nat.min k 768)
  /\ (forall i, (768 <= i)%nat -> nth i out 0 = 0)
  /\ (forall px, (px < 384)%nat -> (2 * px + 1 < k)%nat ->
        Some (reg16 out (2 * px) (2 * px + 1)) = temp_to_int16_tenths (aget f px)).
Proof.
  intros Hidle Hf H. rewrite run_handler_rx in H.
  set (s0 := receive_byte s (Z.of_nat REG_FRAME_DATA_START)) in H.
  assert (S0 : s0 = set_state s (set_offset (set_register (state s) REG_FRAME_DATA_START) 0)).
  { unfold s0, receive_byte. cbv zeta. rewrite Hidle. reflexivity. }
  apply (stream_reads f k s0 s' 0%nat out) in H as (L & S' & N);
    [| rewrite S0; reflexivity | rewrite S0; exact Hf | rewrite S0; reflexivity | lia].
  split; [exact L|]. split; [rewrite S', S0; reflexivity|].
  split; [rewrite S', S0; reflexivity|]. split.
  - intros i Hi. destruct (Nat.lt_ge_cases i k) as [Hik|Hik].
    + specialize (N i Hik). cbn [Nat.add] in N.
      destruct (Nat.ltb_spec i 768); [lia|]. exact N.
    + apply nth_overflow. lia.
  - intros px Hpx Hk.
    pose proof (N (2 * px)%nat ltac:(lia)) as N0.
    pose proof (N (2 * px + 1)%nat ltac:(lia)) as N1.
    cbn [Nat.add] in N0, N1.
    destruct (Nat.ltb_spec (2 * px) 768); [|lia].
    destruct (Nat.ltb_spec (2 * px + 1) 768); [|lia].
    unfold stream_byte in N0, N1.
    replace ((2 * px) / 2)%nat with px in N0
      by (rewrite Nat.mul_comm, Nat.div_mul by lia; reflexivity).
    replace ((2 * px + 1) / 2)%nat with px in N1
      by (apply (Nat.div_unique _ 2 px 1); lia).
    replace ((2 * px) mod 2)%nat with 0%nat in N0
      by (symmetry; rewrite Nat.mul_comm; apply Nat.Div0.mod_mul).
    replace ((2 * px + 1) mod 2)%nat with 1%nat in N1
      by (apply (Nat.mod_unique _ 2 px 1); lia).
    destruct (temp_to_int16_tenths (aget f px)) as [t|] eqn:Et; [|discriminate].
    cbn [mbind option_bind Nat.eqb] in N0, N1. injection N0 as N0. injection N1 as N1.
    unfold reg16.
    replace (nth (2 * px) out 0) with (lo_byte t) by (symmetry; exact N0).
    replace (nth (2 * px + 1) out 0) with (hi_byte t) by (symmetry; exact N1).
    f_equal.
    apply int16_round_trip. apply (temp_to_int16_tenths_range _ _ Et).
Qed.

Lemma read_transaction_witness :
  run_handler (rx 0x10 :: replicate 2 rd ++ [stop]) slave_init
  = Some (slave_init, [1; 0]).
Proof.
  apply (proj1 (read_transaction 0x10 2 slave_init eq_refl ltac:(lia)
                  ltac:(vm_compute; lia)
                  ltac:(intros i Hi; destruct i as [|[|i]]; vm_compute; lia))).
Defined.

Lemma frame_stream_witness :
  Some (reg16 (snd streamed_sample) 0 1)
  = temp_to_int16_tenths (aget (frame_of_columns cooling_band) 0).
Proof.
  assert (R : run_handler (rx (Z.of_nat REG_FRAME_DATA_START) :: replicate 4 rd)
                          slave_streaming
              = Some (fst streamed_sample, snd streamed_sample))
    by (vm_compute; reflexivity).
  destruct (frame_stream 4 (frame_of_columns cooling_band) slave_streaming
              (fst streamed_sample) (snd streamed_sample) eq_refl eq_refl R)
    as (_ & _ & _ & _ & P).
  apply (P 0%nat); lia.
Defined.

End Transactions.

Section SlaveInvariant.

Import Thermal I2CSlave.

Lemma land_byte (d : Z) : is_byte (Z.land d 0xFF).
Proof.
  unfold is_byte. change (Z.land d 0xFF) with (lo_byte d). rewrite lo_byte_mod. zlia.
Qed.

Lemma land_byte_idem (d : Z) : Z.land (Z.land d 0xFF) 0xFF = Z.land d 0xFF.
Proof. rewrite <- Z.land_assoc. reflexivity. Qed.

Lemma read_request_ok (s s' : Slave) (v : Z) :
  slave_ok s -> read_request s = Some (s', v) -> slave_ok s'.
Proof.
  intros (L & C & O & E & V & M & A & B). unfold read_request.
  destruct (current_register (state s) =? REG_FRAME_DATA_START)%nat.
  - destruct (current_frame s) as [f|].
    + destruct (Z.ltb_spec (frame_read_offset (state s)) 768).
      * destruct (stream_byte f _) as [b|]; [|discriminate].
        cbn [mbind option_bind]. intros [= <- <-].
        unfold slave_ok. cbn. rewrite Z.mod_small by lia.
        repeat split; try assumption; try lia; apply B; assumption.
      * intros [= <- <-]. repeat split; try assumption; try lia; apply B; assumption.
    + intros [= <- <-]. repeat split; try assumption; try lia; apply B; assumption.
  - intros [= <- <-]. unfold slave_ok.
    cbn [set_state set_register state register_map current_register frame_read_offset
         enabled output_mode slave_address].
    repeat split; try assumption; try lia; try (apply B; assumption).
Qed.

Lemma receive_byte_ok (s : Slave) (d : Z) :
  slave_ok s -> slave_ok (receive_byte s d).
Proof.
  intros (L & C & O & E & V & M & A & B). unfold receive_byte. cbv zeta.
  pose proof (land_byte d) as Hb.
  destruct (Nat.eqb_spec (current_register (state s)) 0xFF) as [E0|E0].
  - assert (Hc : (Z.to_nat (Z.land d 0xFF) < 256)%nat) by (unfold is_byte in Hb; lia).
    destruct (Z.to_nat (Z.land d 255) =? REG_FRAME_DATA_START)%nat;
      unfold slave_ok; cbn; repeat split; try assumption; try lia; apply B; assumption.
  - assert (Hm : ((current_register (state s) + 1) mod 256 < 256)%nat)
      by (apply Nat.mod_upper_bound; lia).
    unfold REG_CONFIG_START, REG_RESERVED_0F, REG_I2C_ADDRESS, REG_OUTPUT_MODE, REG_CMD,
      REG_FIRMWARE_VERSION in *.
    cbn [Nat.leb andb].
    destruct (Nat.leb_spec (current_register (state s)) 15) as [H1|H1].
    + assert (Bw : forall j, (j <= 15)%nat ->
                     is_byte (nth j (<[current_register (state s) := Z.land d 0xFF]>
                                       (register_map s)) 0)).
      { intros j Hj. destruct (Nat.eq_dec (current_register (state s)) j) as [<-|Hne].
        - rewrite nth_insert_eq by lia. exact Hb.
        - rewrite nth_insert_ne by exact Hne. apply B. exact Hj. }
      destruct (Nat.eqb_spec (current_register (state s)) 0) as [C0|C0];
        [|destruct (Nat.eqb_spec (current_register (state s)) 1) as [C1|C1]];
        unfold slave_ok;
        cbn [set_state set_map set_register set_address set_mode state register_map
             current_register frame_read_offset enabled output_mode slave_address];
        unfold REG_RESERVED_0F, REG_I2C_ADDRESS, REG_OUTPUT_MODE, REG_FIRMWARE_VERSION;
        rewrite length_insert.
      * rewrite C0. rewrite nth_insert_eq by lia. rewrite !nth_insert_ne by lia.
        rewrite C0 in Bw. repeat split; try assumption; try lia;
          try (apply Nat.mod_upper_bound; lia); apply Bw; assumption.
      * rewrite C1. rewrite nth_insert_eq by lia. rewrite !nth_insert_ne by lia.
        rewrite C1 in Bw. rewrite land_byte_idem.
        repeat split; try assumption; try lia;
          try (apply Nat.mod_upper_bound; lia); apply Bw; assumption.
      * rewrite !nth_insert_ne by lia.
        repeat split; try assumption; try lia;
          try (apply Nat.mod_upper_bound; lia); apply Bw; assumption.
    + destruct (Nat.eqb_spec (current_register (state s)) 255) as [C2|C2]; [contradiction|].
      unfold slave_ok. cbn. repeat split; try assumption; try lia; apply B; assumption.
Qed.

Lemma stop_detected_ok (s : Slave) : slave_ok s -> slave_ok (stop_detected s).
Proof.
  intros (L & C & O & E & V & M & A & B). unfold slave_ok. cbn.
  repeat split; try assumption; try lia; apply B; assumption.
Qed.

Lemma handler_ok (status : IrqStatus) (d : Z) (s s' : Slave) (sent : option Z) :
  slave_ok s -> i2c_slave_handler status d s = Some (s', sent) -> slave_ok s'.
Proof.
  intros H. unfold i2c_slave_handler.
  assert (G : forall r, (if RD_REQ status
                         then r ← read_request s; Some (fst r, Some (snd r))
                         else Some (s, None)) = Some r -> slave_ok (fst r)).
  { intros r. destruct (RD_REQ status).
    - destruct (read_request s) as [[s1 v]|] eqn:E; [|discriminate].
      cbn [mbind option_bind fst snd]. intros [= <-]. cbn [fst].
      apply (read_request_ok s s1 v H E).
    - intros [= <-]. exact H. }
  destruct (if RD_REQ status then _ else _) as [r|]; [|discriminate].
  specialize (G r eq_refl). cbn [mbind option_bind]. intros [= <- _].
  assert (G2 : slave_ok (if RX_FULL status then receive_byte (fst r) d else fst r))
    by (destruct (RX_FULL status); [apply receive_byte_ok|]; exact G).
  destruct (STOP_DET status); [apply stop_detected_ok|]; exact G2.
Qed.

Lemma update_ok (s s' : Slave) (data : FrameData) (fps : float)
      (frame : option (list float)) :
  slave_ok s -> i2c_slave_update_vars s data fps frame = Some s' -> slave_ok s'.
Proof.
  intros (L & C & O & E & V & M & A & B). unfold i2c_slave_update_vars.
  destruct (i2c_slave_update _ _ _ _ _) as [m|] eqn:U; [|discriminate].
  cbn [mbind option_bind]. intros [= <-].
  apply update_frame in U as (Lm & Fm).
  unfold slave_ok. cbn [state register_map].
  rewrite Lm, !Fm by reflexivity.
  do 7 (split; [first [assumption | lia]|]).
  intros j Hj. rewrite Fm; [apply B; exact Hj|].
  unfold REG_RESERVED_0F in Hj. unfold updated_register.
  destruct (Nat.leb_spec 0x11 j), (Nat.leb_spec 0x20 j), (Nat.leb_spec 0x30 j);
    try lia; reflexivity.
Qed.

Lemma set_output_mode_ok (mode : Z) (s : Slave) :
  slave_ok s -> slave_ok (i2c_slave_set_output_mode mode s).
Proof.
  intros (L & C & O & E & V & M & A & B). unfold i2c_slave_set_output_mode.
  unfold slave_ok in *.
  cbn [set_state set_map set_mode state register_map current_register frame_read_offset
       enabled output_mode slave_address].
  unfold REG_OUTPUT_MODE, REG_FIRMWARE_VERSION, REG_I2C_ADDRESS, REG_RESERVED_0F in *.
  rewrite length_insert, nth_insert_eq, !nth_insert_ne by lia.
  do 7 (split; [first [assumption | lia | reflexivity]|]).
  intros j Hj. destruct (Nat.eq_dec 1%nat j) as [<-|Hne].
  - rewrite nth_insert_eq by lia. apply land_byte.
  - rewrite nth_insert_ne by exact Hne. apply B. exact Hj.
Qed.

Lemma init_ok (address : Z) (s0 : Slave) :
  0 <= address < 128 -> slave_ok (i2c_slave_init address s0).
Proof.
  intros Ha. unfold slave_ok, i2c_slave_init. cbv zeta.
  cbn [state register_map current_register frame_read_offset enabled output_mode
       slave_address].
  split; [reflexivity|]. split; [lia|]. split; [lia|]. split; [reflexivity|].
  split; [reflexivity|]. split; [reflexivity|]. split.
  - change (address = Z.land address (Z.ones 7)). rewrite Z.land_ones by lia.
    rewrite Z.mod_small; lia.
  - intros j Hj. unfold REG_RESERVED_0F in Hj.
    do 16 (destruct j as [|j]; [cbn; unfold is_byte, OUTPUT_MODE_USB_SERIAL; lia|]). lia.
Qed.

Lemma run_ok (actions : list action) :
  forall s s', slave_ok s -> run actions s = Some s' -> slave_ok s'.
Proof.
  unfold run. induction actions as [|a actions IH]; intros s s' H R.
  - injection R as <-. exact H.
  - cbn [fold_left mbind option_bind] in R.
    destruct (step s a) as [s1|] eqn:E.
    + apply (IH s1 s'); [|exact R]. destruct a as [status d|data fps frame|mode].
      * cbn [step] in E. destruct (i2c_slave_handler status d s) as [[s2 o]|] eqn:E2;
          [|discriminate].
        cbn [mbind option_bind fst] in E. injection E as <-.
        apply (handler_ok _ _ _ _ _ H E2).
      * apply (update_ok _ _ _ _ _ H E).
      * injection E as <-. apply set_output_mode_ok, H.
    + exfalso. clear -R. induction actions as [|b actions IH]; [discriminate|].
      apply IH. exact R.
Qed.

Lemma emissivity_table : forallb emissivity_in_range (seqZ 0 256) = true.
Proof. vm_compute. reflexivity. Qed.

(** X8: from [i2c_slave_init] with a 7-bit address on, through any sequence
    of interrupts, register updates by the driver loop and calls of
    [i2c_slave_set_output_mode], the register map keeps its 256 entries,
    the register pointer stays below 256 and the frame offset within
    0..768, the slave stays enabled, the firmware-version register reads 1,
    [REG_OUTPUT_MODE] holds the low byte of the output mode in force, the
    slave address is [REG_I2C_ADDRESS] masked to 7 bits, and every
    configuration register holds a byte. *)
Theorem slave_invariant (address : Z) (actions : list action) (s0 s : Slave) :
  0 <= address < 128 ->
  run actions (i2c_slave_init address s0) = Some s ->
  slave_ok s.
Proof. intros Ha R. apply (run_ok actions _ s (init_ok address s0 Ha) R). Qed.

(** X9: whatever the master has written, the emissivity the driver loop
    reads with [i2c_slave_get_emissivity] is a finite value between 0 and
    1: the register byte is clamped to 100 before the division. *)
Theorem emissivity_is_a_fraction
        (address : Z) (actions : list action) (s0 s : Slave) :
  0 <= address < 128 ->
  run actions (i2c_slave_init address s0) = Some s ->
  isfinite (i2c_slave_get_emissivity s) = true
  /\ fle zero (i2c_slave_get_emissivity s) = true
  /\ fle (i2c_slave_get_emissivity s) (of_int 1) = true.
Proof.
  intros Ha R.
  pose proof (run_ok actions _ s (init_ok address s0 Ha) R) as (_ & _ & _ & _ & _ & _ & _ & B).
  specialize (B REG_EMISSIVITY ltac:(unfold REG_EMISSIVITY, REG_RESERVED_0F; lia)).
  pose proof (forallb_seqZ _ _ _ emissivity_table (nth REG_EMISSIVITY (register_map s) 0)
                            ltac:(unfold is_byte in B; lia)) as T.
  unfold emissivity_in_range in T. cbv zeta in T.
  apply andb_prop in T as [T T3]. apply andb_prop in T as [T1 T2].
  unfold i2c_slave_get_emissivity. cbv zeta. auto.
Qed.

Lemma slave_invariant_witness : slave_ok slave_after_actions.
Proof.
  apply (slave_invariant I2C_SLAVE_DEFAULT_ADDR actions_sample slave_zero).
  - vm_compute. split; [discriminate | reflexivity].
  - vm_compute. reflexivity.
Defined.

Lemma emissivity_is_a_fraction_witness :
  fle (i2c_slave_get_emissivity slave_after_actions) (of_int 1) = true.
Proof.
  apply (emissivity_is_a_fraction I2C_SLAVE_DEFAULT_ADDR actions_sample slave_zero).
  - vm_compute. split; [discriminate | reflexivity].
  - vm_compute. reflexivity.
Defined.

End SlaveInvariant.

(* ================================================================== *)
(** ** The span of the earlier algorithm *)
(* ================================================================== *)

Section EarlySpan.

Import Thermal.

Lemma grow_while_ray (ok : Z -> bool) (col : nat -> Z) (n k0 : nat) :
  exists m, (m <= n)%nat
    /\ grow_while ok (ray col k0 n) (col k0) = col (k0 + m)%nat
    /\ (forall j, (k0 < j <= k0 + m)%nat -> ok (col j) = true)
    /\ ((m < n)%nat -> ok (col (S (k0 + m))) = false).
Proof.
  revert k0. induction n as [|n IH]; intros k0.
  - exists 0%nat. cbn. rewrite Nat.add_0_r. repeat split; intros; lia.
  - unfold ray. cbn [seq map grow_while]. fold (ray col (S k0) n).
    destruct (ok (col (S k0))) eqn:Hok.
    + destruct (IH (S k0)) as (m & Hm & Hr & Ht & Hf).
      exists (S m). split; [lia|]. split.
      { rewrite Hr. f_equal. lia. }
      split.
      { intros j Hj. destruct (Nat.eq_dec j (S k0)) as [-> | Hne];
          [exact Hok | apply Ht; lia]. }
      { intros Hlt. replace (S (k0 + S m)) with (S (S k0 + m)) by lia.
        apply Hf. lia. }
    + exists 0%nat. rewrite Nat.add_0_r. split; [lia|]. split; [reflexivity|].
      split; [intros; lia|]. intros _. exact Hok.
Qed.

Lemma rev_seqZ_nat (n : nat) :
  rev (seqZ 0 (Z.of_nat n)) = map (fun k => Z.of_nat n - Z.of_nat k) (seq 1 n).
Proof.
  unfold seqZ. rewrite Nat2Z.id.
  induction n as [|n IH]; [reflexivity|].
  rewrite seq_S, fmap_app, rev_app_distr. cbn [fmap list_fmap rev app seq map].
  f_equal; [lia|]. rewrite IH. rewrite <- (seq_shift n 1), map_map.
  apply map_ext. intros k. lia.
Qed.

Lemma rev_seqZ_ray (c : Z) :
  0 <= c -> rev (seqZ 0 c) = ray (fun k => c - Z.of_nat k) 0 (Z.to_nat c).
Proof.
  intros Hc. unfold ray. rewrite <- (Z2Nat.id c) at 1 by exact Hc.
  rewrite rev_seqZ_nat. apply map_ext. intros k. lia.
Qed.

Lemma seqZ_ray (c n : Z) :
  seqZ (c + 1) n = ray (fun k => c + Z.of_nat k) 0 (Z.to_nat n).
Proof.
  unfold seqZ, ray. rewrite <- seq_shift, map_map.
  apply map_ext. intros k. lia.
Qed.

Lemma find_seed_range (profile : list float) : 0 <= find_seed profile < SENSOR_WIDTH.
Proof.
  unfold find_seed.
  assert (G : forall l (acc : float * Z),
             Forall (fun i => 0 <= i < SENSOR_WIDTH) l ->
             0 <= snd acc < SENSOR_WIDTH ->
             0 <= snd (fold_left (fun (acc : float * Z) i =>
                                    if fgt (aget profile (Z.to_nat i)) (fst acc)
                                    then (aget profile (Z.to_nat i), i) else acc)
                                 l acc) < SENSOR_WIDTH).
  { intros l. induction l as [|i l IH]; intros acc Hl Ha; [exact Ha|].
    cbn [fold_left]. apply Forall_cons in Hl as [Hi Hl].
    apply IH; [exact Hl|]. destruct (fgt _ _); [exact Hi | exact Ha]. }
  apply G.
  - apply Forall_forall. intros i Hi. apply elem_of_seqZ in Hi.
    unfold SENSOR_WIDTH in *. cbn beta. lia.
  - cbn [snd]. unfold SENSOR_WIDTH. change (32 ÷ 2) with 16. lia.
Qed.

(** The two growth loops from the seed. *)
Lemma grow_span_spec (ok : Z -> bool) (seed : Z) :
  0 <= seed < SENSOR_WIDTH ->
  let start := grow_while ok (rev (seqZ 0 seed)) seed in
  let end_ := grow_while ok (seqZ (seed + 1) (SENSOR_WIDTH - (seed + 1))) seed in
  0 <= start <= seed /\ seed <= end_ < SENSOR_WIDTH
  /\ (forall i, start <= i <= end_ -> i <> seed -> ok i = true)
  /\ (0 < start -> ok (start - 1) = false)
  /\ (end_ < SENSOR_WIDTH - 1 -> ok (end_ + 1) = false).
Proof.
  unfold SENSOR_WIDTH. intros Hseed. cbv zeta.
  rewrite (rev_seqZ_ray seed) by lia.
  replace (32 - (seed + 1)) with (31 - seed) by lia. rewrite (seqZ_ray seed).
  destruct (grow_while_ray ok (fun k => seed - Z.of_nat k) (Z.to_nat seed) 0)
    as (ml & Hml & Hl & Htl & Hfl).
  destruct (grow_while_ray ok (fun k => seed + Z.of_nat k) (Z.to_nat (31 - seed)) 0)
    as (mr & Hmr & Hr & Htr & Hfr).
  cbn beta in Hl, Hr, Htl, Htr, Hfl, Hfr.
  change (seed - Z.of_nat 0) with (seed - 0) in Hl. rewrite Z.sub_0_r in Hl.
  change (seed + Z.of_nat 0) with (seed + 0) in Hr. rewrite Z.add_0_r in Hr.
  rewrite Hl, Hr. cbn [Nat.add] in *.
  split; [lia|]. split; [lia|]. split; [|split].
  - intros i Hi Hne. destruct (Z.lt_ge_cases i seed) as [Hlt|Hge].
    + specialize (Htl (Z.to_nat (seed - i)) ltac:(lia)).
      replace (seed - Z.of_nat (Z.to_nat (seed - i))) with i in Htl by lia. exact Htl.
    + specialize (Htr (Z.to_nat (i - seed)) ltac:(lia)).
      replace (seed + Z.of_nat (Z.to_nat (i - seed))) with i in Htr by lia. exact Htr.
  - intros Hs. specialize (Hfl ltac:(lia)).
    replace (seed - Z.of_nat (S ml)) with (seed - Z.of_nat ml - 1) in Hfl by lia.
    exact Hfl.
  - intros He. specialize (Hfr ltac:(lia)).
    replace (seed + Z.of_nat (S mr)) with (seed + Z.of_nat mr + 1) in Hfr by lia.
    exact Hfr.
Qed.

Lemma detect_tyre_span_bounds (profile : list float) (cfg : ThermalConfig) :
  let d := detect_tyre_span profile cfg in
  0 <= span_start d <= span_end d /\ span_end d < SENSOR_WIDTH
  /\ tyre_width d = span_end d - span_start d + 1.
Proof.
  cbv zeta. unfold detect_tyre_span.
  destruct (fast_median (take WIDTH profile) WIDTH) as [pm sorted]. cbv zeta.
  match goal with
  | |- context [grow_while ?f _ _] =>
    destruct (grow_span_spec f (find_seed profile) (find_seed_range profile))
      as (B1 & B2 & _)
  end.
  match goal with
  | |- context [if ?c then _ else _] => destruct c
  end; cbn [span_start span_end tyre_width]; unfold SENSOR_WIDTH in *; lia.
Qed.

(** X10: [detect_tyre_span] always reports an ordered span of the sensor
    whose width field is the number of its columns.  When it reports a
    detection, that width is within the configured bounds and the profile
    MAD exceeds 0.5; the span contains the seed, every other column of it
    is above the threshold [median + mad_threshold * MAD], and the column
    on either side of it, if the sensor has one, is not. *)
Theorem detect_tyre_span_spec (profile : list float) (cfg : ThermalConfig) :
  let d := detect_tyre_span profile cfg in
  let seed := find_seed profile in
  (0 <= span_start d <= span_end d /\ span_end d < SENSOR_WIDTH
   /\ tyre_width d = span_end d - span_start d + 1)
  /\ (detected d = true ->
        (min_tyre_width cfg <= tyre_width d <= max_tyre_width cfg
         /\ fgt (profile_mad profile) (lit 5 10) = true)
        /\ span_start d <= seed <= span_end d
        /\ (forall i, span_start d <= i <= span_end d -> i <> seed ->
                      above profile cfg i = true)
        /\ (0 < span_start d -> above profile cfg (span_start d - 1) = false)
        /\ (span_end d < SENSOR_WIDTH - 1 ->
              above profile cfg (span_end d + 1) = false)).
Proof.
  intros d seed. split; [exact (detect_tyre_span_bounds profile cfg)|].
  subst d. unfold detect_tyre_span.
  unfold above, span_threshold, profile_mad, profile_median.
  destruct (fast_median (take WIDTH profile) WIDTH) as [pm sorted]. cbn [fst].
  cbv zeta. fold seed.
  set (thr := fadd pm (fmul (mad_threshold cfg) (fast_mad profile WIDTH pm))).
  set (ok := fun i : Z => fgt (aget profile (Z.to_nat i)) thr).
  destruct (grow_span_spec ok seed (find_seed_range profile))
    as (B1 & B2 & Hin & Hl & Hr).
  set (start := grow_while ok (rev (seqZ 0 seed)) seed) in *.
  set (end_ := grow_while ok (seqZ (seed + 1) (SENSOR_WIDTH - (seed + 1))) seed) in *.
  destruct (Z.geb_spec (end_ - start + 1) (min_tyre_width cfg)) as [G1|G1];
    [destruct (Z.leb_spec (end_ - start + 1) (max_tyre_width cfg)) as [G2|G2];
     [destruct (fgt (fast_mad profile WIDTH pm) (lit 5 10)) eqn:G3|]|];
    cbn [andb span_start span_end tyre_width detected]; try discriminate.
  intros _. split; [split; [lia | reflexivity]|].
  split; [lia|]. split; [exact Hin|]. split; [exact Hl | exact Hr].
Qed.

Lemma fle_key (x y : float) :
  valid x = true -> valid y = true -> fle x y = true ->
  isnan x = false /\ isnan y = false /\ key x <= key y.
Proof.
  intros Vx Vy H. unfold fle, SFleb in H.
  assert (Nx : isnan x = false) by (destruct x; [reflexivity..|discriminate|reflexivity]).
  assert (Ny : isnan y = false)
    by (destruct x, y; try reflexivity; discriminate).
  rewrite (compare_key x y Vx Vy Nx Ny) in H.
  split; [exact Nx|]. split; [exact Ny|].
  cbv beta iota in H.
  destruct (Z.compare_spec (key x) (key y)); [lia | lia | discriminate H].
Qed.

Lemma key_flt (x y : float) :
  valid x = true -> valid y = true -> isnan x = false -> isnan y = false ->
  key x < key y -> flt x y = true.
Proof.
  intros Vx Vy Nx Ny H. unfold flt, SFltb.
  rewrite (compare_key x y Vx Vy Nx Ny).
  apply Z.compare_lt_iff in H. rewrite H. reflexivity.
Qed.

Lemma seqZ_snoc (k : nat) :
  seqZ 0 (Z.of_nat (S k)) = seqZ 0 (Z.of_nat k) ++ [Z.of_nat k].
Proof.
  unfold seqZ. rewrite !Nat2Z.id, seq_S, fmap_app. cbn. do 2 f_equal. lia.
Qed.

Lemma seed_scan_inv (profile : list float) (k : nat) :
  all_valid profile ->
  let mx := fst (seed_scan profile k) in
  let idx := snd (seed_scan profile k) in
  valid mx = true /\ isnan mx = false
  /\ (forall i, (i < k)%nat -> fgt (aget profile i) mx = false)
  /\ ((mx = of_int (-300) /\ idx = SENSOR_WIDTH ÷ 2)
      \/ (0 <= idx < Z.of_nat k /\ mx = aget profile (Z.to_nat idx)
          /\ fgt mx (of_int (-300)) = true
          /\ forall i, (i < Z.to_nat idx)%nat -> fge (aget profile i) mx = false)).
Proof.
  intros Hv. induction k as [|k IH].
  - cbn. split; [reflexivity|]. split; [reflexivity|]. split; [intros; lia|].
    left. split; reflexivity.
  - unfold seed_scan in *. rewrite seqZ_snoc, fold_left_app. cbn [fold_left].
    set (acc := fold_left _ (seqZ 0 (Z.of_nat k)) _) in *.
    cbv zeta in IH. destruct IH as (Vm & Nm & Hall & Hcase).
    rewrite Nat2Z.id. pose proof (aget_valid profile k Hv) as Vx.
    set (x := aget profile k) in *.
    destruct (fgt x (fst acc)) eqn:Hgt; cbn [fst snd].
    + destruct (flt_key (fst acc) x Vm Vx Hgt) as (_ & Nx & Hk).
      split; [exact Vx|]. split; [exact Nx|].
      assert (Hprev : forall i, (i < k)%nat -> fge (aget profile i) x = false).
      { intros i Hi. destruct (fge (aget profile i) x) eqn:Hge; [|reflexivity].
        destruct (fle_key x (aget profile i) Vx (aget_valid profile i Hv) Hge)
          as (_ & Ni & Hki).
        rewrite <- (Hall i Hi). symmetry.
        apply key_flt; try assumption; [apply aget_valid; exact Hv | lia]. }
      split.
      * intros i Hi. destruct (Nat.eq_dec i k) as [->|Hne].
        { fold x. destruct (fgt x x) eqn:Hxx; [|reflexivity].
          destruct (flt_key x x Vx Vx Hxx) as (_ & _ & Hlt). lia. }
        destruct (fgt (aget profile i) x) eqn:Hix; [|reflexivity].
        destruct (flt_key x (aget profile i) Vx (aget_valid profile i Hv) Hix)
          as (_ & Ni & Hki).
        rewrite <- (Hall i ltac:(lia)). symmetry.
        apply key_flt; try assumption; [apply aget_valid; exact Hv | lia].
      * right. split; [lia|]. rewrite Nat2Z.id. fold x. split; [reflexivity|].
        split.
        { destruct Hcase as [[E _] | (_ & _ & G & _)].
          - rewrite <- E. exact Hgt.
          - destruct (flt_key (of_int (-300)) (fst acc) eq_refl Vm G) as (_ & _ & K1).
            apply key_flt; try assumption; try reflexivity. lia. }
        exact Hprev.
    + split; [exact Vm|]. split; [exact Nm|]. split.
      * intros i Hi. destruct (Nat.eq_dec i k) as [->|Hne];
          [exact Hgt | apply Hall; lia].
      * destruct Hcase as [Hc | (Hi & Hm & Hg & Hf)]; [left; exact Hc|].
        right. split; [lia|]. auto.
Qed.

Lemma find_seed_scan (profile : list float) :
  find_seed profile = snd (seed_scan profile 32).
Proof. unfold find_seed, seed_scan. do 2 f_equal. Qed.

(** X11: on a profile of binary32 values the seed search returns the middle
    column when no column is above [-300]; otherwise the seed column is
    above [-300], no column is above the seed's value, and no earlier
    column reaches it: the seed is the first column holding the maximum.
    A column holding NaN compares as neither above nor at least anything,
    so it can be the seed only as the default middle column. *)
Theorem find_seed_is_first_maximum (profile : list float) :
  all_valid profile ->
  let seed := find_seed profile in
  (seed = SENSOR_WIDTH ÷ 2
   /\ forall i, (i < WIDTH)%nat -> fgt (aget profile i) (of_int (-300)) = false)
  \/ (fgt (aget profile (Z.to_nat seed)) (of_int (-300)) = true
      /\ (forall i, (i < WIDTH)%nat ->
            fgt (aget profile i) (aget profile (Z.to_nat seed)) = false)
      /\ (forall i, (i < Z.to_nat seed)%nat ->
            fge (aget profile i) (aget profile (Z.to_nat seed)) = false)).
Proof.
  intros Hv seed. subst seed. rewrite find_seed_scan.
  destruct (seed_scan_inv profile 32 Hv) as (_ & _ & Hall & [[E1 E2] | (_ & E & G & F)]).
  - left. split; [exact E2|]. rewrite <- E1. exact Hall.
  - right. rewrite <- E. auto.
Qed.

Lemma find_seed_is_first_maximum_witness :
  fgt (aget row_hot (Z.to_nat (find_seed row_hot))) (of_int (-300)) = true
  /\ find_seed row_hot = 31.
Proof.
  assert (V : all_valid row_hot)
    by (unfold all_valid, row_hot; cbn [map];
        repeat (constructor; [reflexivity|]); constructor).
  destruct (find_seed_is_first_maximum row_hot V) as [[E H] | (G & _)].
  - exfalso. vm_compute in E. discriminate.
  - split; [exact G | vm_compute; reflexivity].
Defined.

Lemma analyze_zone_count (profile : list float) (s e : Z) :
  0 <= s -> e < SENSOR_WIDTH ->
  count (analyze_zone profile s e) = Z.max 0 (e - s + 1).
Proof.
  unfold SENSOR_WIDTH. intros Hs He. unfold analyze_zone, SENSOR_WIDTH.
  destruct (Z.ltb_spec s 0); [lia|]. destruct (Z.geb_spec e 32); [lia|].
  cbv zeta.
  destruct (Z.leb_spec (e - s + 1) 0); cbn [orb]; [cbn; lia|].
  destruct (Z.gtb_spec (e - s + 1) 32); [lia|].
  destruct (fast_median _ _) as [med zd]. cbn [count]. lia.
Qed.

(** X12: [thermal_algorithm_process] increments the 32-bit frame counter
    and reports it as the frame number; the warning flags are within 0..3.
    Without a detection the left and right zones are all zero, the centre
    zone covers the 32 columns, and the gradient and the warnings are 0.
    With a detection of width [w] the left and right zones have [w / 3]
    columns each and the centre zone the remaining [w - 2 * (w / 3)], at
    least one: the three zones count every column of the span once. *)
Theorem thermal_algorithm_process_zones
        (frame : list float) (cfg : ThermalConfig) (n : Z) :
  let r := fst (thermal_algorithm_process frame cfg n) in
  let d := detection r in
  (snd (thermal_algorithm_process frame cfg n) = (n + 1) mod 2 ^ 32
   /\ frame_number r = (n + 1) mod 2 ^ 32
   /\ d = detect_tyre_span (extract_middle_rows frame) cfg
   /\ 0 <= warnings r <= 3)
  /\ (detected d = false ->
        left r = zone_zero /\ right r = zone_zero
        /\ count (centre r) = SENSOR_WIDTH
        /\ lateral_gradient r = zero /\ warnings r = 0)
  /\ (detected d = true ->
        let third := tyre_width d ÷ 3 in
        count (left r) = third /\ count (right r) = third
        /\ count (centre r) = tyre_width d - 2 * third
        /\ 1 <= count (centre r)
        /\ count (left r) + count (centre r) + count (right r) = tyre_width d).
Proof.
  unfold thermal_algorithm_process. cbv zeta.
  pose proof (detect_tyre_span_bounds (extract_middle_rows frame) cfg) as B.
  cbv zeta in B. unfold SENSOR_WIDTH in B.
  destruct (detected (detect_tyre_span (extract_middle_rows frame) cfg)) eqn:D;
    cbn [fst snd detection frame_number warnings left right centre lateral_gradient].
  - rewrite D. split.
    + split; [reflexivity|]. split; [reflexivity|]. split; [reflexivity|].
      destruct (fgt _ _), (fgt _ _);
        [change (Z.lor 1 2) with 3 | change (Z.lor 1 0) with 1
        | change (Z.lor 0 2) with 2 | change (Z.lor 0 0) with 0]; lia.
    + split; [discriminate|]. intros _.
      set (d := detect_tyre_span (extract_middle_rows frame) cfg) in *.
      rewrite !analyze_zone_count by (unfold SENSOR_WIDTH; zlia).
      zlia.
  - rewrite D. split; [|split; [|discriminate]].
    + split; [reflexivity|]. split; [reflexivity|]. split; [reflexivity|]. lia.
    + intros _. split; [reflexivity|]. split; [reflexivity|].
      split; [|split; reflexivity].
      rewrite analyze_zone_count by (unfold SENSOR_WIDTH; lia). reflexivity.
Qed.

End EarlySpan.

(* ================================================================== *)
(** ** Signs of the statistics, thresholds and clipping *)
(* ================================================================== *)

Section FloatSigns.

Lemma SFcompare_antisym (x y : float) :
  SFcompare y x = option_map CompOpp (SFcompare x y).
Proof.
  destruct x as [sx|sx| |sx mx ex], y as [sy|sy| |sy my ey]; cbn [SFcompare option_map];
    try reflexivity; try (destruct sx; reflexivity); try (destruct sy; reflexivity);
    try (destruct sx, sy; reflexivity).
  f_equal. destruct sx, sy; try reflexivity.
  - rewrite (Z.compare_antisym ex ey). destruct (ex ?= ey); cbn [CompOpp]; try reflexivity.
    rewrite (Pos.compare_cont_antisym mx my Eq). cbn [CompOpp]. reflexivity.
  - rewrite (Z.compare_antisym ex ey). destruct (ex ?= ey); cbn [CompOpp]; try reflexivity.
    rewrite (Pos.compare_cont_antisym mx my Eq). cbn [CompOpp].
    destruct (Pos.compare_cont Eq mx my); reflexivity.
Qed.

(** Of two values neither of which is NaN, one is below the other or the
    other is at most the one. *)
Lemma flt_false_fle (x y : float) :
  isnan x = false -> isnan y = false -> flt x y = false -> fle y x = true.
Proof.
  intros Nx Ny. unfold flt, fle, SFltb, SFleb. rewrite (SFcompare_antisym x y).
  destruct (SFcompare x y) as [[]|] eqn:E; cbn; try congruence.
  destruct x, y; try discriminate.
Qed.

Lemma fle_true_flt (x y : float) : fle x y = true -> flt y x = false.
Proof.
  unfold flt, fle, SFltb, SFleb. rewrite (SFcompare_antisym x y).
  destruct (SFcompare x y) as [[]|]; cbn; congruence.
Qed.

Lemma flt_fle (x y : float) : flt x y = true -> fle x y = true.
Proof. unfold flt, fle, SFltb, SFleb. destruct (SFcompare x y) as [[]|]; congruence. Qed.

Lemma flt_not_nan (x y : float) : flt x y = true -> isnan x = false /\ isnan y = false.
Proof. destruct x, y; try discriminate; split; reflexivity. Qed.

Lemma sign_clear_not_negative (x : float) : sign_clear x = true -> not_negative x.
Proof. destruct x as [[]|[]| |[] m e]; try discriminate; reflexivity. Qed.

Lemma binary_round_aux_sign_clear (m e : Z) (l : location) :
  sign_clear (binary_round_aux prec emax false m e l) = true.
Proof.
  unfold binary_round_aux.
  destruct (shr_fexp prec emax m e l) as [mrs' e'].
  destruct (shr_fexp prec emax _ e' loc_Exact) as [mrs'' e''].
  destruct (shr_m mrs'') as [|p|p]; try reflexivity.
  destruct (e'' <=? emax - prec); reflexivity.
Qed.

Lemma binary_normalize_sign_clear (z e : Z) :
  0 <= z -> sign_clear (binary_normalize prec emax z e false) = true.
Proof.
  intros Hz. destruct z as [|p|p]; cbn [binary_normalize]; [reflexivity| |lia].
  unfold binary_round. destruct (shl_align _ _ _) as [mz ez].
  apply binary_round_aux_sign_clear.
Qed.

Lemma of_int_sign_clear (z : Z) : 0 <= z -> sign_clear (of_int z) = true.
Proof. apply binary_normalize_sign_clear. Qed.

Lemma fabsf_sign_clear (x : float) : sign_clear (fabsf x) = true.
Proof. destruct x; reflexivity. Qed.

Lemma fadd_sign_clear (x y : float) :
  sign_clear x = true -> sign_clear y = true -> sign_clear (fadd x y) = true.
Proof.
  destruct x as [[]|[]| |[] mx ex], y as [[]|[]| |[] my ey]; try discriminate;
    intros _ _; try reflexivity.
  unfold fadd, SFadd. apply binary_normalize_sign_clear.
  cbn [cond_Zopp]. lia.
Qed.

Lemma fmul_sign_clear (x y : float) :
  sign_clear x = true -> sign_clear y = true -> sign_clear (fmul x y) = true.
Proof.
  destruct x as [[]|[]| |[] mx ex], y as [[]|[]| |[] my ey]; try discriminate;
    intros _ _; try reflexivity.
  unfold fmul, SFmul. cbn [xorb]. apply binary_round_aux_sign_clear.
Qed.

Lemma fmul_self_sign_clear (x : float) : sign_clear (fmul x x) = true.
Proof.
  destruct x as [[]|[]| |[] mx ex]; try reflexivity;
    unfold fmul, SFmul; cbn [xorb]; apply binary_round_aux_sign_clear.
Qed.

Lemma fdiv_sign_clear (x y : float) :
  sign_clear x = true -> sign_clear y = true -> sign_clear (fdiv x y) = true.
Proof.
  destruct x as [[]|[]| |[] mx ex], y as [[]|[]| |[] my ey]; try discriminate;
    intros _ _; try reflexivity.
  unfold fdiv, SFdiv. cbn [xorb].
  destruct (SFdiv_core_binary _ _ _ _ _ _) as [[mz ez] lz].
  apply binary_round_aux_sign_clear.
Qed.

Lemma sqrtf_sign_clear (x : float) : sign_clear x = true -> sign_clear (sqrtf x) = true.
Proof.
  destruct x as [[]|[]| |[] mx ex]; try discriminate; intros _; try reflexivity.
  unfold sqrtf, SFsqrt.
  destruct (SFsqrt_core_binary _ _ _ _) as [[mz ez] lz].
  apply binary_round_aux_sign_clear.
Qed.

End FloatSigns.

Section Statistics.

Import Detect.

Lemma aget_sign_clear (l : list float) (i : nat) :
  all_sign_clear l -> sign_clear (aget l i) = true.
Proof.
  intros H. unfold aget. destruct (nth_in_or_default i l zero) as [Hin | ->];
    [|reflexivity].
  unfold all_sign_clear in H. rewrite Forall_forall in H. apply H.
  apply list_elem_of_In. exact Hin.
Qed.

Lemma swap_if_gt_sign_clear (i : nat) (arr : list float) (j : nat) :
  all_sign_clear arr -> all_sign_clear (swap_if_gt i arr j).
Proof.
  intros H. unfold swap_if_gt. destruct (fgt _ _); [|exact H].
  apply Forall_insert; [apply Forall_insert; [exact H|]|]; apply aget_sign_clear, H.
Qed.

Lemma sort_in_place_sign_clear (arr : list float) (n : nat) :
  all_sign_clear arr -> all_sign_clear (sort_in_place arr n).
Proof.
  unfold sort_in_place. generalize (seq 0 (n - 1)). intros l. revert arr.
  induction l as [|i l IH]; intros arr H; [exact H|].
  cbn [fold_left]. apply IH. unfold sort_inner.
  generalize (seq (i + 1) (n - (i + 1))). intros l'. revert arr H.
  induction l' as [|j l' IH']; intros arr H; [exact H|].
  cbn [fold_left]. apply IH'. apply swap_if_gt_sign_clear, H.
Qed.

Lemma quick_select_median_sign_clear (arr : list float) (n : nat) :
  all_sign_clear arr -> sign_clear (quick_select_median arr n) = true.
Proof.
  intros H. unfold quick_select_median.
  destruct n as [|[|n]]; [reflexivity | apply aget_sign_clear, H |].
  pose proof (sort_in_place_sign_clear arr (S (S n)) H) as Hs.
  cbv zeta. destruct (_ =? _)%nat.
  - apply fdiv_sign_clear; [|reflexivity].
    apply fadd_sign_clear; apply aget_sign_clear, Hs.
  - apply aget_sign_clear, Hs.
Qed.

Lemma calculate_median_sign_clear (data : list float) (n : nat) :
  all_sign_clear data -> sign_clear (calculate_median data n) = true.
Proof.
  intros H. unfold calculate_median. cbv zeta.
  apply quick_select_median_sign_clear. apply Forall_take, H.
Qed.

Lemma calculate_mad_sign_clear (data : list float) (n : nat) :
  sign_clear (calculate_mad data n) = true.
Proof.
  unfold calculate_mad. destruct n as [|n]; [reflexivity|]. cbv zeta.
  apply fmul_sign_clear; [|reflexivity].
  apply calculate_median_sign_clear. apply Forall_map, Forall_forall.
  intros x _. apply fabsf_sign_clear.
Qed.

Lemma calculate_std_sign_clear (data : list float) (n : nat) :
  sign_clear (calculate_std data n) = true.
Proof.
  unfold calculate_std. destruct n as [|n]; [reflexivity|]. cbv zeta.
  apply sqrtf_sign_clear, fdiv_sign_clear; [|apply of_int_sign_clear; lia].
  set (mean := fdiv _ (of_int (Z.of_nat (S n)))). clearbody mean.
  generalize (seq 0 (S n)). intros l.
  assert (G : forall s, sign_clear s = true ->
                sign_clear (fold_left (fun s i => fadd s (fmul (fsub (aget data i) mean)
                                                               (fsub (aget data i) mean)))
                                      l s) = true).
  { induction l as [|i l IH]; intros s Hs; [exact Hs|].
    cbn [fold_left]. apply IH, fadd_sign_clear; [exact Hs|apply fmul_self_sign_clear]. }
  apply G. reflexivity.
Qed.

(** X13: whatever the data, also with NaN or infinite entries, the scaled
    median absolute deviation [calculate_mad] and the standard deviation
    [calculate_std] are NaN or have a clear sign bit; neither is ever below
    zero. *)
Theorem deviation_statistics_never_negative (data : list float) (n : nat) :
  (sign_clear (calculate_mad data n) = true /\ not_negative (calculate_mad data n))
  /\ (sign_clear (calculate_std data n) = true /\ not_negative (calculate_std data n)).
Proof.
  split; (split; [|apply sign_clear_not_negative]).
  - apply calculate_mad_sign_clear.
  - apply calculate_mad_sign_clear.
  - apply calculate_std_sign_clear.
  - apply calculate_std_sign_clear.
Qed.

Lemma fmaxf_floor (c y : float) :
  isnan c = false -> fle c c = true ->
  fle c (fmaxf c y) = true /\ isnan (fmaxf c y) = false.
Proof.
  intros Nc Hc. unfold fmaxf. rewrite Nc.
  destruct (isnan y) eqn:Ny; [split; assumption|].
  destruct (flt c y) eqn:Hlt; [|split; assumption].
  split; [apply flt_fle, Hlt | exact Ny].
Qed.

(** X14: the two thresholds of the region growing never fall below their
    floors and are never NaN, whatever the profile, the median and the MAD
    are (NaN and infinities included): [delta >= delta_floor] and
    [k >= k_floor]. *)
Theorem grow_params_floors (profile : list float) (median_temp mad_global : float) :
  let p := grow_params profile median_temp mad_global in
  (fle (delta_floor config) (g_delta p) = true /\ isnan (g_delta p) = false)
  /\ (fle (k_floor config) (g_k p) = true /\ isnan (g_k p) = false).
Proof.
  intros p. subst p. unfold grow_params. cbv zeta. cbn [g_delta g_k].
  split; apply fmaxf_floor; reflexivity.
Qed.

Lemma clip_temp_nan (x : float) : isnan x = true -> clip_temp x = x.
Proof. destruct x; try discriminate. reflexivity. Qed.

Lemma clip_temp_between (x : float) :
  isnan x = false -> between (min_temp config) (max_temp config) (clip_temp x) = true.
Proof.
  intros Nx. unfold clip_temp, between. cbv zeta.
  destruct (flt x (min_temp config)) eqn:Hlo.
  - reflexivity.
  - destruct (fgt x (max_temp config)) eqn:Hhi; [reflexivity|].
    rewrite (flt_false_fle x (min_temp config) Nx eq_refl Hlo).
    rewrite (flt_false_fle (max_temp config) x eq_refl Nx Hhi). reflexivity.
Qed.

Lemma clip_temp_inside (x : float) :
  between (min_temp config) (max_temp config) x = true -> clip_temp x = x.
Proof.
  unfold between. intros [H1 H2]%andb_prop. unfold clip_temp. cbv zeta.
  rewrite (fle_true_flt _ _ H1).
  change (fgt x (max_temp config)) with (flt (max_temp config) x).
  rewrite (fle_true_flt _ _ H2).
  reflexivity.
Qed.

(** X15: the clipping to [min_temp, max_temp] leaves NaN as it is, maps
    every other value into the interval and leaves a value of the interval
    unchanged; so every entry of the column profile is NaN or within
    [min_temp, max_temp]. *)
Theorem clip_temp_spec (x : float) (middle_rows : list (list float)) (col : nat) :
  (isnan x = true -> clip_temp x = x)
  /\ (isnan x = false ->
        between (min_temp config) (max_temp config) (clip_temp x) = true)
  /\ (between (min_temp config) (max_temp config) x = true -> clip_temp x = x)
  /\ (let v := aget (column_profile middle_rows) col in
      isnan v = true \/ between (min_temp config) (max_temp config) v = true).
Proof.
  split; [apply clip_temp_nan|]. split; [apply clip_temp_between|].
  split; [apply clip_temp_inside|]. cbv zeta.
  unfold column_profile. set (l := map _ (seq 0 WIDTH)).
  change (aget l col) with (nth col l zero).
  destruct (nth_in_or_default col l zero) as [Hin | ->].
  - subst l. apply in_map_iff in Hin as (c & <- & _).
    set (m := calculate_median _ _).
    destruct (isnan m) eqn:Nm.
    + left. rewrite (clip_temp_nan m Nm). exact Nm.
    + right. apply clip_temp_between, Nm.
  - right. reflexivity.
Qed.

End Statistics.

(* ================================================================== *)
(** ** Stabilizer stages, zones and the median filter *)
(* ================================================================== *)

Section StabilizerStages.

Import Detect.

Lemma geometry_case_table :
  forallb (fun l => forallb (fun r => if l <=? r then geometry_case l r else true)
                            (seqZ 0 SENSOR_WIDTH)) (seqZ 0 SENSOR_WIDTH) = true.
Proof. vm_compute. reflexivity. Qed.

(** X16: on an ordered span of the sensor the geometry clamp returns an
    ordered span of the sensor whose width is at least [min_tyre_width - 1]
    and at most [max_tyre_width + 1].  A span narrower than the minimum is
    widened to a span containing it, by twice the integer half of the
    shortfall; a span wider than the maximum is narrowed to a span inside
    it, by twice the integer half of the excess; so an odd shortfall or
    excess leaves the width one column off the bound.  A span within the
    bounds is returned unchanged. *)
Theorem geometry_clamp_widths (s : Z * Z) :
  span_ok s ->
  let s' := apply_geometry_constraints s in
  span_ok s'
  /\ min_tyre_width config - 1 <= span_width s' <= max_tyre_width config + 1
  /\ (span_width s < min_tyre_width config ->
        span_within s s'
        /\ span_width s' = span_width s + 2 * ((min_tyre_width config - span_width s) ÷ 2))
  /\ (max_tyre_width config < span_width s ->
        span_within s' s
        /\ span_width s' = span_width s - 2 * ((span_width s - max_tyre_width config) ÷ 2))
  /\ (min_tyre_width config <= span_width s <= max_tyre_width config -> s' = s).
Proof.
  destruct s as [l r]. unfold span_ok. cbn [fst snd]. intros [[Hl Hlr] Hr].
  pose proof (forallb_seqZ _ _ _ geometry_case_table l ltac:(lia)) as T.
  cbn beta in T.
  pose proof (forallb_seqZ _ _ _ T r ltac:(lia)) as T'. cbn beta in T'.
  destruct (Z.leb_spec l r); [|lia]. clear T.
  unfold geometry_case in T'. cbv zeta in T'.
  set (s' := apply_geometry_constraints (l, r)) in *.
  unfold span_width, span_within. cbn [fst snd].
  apply andb_prop in T' as [T' T7]. apply andb_prop in T' as [T' T6].
  apply andb_prop in T' as [T' T5]. apply andb_prop in T' as [T' T4].
  apply andb_prop in T' as [T' T3]. apply andb_prop in T' as [T1 T2].
  apply Z.leb_le in T1, T2, T4, T5. apply Z.ltb_lt in T3.
  split; [lia|]. split; [lia|]. split; [|split].
  - intros Hw. destruct (Z.ltb_spec (r - l + 1) (min_tyre_width config)); [|lia].
    apply andb_prop in T6 as [T6 T6c]. apply andb_prop in T6 as [T6a T6b].
    apply Z.leb_le in T6a, T6b. apply Z.eqb_eq in T6c. lia.
  - intros Hw. destruct (Z.gtb_spec (r - l + 1) (max_tyre_width config)); [|lia].
    apply andb_prop in T7 as [T7 T7c]. apply andb_prop in T7 as [T7a T7b].
    apply Z.leb_le in T7a, T7b. apply Z.eqb_eq in T7c. lia.
  - intros Hw. apply geometry_noop_on_sensor.
    + unfold on_sensor. cbn [fst snd]. lia.
    + unfold width_in_bounds, span_width. cbn [fst snd]. exact Hw.
Qed.

(** X17: with two stored detections (a0, b0) and (a1, b1), ordered spans
    of the sensor, persistence smoothing of the ordered span (l, r) returns
    the weighted averages [(a0 + 4 a1 + 9 l) / 14] and
    [(b0 + 4 b1 + 9 r) / 14], rounded down; the history becomes the newer
    stored detection followed by this smoothed span, not the span given.
    The result is an ordered span of the sensor and each end lies between
    the smallest and the largest of the three values averaged. *)
Theorem persistence_weighted_average
        (st : TemporalState) (a0 b0 a1 b1 l r : Z) :
  prev_detection_count st = 2 ->
  prev_detections st = [(a0, b0); (a1, b1)] ->
  span_ok (a0, b0) -> span_ok (a1, b1) -> span_ok (l, r) ->
  let out := fst (apply_persistence st (l, r)) in
  let st' := snd (apply_persistence st (l, r)) in
  out = ((a0 + 4 * a1 + 9 * l) / 14, (b0 + 4 * b1 + 9 * r) / 14)
  /\ prev_detections st' = [(a1, b1); out]
  /\ prev_detection_count st' = 2
  /\ span_ok out
  /\ Z.min a0 (Z.min a1 l) <= fst out <= Z.max a0 (Z.max a1 l)
  /\ Z.min b0 (Z.min b1 r) <= snd out <= Z.max b0 (Z.max b1 r).
Proof.
  unfold span_ok. cbn [fst snd]. change SENSOR_WIDTH with 32.
  intros Hc Hh H0 H1 H.
  rewrite (apply_persistence_full st a0 b0 a1 b1 l r Hc Hh). cbn [fst snd].
  rewrite !weighted_avg_spec by lia.
  split; [reflexivity|]. split; [reflexivity|]. split; [reflexivity|].
  repeat split; zlia.
Qed.

Lemma geometry_clamp_widths_witness :
  span_width (apply_geometry_constraints (14, 16)) = 5
  /\ span_within (14, 16) (apply_geometry_constraints (14, 16)).
Proof.
  destruct (geometry_clamp_widths (14, 16)) as (_ & _ & N & _).
  - unfold span_ok, SENSOR_WIDTH; cbn [fst snd]; lia.
  - destruct N as [W E]; [vm_compute; reflexivity|].
    split; [rewrite E; reflexivity | exact W].
Defined.

Lemma persistence_weighted_average_witness :
  fst (apply_persistence state_full (12, 22)) = (11, 21).
Proof.
  assert (S : forall l r, 0 <= l <= r -> r < 32 -> span_ok (l, r))
    by (intros l r H1 H2; unfold span_ok, SENSOR_WIDTH; cbn [fst snd]; lia).
  destruct (persistence_weighted_average state_full 10 20 11 21 12 22
              eq_refl eq_refl (S 10 20 ltac:(lia) ltac:(lia))
              (S 11 21 ltac:(lia) ltac:(lia)) (S 12 22 ltac:(lia) ltac:(lia)))
    as (E & _).
  rewrite E. reflexivity.
Defined.

End StabilizerStages.

Section Zones.

Import Detect.

Lemma zone_cols_inside (l r : Z) :
  r < SENSOR_WIDTH -> zone_cols l r = seqZ l (r - l + 1).
Proof. intros H. unfold zone_cols. rewrite Z.min_l by lia. reflexivity. Qed.

Lemma seqZ_split (m a b : Z) :
  0 <= a -> 0 <= b -> seqZ m (a + b) = seqZ m a ++ seqZ (m + a) b.
Proof. intros Ha Hb. apply seqZ_app; assumption. Qed.

Lemma zone_pixels_length (frame : list float) (l r : Z) :
  length (zone_pixels frame l r) = (4 * length (zone_cols l r))%nat.
Proof.
  unfold zone_pixels, band_rows. cbn [seq flat_map MIDDLE_ROWS START_ROW].
  rewrite !length_app, !length_map. cbn. lia.
Qed.

Lemma zone_pixels_valid (frame : list float) (l r : Z) :
  all_valid frame -> all_valid (zone_pixels frame l r).
Proof.
  intros H. unfold zone_pixels, all_valid. apply Forall_flat_map, Forall_forall.
  intros row _. apply Forall_map, Forall_forall. intros c _. apply aget_valid, H.
Qed.

(** X18: for an ordered span of the sensor [analyze_tyre] reports the span,
    its width and [detected = 1].  When the width [w] is at least 3 the
    left, centre and right zones are the first [w / 3] columns, the middle
    columns and the last [w / 3] columns: consecutive, disjoint and
    together the whole span, the centre zone having up to two columns more
    than the outer ones.  When the width is 1 or 2 the zones overlap: the
    left zone is the first column, the right zone the last one and the
    centre zone the whole span. *)
Theorem analyze_tyre_zones (frame profile : list float) (l r : Z) :
  span_ok (l, r) ->
  let d := analyze_tyre frame profile l r in
  let w := r - l + 1 in
  let t := w ÷ 3 in
  (tyre_width d = w /\ span_start d = l /\ span_end d = r /\ detected d = 1)
  /\ (3 <= w ->
        left d = calculate_zone_stats frame l (l + t - 1)
        /\ centre d = calculate_zone_stats frame (l + t) (r - t)
        /\ right d = calculate_zone_stats frame (r - t + 1) r
        /\ zone_cols l (l + t - 1) ++ zone_cols (l + t) (r - t) ++ zone_cols (r - t + 1) r
           = zone_cols l r
        /\ 1 <= t /\ t <= w - 2 * t <= t + 2)
  /\ (w < 3 ->
        left d = calculate_zone_stats frame l l
        /\ centre d = calculate_zone_stats frame l r
        /\ right d = calculate_zone_stats frame r r).
Proof.
  unfold span_ok. cbn [fst snd]. change SENSOR_WIDTH with 32. intros [[Hl Hlr] Hr].
  cbv zeta. unfold analyze_tyre. cbv zeta.
  cbn [left centre right tyre_width span_start span_end detected].
  split; [repeat split|]. split.
  - intros Hw. set (t := (r - l + 1) ÷ 3) in *.
    assert (Ht : 1 <= t /\ t <= r - l + 1 - 2 * t <= t + 2) by (subst t; zlia).
    destruct (Z.ltb_spec (l + t - 1) l); [lia|].
    destruct (Z.ltb_spec (r - t) (l + t)); [lia|].
    destruct (Z.gtb_spec (r - t + 1) r); [lia|].
    split; [reflexivity|]. split; [reflexivity|]. split; [reflexivity|].
    split; [|exact Ht].
    rewrite !zone_cols_inside by (unfold SENSOR_WIDTH; lia).
    set (m := r - l + 1 - 2 * t) in *.
    replace (l + t - 1 - l + 1) with t by lia.
    replace (r - t - (l + t) + 1) with m by (subst m; lia).
    replace (r - (r - t + 1) + 1) with t by lia.
    replace (r - t + 1) with (l + t + m) by (subst m; lia).
    rewrite <- (seqZ_split (l + t) m t) by lia.
    rewrite <- (seqZ_split l t (m + t)) by lia.
    f_equal. subst m. lia.
  - intros Hw. set (t := (r - l + 1) ÷ 3) in *.
    assert (Ht : t = 0) by (subst t; zlia). rewrite Ht.
    destruct (Z.ltb_spec (l + 0 - 1) l); [|lia].
    rewrite Z.add_0_r, Z.sub_0_r.
    destruct (Z.ltb_spec r l); [lia|].
    destruct (Z.gtb_spec (r + 1) r); [|lia].
    repeat split.
Qed.

(** X19: the statistics of an empty zone ([right < left]) are all zero; a
    zone of [n] columns of the sensor gathers [4 n] pixels, the columns of
    the four middle rows; on a frame of binary32 values the range
    [max - min] is never negative; and the MAD and the standard deviation
    of a zone are NaN or have a clear sign bit. *)
Theorem calculate_zone_stats_spec (frame : list float) (l r : Z) :
  (r < l -> calculate_zone_stats frame l r = zone_zero)
  /\ (0 <= l <= r -> r < SENSOR_WIDTH ->
        length (zone_pixels frame l r) = Z.to_nat (4 * (r - l + 1)))
  /\ (all_valid frame -> not_negative (range (calculate_zone_stats frame l r)))
  /\ sign_clear (mad (calculate_zone_stats frame l r)) = true
  /\ sign_clear (std (calculate_zone_stats frame l r)) = true.
Proof.
  split; [|split; [|split]].
  - intros H. unfold calculate_zone_stats.
    pose proof (zone_pixels_length frame l r) as L.
    unfold zone_cols in L. rewrite seqZ_nil in L by lia.
    change (4 * length (@nil Z))%nat with 0%nat in L.
    destruct (zone_pixels frame l r); [reflexivity|discriminate L].
  - intros H Hr. rewrite zone_pixels_length, zone_cols_inside by exact Hr.
    rewrite length_seqZ. lia.
  - intros Hv. unfold calculate_zone_stats. cbv zeta.
    pose proof (zone_pixels_valid frame l r Hv) as Vp.
    destruct (length (zone_pixels frame l r)); [reflexivity|]. cbn [range].
    pose proof (aget_valid _ 0 Vp) as Vf.
    set (first := aget (zone_pixels frame l r) 0) in *.
    destruct (isnan first) eqn:Nf.
    + rewrite scan_min_nan, scan_max_nan by exact Nf.
      destruct first; try discriminate. reflexivity.
    + destruct (scan_min_le _ first Vp Vf Nf) as (V1 & N1 & K1).
      destruct (scan_max_ge _ first Vp Vf Nf) as (V2 & N2 & K2).
      apply fsub_not_negative; try assumption. lia.
  - unfold calculate_zone_stats. cbv zeta.
    destruct (length (zone_pixels frame l r)) as [|k]; [split; reflexivity|].
    cbn [mad std]. split; [apply calculate_mad_sign_clear|apply calculate_std_sign_clear].
Qed.

Lemma flt_irrefl (x : float) : flt x x = false.
Proof.
  unfold flt, SFltb. destruct x as [s|s| |s m e]; cbn [SFcompare]; try reflexivity.
  - destruct s; reflexivity.
  - rewrite Z.compare_refl, Pos.compare_cont_refl. destruct s; reflexivity.
Qed.

Lemma flt_asym (x y : float) : flt x y = true -> flt y x = false.
Proof. intros H. apply fle_true_flt, flt_fle, H. Qed.

Lemma calculate_median_three (a b c : float) :
  calculate_median [a; b; c] 3
  = aget (swap_if_gt 1 (swap_if_gt 0 (swap_if_gt 0 [a; b; c] 1) 2) 2) 1.
Proof. reflexivity. Qed.

(** The exchange sort on three values, for any comparison. *)
Lemma sort_three_selects (gt : float -> float -> bool) (a b c : float) :
  let sw i arr j :=
    if gt (aget arr i) (aget arr j)
    then <[j := aget arr i]> (<[i := aget arr j]> arr) else arr in
  let m := aget (sw 1%nat (sw 0%nat (sw 0%nat [a; b; c] 1%nat) 2%nat) 2%nat) 1 in
  m = a \/ m = b \/ m = c.
Proof.
  cbv zeta. cbn.
  repeat (match goal with
          | |- context [gt ?x ?y] => destruct (gt x y)
          end; cbn); auto.
Qed.

Lemma sort_three_spike (gt : float -> float -> bool) (a s : float) :
  (forall x, gt x x = false) ->
  (forall x y, gt x y = true -> gt y x = false) ->
  gt s a = true \/ gt a s = true ->
  let sw i arr j :=
    if gt (aget arr i) (aget arr j)
    then <[j := aget arr i]> (<[i := aget arr j]> arr) else arr in
  aget (sw 1%nat (sw 0%nat (sw 0%nat [a; s; a] 1%nat) 2%nat) 2%nat) 1 = a.
Proof.
  intros Hirr Hasym H. cbv zeta. cbn.
  destruct (gt a s) eqn:Has; cbn.
  - rewrite (Hasym a s Has). cbn. rewrite Hirr. reflexivity.
  - rewrite Hirr. cbn. destruct H as [H | H]; [|congruence].
    rewrite H. reflexivity.
Qed.

Lemma median_three_selects (a b c : float) :
  calculate_median [a; b; c] 3 = a \/ calculate_median [a; b; c] 3 = b
  \/ calculate_median [a; b; c] 3 = c.
Proof. rewrite calculate_median_three. exact (sort_three_selects fgt a b c). Qed.

Lemma median_three_spike (a s : float) :
  fgt s a = true \/ flt s a = true -> calculate_median [a; s; a] 3 = a.
Proof.
  intros H. rewrite calculate_median_three.
  apply (sort_three_spike fgt a s).
  - intros x. apply flt_irrefl.
  - intros x y Hxy. apply (flt_asym y x Hxy).
  - exact H.
Qed.

(** X20: the 3-point median filter returns [n] values.  At an interior
    column the output is one of the three inputs of the window; and when
    the two neighbours are equal and the column itself is strictly above or
    strictly below them, the output is the neighbours' value: a one-column
    spike is removed. *)
Theorem median_filter_3_spec (input : list float) (n i : nat) :
  length (median_filter_3 input n) = n
  /\ ((0 < i)%nat -> (i + 1 < n)%nat ->
      let out := aget (median_filter_3 input n) i in
      let a := aget input (i - 1) in
      let b := aget input i in
      let c := aget input (i + 1) in
      (out = a \/ out = b \/ out = c)
      /\ (a = c -> fgt b a = true \/ flt b a = true -> out = a)).
Proof.
  split.
  - unfold median_filter_3. rewrite length_map, length_seq. reflexivity.
  - intros H0 Hn. cbv zeta.
    assert (E : aget (median_filter_3 input n) i
                = calculate_median [aget input (i - 1); aget input i; aget input (i + 1)] 3).
    { unfold median_filter_3.
      set (f := fun i0 : nat => if (i0 =? 0)%nat then _ else _).
      unfold aget at 1. transitivity (f (nth i (seq 0 n) 0%nat)).
      - rewrite <- (map_nth f (seq 0 n) 0%nat i). apply nth_indep.
        rewrite length_map, length_seq. lia.
      - rewrite seq_nth by lia. subst f. cbn beta.
        destruct (Nat.eqb_spec (0 + i) 0); [lia|].
        destruct (Z.eqb_spec (Z.of_nat (0 + i)) (Z.of_nat n - 1)); [lia|].
        reflexivity. }
    rewrite E. split; [apply median_three_selects|].
    intros <- Hs. apply median_three_spike, Hs.
Qed.

Lemma analyze_tyre_zones_witness :
  zone_cols 12 13 ++ zone_cols 14 17 ++ zone_cols 18 19 = zone_cols 12 19.
Proof.
  destruct (analyze_tyre_zones (frame_of_columns cooling_band) (replicate 32 zero) 12 19)
    as (_ & Z & _).
  - unfold span_ok, SENSOR_WIDTH; cbn [fst snd]; lia.
  - destruct Z as (_ & _ & _ & P & _); [lia | exact P].
Defined.

End Zones.

(* ================================================================== *)
(** ** The exchange sort and the median *)
(* ================================================================== *)

Section Sorting.

Import Detect.

Lemma aget_lookup (l : list float) (i : nat) :
  (i < length l)%nat -> l !! i = Some (aget l i).
Proof.
  intros H. destruct (lookup_lt_is_Some_2 l i H) as [x Hx].
  unfold aget. rewrite nth_lookup, Hx. reflexivity.
Qed.

Lemma aget_number (l : list float) (i : nat) :
  all_numbers l -> (i < length l)%nat -> number (aget l i).
Proof.
  intros H Hi. unfold all_numbers in H. rewrite Forall_lookup in H.
  apply (H i). apply aget_lookup, Hi.
Qed.

Lemma fgt_key (x y : float) :
  number x -> number y -> (fgt x y = true <-> key y < key x).
Proof.
  intros [Vx Nx] [Vy Ny]. split.
  - intros H. apply (flt_key y x Vy Vx H).
  - intros H. apply key_flt; assumption.
Qed.

Lemma key_fle (x y : float) :
  number x -> number y -> key x <= key y -> fle x y = true.
Proof.
  intros [Vx Nx] [Vy Ny] H. unfold fle, SFleb.
  rewrite (compare_key x y Vx Vy Nx Ny).
  destruct (Z.compare_spec (key x) (key y)); [reflexivity | reflexivity | lia].
Qed.

(** One comparison of the exchange sort. *)
Lemma swap_if_gt_spec (arr : list float) (i j : nat) :
  all_numbers arr -> (i < j)%nat -> (j < length arr)%nat ->
  let out := swap_if_gt i arr j in
  length out = length arr /\ out ≡ₚ arr /\ all_numbers out
  /\ (forall t, t <> i -> t <> j -> aget out t = aget arr t)
  /\ key (aget out i) <= key (aget out j)
  /\ ((aget out i = aget arr i /\ aget out j = aget arr j)
      \/ (aget out i = aget arr j /\ aget out j = aget arr i)).
Proof.
  intros Hn Hij Hj. cbv zeta. unfold swap_if_gt.
  pose proof (aget_number arr i Hn ltac:(lia)) as Ni.
  pose proof (aget_number arr j Hn Hj) as Nj.
  destruct (fgt (aget arr i) (aget arr j)) eqn:Hgt.
  - apply (fgt_key _ _ Ni Nj) in Hgt.
    rewrite !length_insert. split; [reflexivity|]. split.
    { apply Permutation_insert_swap; apply aget_lookup; lia. }
    split.
    { apply Forall_insert; [apply Forall_insert|]; assumption. }
    split.
    { intros t Hti Htj. rewrite !aget_insert_ne by congruence. reflexivity. }
    rewrite (aget_insert_eq _ j) by (rewrite length_insert; lia).
    rewrite (aget_insert_ne _ j i) by lia.
    rewrite (aget_insert_eq _ i) by lia.
    split; [lia|]. right. split; reflexivity.
  - split; [reflexivity|]. split; [reflexivity|]. split; [exact Hn|].
    split; [reflexivity|]. split; [|left; split; reflexivity].
    destruct (Z.le_gt_cases (key (aget arr i)) (key (aget arr j))) as [H|H]; [exact H|].
    apply (fgt_key _ _ Ni Nj) in H. congruence.
Qed.

(** The inner loop at [i], after the columns [i+1 .. i+m]. *)
Lemma sort_inner_prefix (arr : list float) (i n m : nat) :
  all_numbers arr -> (i + 1 + m <= n)%nat -> (n <= length arr)%nat ->
  let out := fold_left (swap_if_gt i) (seq (i + 1) m) arr in
  length out = length arr /\ out ≡ₚ arr /\ all_numbers out
  /\ (forall t, (t < i)%nat \/ (i + m < t)%nat -> aget out t = aget arr t)
  /\ (forall t, (i < t <= i + m)%nat -> key (aget out i) <= key (aget out t))
  /\ (forall t, (i <= t < n)%nat ->
        exists t', (i <= t' < n)%nat /\ aget out t = aget arr t').
Proof.
  intros Hn. induction m as [|m IH]; intros Hm Hlen; cbv zeta.
  - cbn [seq fold_left]. split; [reflexivity|]. split; [reflexivity|].
    split; [exact Hn|]. split; [reflexivity|]. split; [intros; lia|].
    intros t Ht. exists t. split; [exact Ht | reflexivity].
  - rewrite seq_S, fold_left_app. cbn [fold_left].
    destruct (IH ltac:(lia) Hlen) as (L & P & N & U & M & C). clear IH.
    set (mid := fold_left (swap_if_gt i) (seq (i + 1) m) arr) in *.
    destruct (swap_if_gt_spec mid i (i + 1 + m) N ltac:(lia) ltac:(lia))
      as (L' & P' & N' & U' & K & S).
    set (out := swap_if_gt i mid (i + 1 + m)) in *.
    split; [congruence|]. split; [etransitivity; eassumption|]. split; [exact N'|].
    split; [|split].
    + intros t Ht. rewrite U' by lia. apply U. lia.
    + intros t Ht. destruct (Nat.eq_dec t (i + 1 + m)%nat) as [->|Hne]; [exact K|].
      rewrite (U' t) by lia.
      destruct S as [[Si _] | [Si Sj]].
      * rewrite Si. apply M. lia.
      * specialize (M t ltac:(lia)). rewrite Si, Sj in K. rewrite Si. lia.
    + intros t Ht.
      assert (Cm : forall t0, (i <= t0 < n)%nat ->
                     exists t', (i <= t' < n)%nat /\ aget mid t0 = aget arr t') by exact C.
      destruct (Nat.eq_dec t i) as [->|Hi].
      { destruct S as [[Si _] | [Si _]]; rewrite Si; apply Cm; lia. }
      destruct (Nat.eq_dec t (i + 1 + m)%nat) as [->|Hj].
      { destruct S as [[_ Sj] | [_ Sj]]; rewrite Sj; apply Cm; lia. }
      rewrite U' by assumption. apply Cm. exact Ht.
Qed.

Lemma sort_inner_spec (arr : list float) (i n : nat) :
  all_numbers arr -> (i < n)%nat -> (n <= length arr)%nat ->
  let out := sort_inner n arr i in
  length out = length arr /\ out ≡ₚ arr /\ all_numbers out
  /\ (forall t, (t < i)%nat \/ (n <= t)%nat -> aget out t = aget arr t)
  /\ (forall t, (i < t < n)%nat -> key (aget out i) <= key (aget out t))
  /\ (forall t, (i <= t < n)%nat ->
        exists t', (i <= t' < n)%nat /\ aget out t = aget arr t').
Proof.
  intros Hn Hi Hlen. cbv zeta. unfold sort_inner.
  destruct (sort_inner_prefix arr i n (n - (i + 1)) Hn ltac:(lia) Hlen)
    as (L & P & N & U & M & C).
  split; [exact L|]. split; [exact P|]. split; [exact N|].
  split; [intros t Ht; apply U; lia|].
  split; [intros t Ht; apply M; lia | exact C].
Qed.

(** The outer loop after the positions [0 .. k-1]. *)
Lemma sort_outer_prefix (arr : list float) (n k : nat) :
  all_numbers arr -> (k <= n - 1)%nat -> (n <= length arr)%nat ->
  let out := fold_left (sort_inner n) (seq 0 k) arr in
  length out = length arr /\ out ≡ₚ arr /\ all_numbers out
  /\ (forall t, (n <= t)%nat -> aget out t = aget arr t)
  /\ (forall p q, (p < k)%nat -> (p < q < n)%nat ->
        key (aget out p) <= key (aget out q)).
Proof.
  intros Hn. induction k as [|k IH]; intros Hk Hlen; cbv zeta.
  - cbn [seq fold_left]. split; [reflexivity|]. split; [reflexivity|].
    split; [exact Hn|]. split; [reflexivity|]. intros; lia.
  - rewrite seq_S, fold_left_app. cbn [fold_left Nat.add].
    destruct (IH ltac:(lia) Hlen) as (L & P & N & B & O). clear IH.
    set (mid := fold_left (sort_inner n) (seq 0 k) arr) in *.
    destruct (sort_inner_spec mid k n N ltac:(lia) ltac:(lia))
      as (L' & P' & N' & U & M & C).
    set (out := sort_inner n mid k) in *.
    split; [congruence|]. split; [etransitivity; eassumption|]. split; [exact N'|].
    split.
    + intros t Ht. rewrite U by lia. apply B, Ht.
    + intros p q Hp Hq. destruct (Nat.eq_dec p k) as [->|Hpk].
      * apply M. lia.
      * rewrite (U p) by lia. destruct (Nat.lt_ge_cases q k) as [Hqk|Hqk].
        { rewrite (U q) by lia. apply O; lia. }
        destruct (C q ltac:(lia)) as (q' & Hq' & ->). apply O; lia.
Qed.

Lemma sort_in_place_spec (arr : list float) (n : nat) :
  all_numbers arr -> (n <= length arr)%nat ->
  let out := sort_in_place arr n in
  length out = length arr /\ out ≡ₚ arr
  /\ (forall t, (n <= t)%nat -> aget out t = aget arr t)
  /\ (forall i j, (i <= j < n)%nat -> fle (aget out i) (aget out j) = true).
Proof.
  intros Hn Hlen. cbv zeta. unfold sort_in_place.
  destruct (sort_outer_prefix arr n (n - 1) Hn ltac:(lia) Hlen) as (L & P & N & B & O).
  split; [exact L|]. split; [exact P|]. split; [exact B|].
  intros i j Hij.
  pose proof (aget_number _ i N ltac:(lia)) as Ni.
  pose proof (aget_number _ j N ltac:(lia)) as Nj.
  apply key_fle; [exact Ni | exact Nj |].
  destruct (Nat.eq_dec i j) as [->|Hne]; [lia|]. apply O; lia.
Qed.

(** X21: on values none of which is NaN the exchange sort of
    [quick_select_median] sorts: the first [n] entries of the array it
    leaves are a permutation of the [n] values given, in non-decreasing
    order.  So for [1 <= n <= 128] values [calculate_median] returns the
    middle entry of the sorted values when [n] is odd and half the sum of
    the two middle entries when [n] is even. *)
Theorem calculate_median_is_middle (data : list float) (n : nat) :
  all_numbers data -> (1 <= n <= length data)%nat -> (n <= TEMP_CAP)%nat ->
  let sorted := sort_in_place (take n data) n in
  sorted ≡ₚ take n data
  /\ (forall i j, (i <= j < n)%nat -> fle (aget sorted i) (aget sorted j) = true)
  /\ calculate_median data n
     = if (n mod 2 =? 0)%nat
       then fdiv (fadd (aget sorted (n / 2 - 1)) (aget sorted (n / 2))) (of_int 2)
       else aget sorted (n / 2).
Proof.
  intros Hn Hlen Hcap. cbv zeta.
  assert (Ht : all_numbers (take n data)) by (apply Forall_take, Hn).
  assert (Hl : (n <= length (take n data))%nat) by (rewrite length_take; lia).
  destruct (sort_in_place_spec (take n data) n Ht Hl) as (_ & P & _ & O).
  split; [exact P|]. split; [exact O|].
  unfold calculate_median. cbv zeta.
  destruct (Nat.ltb_spec TEMP_CAP n) as [H|_]; [lia|].
  destruct n as [|[|n]]; [lia | reflexivity | reflexivity].
Qed.

Lemma calculate_median_is_middle_witness :
  calculate_median (map of_int [30; 28; 35; 31]) 4
  = fdiv (fadd (aget (sort_in_place (map of_int [30; 28; 35; 31]) 4) 1)
               (aget (sort_in_place (map of_int [30; 28; 35; 31]) 4) 2))
         (of_int 2).
Proof.
  assert (N : all_numbers (map of_int [30; 28; 35; 31]))
    by (unfold all_numbers, number; cbn [map];
        repeat (constructor; [split; reflexivity|]); constructor).
  destruct (calculate_median_is_middle (map of_int [30; 28; 35; 31]) 4 N) as (_ & _ & E).
  - cbn [map length]. lia.
  - vm_compute. lia.
  - exact E.
Defined.

End Sorting.

(* ================================================================== *)
(** ** Configuration over the bus *)
(* ================================================================== *)

Section Configuration.

Import Thermal I2CSlave.

(** One byte written to a configuration register. *)
Lemma write_one (reg : nat) (v : Z) (s : Slave) :
  idle s -> (REG_RESERVED_0F < length (register_map s))%nat ->
  (reg <= REG_RESERVED_0F)%nat ->
  exists s',
    run_handler [rx (Z.of_nat reg); rx v; stop] s = Some (s', [])
    /\ nth reg (register_map s') 0 = Z.land v 0xFF
    /\ output_mode (state s') =
       (if (reg =? REG_OUTPUT_MODE)%nat then Z.land v 0xFF else output_mode (state s)).
Proof.
  unfold REG_RESERVED_0F, REG_OUTPUT_MODE. intros Hidle Hm Hreg.
  rewrite run_handler_rx.
  set (s0 := receive_byte s (Z.of_nat reg)).
  assert (S0 : current_register (state s0) = reg
               /\ register_map s0 = register_map s
               /\ output_mode (state s0) = output_mode (state s)).
  { unfold s0, receive_byte. cbv zeta. rewrite Hidle. cbn [Nat.eqb].
    rewrite byte_of_nat by lia.
    destruct (reg =? REG_FRAME_DATA_START)%nat; repeat split. }
  destruct S0 as (C0 & M0 & D0).
  destruct (data_bytes [v] s0 reg C0 ltac:(cbn [length]; lia)
                       ltac:(rewrite M0; exact Hm))
    as (s1 & R & _ & _ & _ & _ & M & D & _).
  change [rx v; stop] with (map rx [v] ++ [stop]).
  rewrite run_handler_app, R. cbn [mbind option_bind fst snd app run_handler].
  exists (stop_detected s1). split; [reflexivity|].
  cbn [stop_detected set_state register_map state set_register output_mode].
  rewrite M, D, D0. cbn [length]. unfold REG_RESERVED_0F, REG_OUTPUT_MODE.
  destruct (Nat.leb_spec reg reg); [|lia].
  destruct (Nat.ltb_spec reg (reg + 1)); [|lia].
  destruct (Nat.leb_spec reg 15); [|lia]. cbn [andb].
  replace (reg - reg)%nat with 0%nat by lia. split; [reflexivity|].
  destruct (Nat.eqb_spec reg 1) as [->|Hne]; [reflexivity|].
  destruct (Nat.leb_spec reg 1), (Nat.ltb_spec 1 (reg + 1)); cbn [andb];
    try reflexivity; lia.
Qed.

(** X22: a byte the master writes to a configuration register of an idle
    slave is what the firmware reads back: written to [REG_OUTPUT_MODE] it
    is the output mode, and an output is enabled exactly when the byte is
    [OUTPUT_MODE_ALL] or that output's mode; written to [REG_RAW_MODE] it
    switches raw mode on exactly when it is not 0; written to
    [REG_EMISSIVITY] it gives the emissivity [min(byte, 100) / 100]. *)
Theorem configuration_over_the_bus (s : Slave) (v mode : Z) :
  idle s -> (REG_RESERVED_0F < length (register_map s))%nat ->
  (exists s',
      run_handler [rx (Z.of_nat REG_OUTPUT_MODE); rx v; stop] s = Some (s', [])
      /\ i2c_slave_get_output_mode s' = Z.land v 0xFF
      /\ i2c_slave_output_enabled s' mode
         = (Z.land v 0xFF =? OUTPUT_MODE_ALL) || (Z.land v 0xFF =? mode))
  /\ (exists s',
         run_handler [rx (Z.of_nat REG_RAW_MODE); rx v; stop] s = Some (s', [])
         /\ i2c_slave_get_raw_mode s' = negb (Z.land v 0xFF =? 0))
  /\ (exists s',
         run_handler [rx (Z.of_nat REG_EMISSIVITY); rx v; stop] s = Some (s', [])
         /\ i2c_slave_get_emissivity s'
            = fdiv (of_int (Z.min (Z.land v 0xFF) 100)) (of_int 100)).
Proof.
  intros Hidle Hm. split; [|split].
  - destruct (write_one REG_OUTPUT_MODE v s Hidle Hm) as (s' & R & _ & D);
      [unfold REG_OUTPUT_MODE, REG_RESERVED_0F; lia|].
    exists s'. split; [exact R|]. rewrite Nat.eqb_refl in D.
    unfold i2c_slave_get_output_mode, i2c_slave_output_enabled. rewrite D.
    split; [reflexivity|].
    destruct (Z.land v 0xFF =? OUTPUT_MODE_ALL); reflexivity.
  - destruct (write_one REG_RAW_MODE v s Hidle Hm) as (s' & R & M & _);
      [unfold REG_RAW_MODE, REG_RESERVED_0F; lia|].
    exists s'. split; [exact R|]. unfold i2c_slave_get_raw_mode. rewrite M.
    reflexivity.
  - destruct (write_one REG_EMISSIVITY v s Hidle Hm) as (s' & R & M & _);
      [unfold REG_EMISSIVITY, REG_RESERVED_0F; lia|].
    exists s'. split; [exact R|]. unfold i2c_slave_get_emissivity. rewrite M.
    cbv zeta. destruct (Z.gtb_spec (Z.land v 0xFF) 100).
    + rewrite Z.min_r by lia. reflexivity.
    + rewrite Z.min_l by lia. reflexivity.
Qed.

Lemma configuration_over_the_bus_witness :
  exists s',
    run_handler [rx (Z.of_nat REG_OUTPUT_MODE); rx 1; stop] slave_init = Some (s', [])
    /\ i2c_slave_output_enabled s' OUTPUT_MODE_USB_SERIAL = false.
Proof.
  destruct (configuration_over_the_bus slave_init 1 OUTPUT_MODE_USB_SERIAL)
    as ((s' & R & _ & E) & _); [reflexivity | vm_compute; lia |].
  exists s'. split; [exact R | rewrite E; reflexivity].
Defined.

End Configuration.

(* ================================================================== *)
(** ** Statistics of the earlier algorithm *)
(* ================================================================== *)

Section EarlyStatistics.

Import Thermal.

Lemma sorted_insert_sign_clear (x : float) (l : list float) :
  sign_clear x = true -> all_sign_clear l -> all_sign_clear (sorted_insert x l).
Proof.
  intros Hx Hl. induction Hl as [|y l Hy Hl IH]; cbn [sorted_insert].
  - constructor; [exact Hx | constructor].
  - destruct (compare_floats x y <=? 0).
    + constructor; [exact Hx|]. constructor; assumption.
    + constructor; assumption.
Qed.

Lemma qsort_sign_clear (l : list float) : all_sign_clear l -> all_sign_clear (qsort l).
Proof.
  intros H. unfold qsort. induction H as [|x l Hx Hl IH]; cbn [fold_right].
  - constructor.
  - apply sorted_insert_sign_clear; assumption.
Qed.

Lemma fast_median_sign_clear (data : list float) (len : nat) :
  all_sign_clear data -> sign_clear (fst (fast_median data len)) = true.
Proof.
  intros H. unfold fast_median.
  destruct len as [|[|len]]; cbn [fst]; [reflexivity | apply aget_sign_clear, H |].
  assert (Hs : all_sign_clear (qsort (take (S (S len)) data) ++ drop (S (S len)) data)).
  { apply Forall_app. split; [apply qsort_sign_clear, Forall_take, H|].
    apply Forall_drop, H. }
  destruct (_ =? _)%nat.
  - apply fdiv_sign_clear; [|reflexivity].
    apply fadd_sign_clear; apply aget_sign_clear, Hs.
  - apply aget_sign_clear, Hs.
Qed.

Lemma fast_mad_sign_clear (data : list float) (len : nat) (med : float) :
  sign_clear (fast_mad data len med) = true.
Proof.
  unfold fast_mad. destruct (len <? 2)%nat; [reflexivity|].
  destruct (WIDTH <? len)%nat; [reflexivity|]. cbv zeta.
  apply fmul_sign_clear; [|reflexivity].
  apply fast_median_sign_clear. apply Forall_map, Forall_forall.
  intros i _. apply fabsf_sign_clear.
Qed.

(** X25: the scaled median absolute deviation of the earlier algorithm is
    NaN or has a clear sign bit, whatever the data and the median passed
    are; it is never below zero, and it is 0 for fewer than 2 or more than
    32 values.  The same holds for the MAD of every analysed zone. *)
Theorem fast_mad_never_negative (data : list float) (len : nat) (med : float) :
  sign_clear (fast_mad data len med) = true
  /\ not_negative (fast_mad data len med)
  /\ ((len < 2)%nat \/ (WIDTH < len)%nat -> fast_mad data len med = zero)
  /\ (forall profile s e, sign_clear (mad (analyze_zone profile s e)) = true).
Proof.
  split; [apply fast_mad_sign_clear|].
  split; [apply sign_clear_not_negative, fast_mad_sign_clear|]. split.
  - intros H. unfold fast_mad.
    destruct (Nat.ltb_spec len 2); [reflexivity|].
    destruct (Nat.ltb_spec WIDTH len); [reflexivity|]. lia.
  - intros profile s e. unfold analyze_zone. cbv zeta.
    destruct (_ || _); [reflexivity|].
    destruct (fast_median _ _) as [m zd]. cbn [mad]. apply fast_mad_sign_clear.
Qed.

End EarlyStatistics.

(* ================================================================== *)
(** ** Status and raw channel registers *)
(* ================================================================== *)

Section StatusRegisters.

Import Thermal I2CSlave.

(** The registers of the channels written by the loop hold their values. *)
Lemma fold_put16_values (val : nat -> option Z) (chs : list nat) :
  (forall ch t, val ch = Some t -> -32768 <= t <= 32767) ->
  NoDup chs ->
  forall (m m' : list Z),
    (forall ch, In ch chs -> (REG_RAW_CH0_L + ch * 2 + 1 < length m)%nat) ->
    fold_left (fun om ch => m ← om; temp ← val ch;
                            Some (put16 (REG_RAW_CH0_L + ch * 2)
                                        (REG_RAW_CH0_L + ch * 2 + 1) temp m))
              chs (Some m) = Some m' ->
    forall ch, In ch chs ->
      Some (reg16 m' (REG_RAW_CH0_L + ch * 2) (REG_RAW_CH0_L + ch * 2 + 1)) = val ch.
Proof.
  intros Hval Hnd. induction Hnd as [|c rest Hc Hnd IH]; intros m m' Hlen H ch Hin.
  - destruct Hin.
  - cbn [fold_left mbind option_bind] in H.
    destruct (val c) as [t|] eqn:Ec.
    2:{ apply fold_put16_frame in H as (m0 & E & _). discriminate. }
    cbn [mbind option_bind] in H.
    set (m1 := put16 (REG_RAW_CH0_L + c * 2) (REG_RAW_CH0_L + c * 2 + 1) t m) in *.
    destruct Hin as [<-|Hin].
    + pose proof H as H'. apply fold_put16_frame in H' as (m0 & [= <-] & _ & F).
      rewrite Ec. f_equal.
      rewrite (reg16_frame m1 m').
      * apply put16_reg16; [lia | | | apply (Hval c t Ec)];
          specialize (Hlen c ltac:(left; reflexivity)); lia.
      * apply F. intros ch Hch.
        assert (ch <> c) by (intros ->; apply Hc, list_elem_of_In, Hch). lia.
      * apply F. intros ch Hch.
        assert (ch <> c) by (intros ->; apply Hc, list_elem_of_In, Hch). lia.
    + apply (IH m1 m'); [|exact H|exact Hin].
      intros ch' Hch'. unfold m1. rewrite put16_length. apply Hlen. right. exact Hch'.
Qed.

(** X26: after [i2c_slave_update] the status registers hold the frame
    number modulo 65536 (low byte first), the integer part of the frame
    rate, the detection flag, the integer part of 100 times the confidence,
    the width, the span and the warning flags of the record; and when a
    frame is given, the register pair of each of the 16 raw channels
    assembles to [temp_to_int16_tenths] of the channel's average of 2
    columns by 4 rows. *)
Theorem i2c_slave_update_status_and_raw
        (m : list Z) (data : FrameData) (fps : float)
        (frame : option (list float)) (m' : list Z) :
  (0x4F < length m)%nat ->
  i2c_slave_update true m data fps frame = Some m' ->
  (nth REG_FRAME_NUMBER_L m' 0 + 256 * nth REG_FRAME_NUMBER_H m' 0
   = frame_number data mod 65536
   /\ Some (nth REG_FPS m' 0) = cast_uint8 fps
   /\ nth REG_DETECTED m' 0 = (if detected (detection data) then 1 else 0)
   /\ Some (nth REG_CONFIDENCE m' 0)
      = cast_uint8 (fmul (confidence (detection data)) (of_int 100))
   /\ nth REG_TYRE_WIDTH m' 0 = tyre_width (detection data)
   /\ nth REG_SPAN_START m' 0 = span_start (detection data)
   /\ nth REG_SPAN_END m' 0 = span_end (detection data)
   /\ nth REG_WARNINGS m' 0 = warnings data)
  /\ (forall f ch, frame = Some f -> (ch < 16)%nat ->
        Some (reg16 m' (REG_RAW_CH0_L + ch * 2) (REG_RAW_CH0_L + ch * 2 + 1))
        = temp_to_int16_tenths (raw_channel f ch)).
Proof.
  intros Hlen. unfold i2c_slave_update. cbn [negb].
  destruct (cast_uint8 fps) as [fps8|]; [|discriminate]. cbn [mbind option_bind].
  destruct (cast_uint8 _) as [conf8|]; [|discriminate]. cbn [mbind option_bind].
  destruct (temp_to_int16_tenths (median (left data))) as [lm|]; [|discriminate].
  cbn [mbind option_bind].
  destruct (temp_to_int16_tenths (median (centre data))) as [cm|]; [|discriminate].
  cbn [mbind option_bind].
  destruct (temp_to_int16_tenths (median (right data))) as [rm|]; [|discriminate].
  cbn [mbind option_bind].
  destruct (temp_to_int16_tenths (avg (left data))) as [la|]; [|discriminate].
  cbn [mbind option_bind].
  destruct (temp_to_int16_tenths (avg (centre data))) as [ca|]; [|discriminate].
  cbn [mbind option_bind].
  destruct (temp_to_int16_tenths (avg (right data))) as [ra|]; [|discriminate].
  cbn [mbind option_bind].
  destruct (temp_to_int16_tenths (lateral_gradient data)) as [lg|]; [|discriminate].
  cbn [mbind option_bind]. cbv zeta.
  match goal with
  | |- match frame with Some f => fold_left _ _ (Some ?b) | None => _ end = _ -> _ =>
    set (m1 := b)
  end.
  assert (L1 : length m1 = length m)
    by (unfold m1; rewrite !put16_length, !length_insert; reflexivity).
  assert (S1 : nth REG_FRAME_NUMBER_L m1 0 = Z.land (frame_number data) 0xFF
               /\ nth REG_FRAME_NUMBER_H m1 0
                  = Z.land (Z.shiftr (frame_number data) 8) 0xFF
               /\ nth REG_FPS m1 0 = fps8
               /\ nth REG_DETECTED m1 0 = (if detected (detection data) then 1 else 0)
               /\ nth REG_CONFIDENCE m1 0 = conf8
               /\ nth REG_TYRE_WIDTH m1 0 = tyre_width (detection data)
               /\ nth REG_SPAN_START m1 0 = span_start (detection data)
               /\ nth REG_SPAN_END m1 0 = span_end (detection data)
               /\ nth REG_WARNINGS m1 0 = warnings data).
  { unfold m1.
    rewrite !put16_other by (unfold REG_LEFT_MEDIAN_L, REG_LEFT_MEDIAN_H,
      REG_CENTRE_MEDIAN_L, REG_CENTRE_MEDIAN_H, REG_RIGHT_MEDIAN_L, REG_RIGHT_MEDIAN_H,
      REG_LEFT_AVG_L, REG_LEFT_AVG_H, REG_CENTRE_AVG_L, REG_CENTRE_AVG_H,
      REG_RIGHT_AVG_L, REG_RIGHT_AVG_H, REG_LATERAL_GRADIENT_L,
      REG_LATERAL_GRADIENT_H, REG_FRAME_NUMBER_L, REG_FRAME_NUMBER_H, REG_FPS,
      REG_DETECTED, REG_CONFIDENCE, REG_TYRE_WIDTH, REG_SPAN_START, REG_SPAN_END,
      REG_WARNINGS; lia).
    unfold REG_FRAME_NUMBER_L, REG_FRAME_NUMBER_H, REG_FPS,
      REG_DETECTED, REG_CONFIDENCE, REG_TYRE_WIDTH, REG_SPAN_START, REG_SPAN_END,
      REG_WARNINGS.
    repeat split;
      repeat first [ rewrite nth_insert_ne by lia
                   | rewrite nth_insert_eq by (rewrite ?length_insert; lia) ];
      reflexivity. }
  clearbody m1. intros H.
  assert (T : forall j, (j < 0x30)%nat -> nth j m' 0 = nth j m1 0).
  { intros j Hj. destruct frame as [f|].
    - apply raw_channels_frame in H as [_ H]. apply H.
      intros ch _. unfold REG_RAW_CH0_L. lia.
    - injection H as <-. reflexivity. }
  destruct S1 as (A1 & A2 & A3 & A4 & A5 & A6 & A7 & A8 & A9).
  split.
  - rewrite !T by (unfold REG_FRAME_NUMBER_L, REG_FRAME_NUMBER_H, REG_FPS,
      REG_DETECTED, REG_CONFIDENCE, REG_TYRE_WIDTH, REG_SPAN_START, REG_SPAN_END,
      REG_WARNINGS; lia).
    rewrite A1, A2, A3, A4, A5, A6, A7, A8, A9.
    repeat split.
    change (Z.land (Z.shiftr (frame_number data) 8) 0xFF)
      with (hi_byte (frame_number data)).
    change (Z.land (frame_number data) 0xFF) with (lo_byte (frame_number data)).
    rewrite lo_byte_mod, hi_byte_mod. zlia.
  - intros f ch -> Hch.
    apply (fold_put16_values (fun ch => temp_to_int16_tenths (raw_channel f ch))
                             (seq 0 16)) with (m := m1) (m' := m').
    + intros c t. apply temp_to_int16_tenths_range.
    + apply NoDup_ListNoDup, seq_NoDup.
    + intros c Hc. apply in_seq in Hc. rewrite L1. unfold REG_RAW_CH0_L. lia.
    + exact H.
    + apply in_seq. lia.
Qed.

Lemma i2c_slave_update_status_and_raw_witness :
  nth REG_TYRE_WIDTH regs_sample 0 = tyre_width (detection data_sample).
Proof.
  assert (L : (0x4F < length (register_map slave_init))%nat) by (vm_compute; lia).
  assert (U : i2c_slave_update true (register_map slave_init) data_sample (of_int 8) None
              = Some regs_sample) by (vm_compute; reflexivity).
  destruct (i2c_slave_update_status_and_raw (register_map slave_init) data_sample
              (of_int 8) None regs_sample L U) as ((_ & _ & _ & _ & W & _) & _).
  exact W.
Defined.

End StatusRegisters.

(* ================================================================== *)
(** ** The two lateral gradients *)
(* ================================================================== *)

Section GradientVariants.

Lemma fold_left_map_seq {A : Type} (g : A -> Z -> A) (h : nat -> Z) (f : A -> nat -> A)
      (l : list nat) (a : A) :
  (forall s i, In i l -> f s i = g s (h i)) ->
  fold_left f l a = fold_left g (map h l) a.
Proof.
  revert a. induction l as [|i l IH]; intros a H; [reflexivity|].
  cbn [map fold_left]. rewrite (H a i (or_introl eq_refl)).
  apply IH. intros s j Hj. apply H. right. exact Hj.
Qed.

Lemma seqZ_map (a : Z) (n : nat) :
  seqZ a (Z.of_nat n) = map (fun i => a + Z.of_nat i) (seq 0 n).
Proof.
  unfold seqZ. rewrite Nat2Z.id.
  induction (seq 0 n) as [|i l IH]; [reflexivity|].
  cbn [fmap list_fmap map]. f_equal; [lia | exact IH].
Qed.

(** [analyze_zone] reports as [avg] the mean of the profile over the
    columns of the zone. *)
Lemma analyze_zone_avg (profile : list float) (a b : Z) :
  0 <= a <= b -> b < 32 ->
  Thermal.avg (Thermal.analyze_zone profile a b) = column_mean profile a b.
Proof.
  intros Hab Hb. unfold Thermal.analyze_zone. change Thermal.SENSOR_WIDTH with 32.
  destruct (Z.ltb_spec a 0); [lia|]. destruct (Z.geb_spec b 32); [lia|].
  cbv zeta.
  destruct (Z.leb_spec (b - a + 1) 0); [lia|].
  destruct (Z.gtb_spec (b - a + 1) 32); [lia|]. cbn [orb].
  destruct (Thermal.fast_median _ _) as [med zd]. cbn [Thermal.avg].
  unfold Thermal.fast_mean, column_mean.
  destruct (Z.to_nat (b - a + 1)) as [|n'] eqn:En; [lia|].
  rewrite <- En. rewrite Z2Nat.id by lia. f_equal.
  replace (seqZ a (b - a + 1))
    with (seqZ a (Z.of_nat (Z.to_nat (b - a + 1)))) by (f_equal; lia).
  rewrite seqZ_map.
  apply (fold_left_map_seq
           (fun s c => fadd s (aget profile (Z.to_nat c)))
           (fun i => a + Z.of_nat i)).
  intros s i Hi. apply in_seq in Hi. f_equal.
  unfold aget at 1.
  rewrite (nth_indep _ zero (aget profile (Z.to_nat a + 0))) by (rewrite length_map, length_seq; lia).
  rewrite (map_nth (fun i => aget profile (Z.to_nat a + i))).
  rewrite seq_nth by lia. f_equal. lia.
Qed.


Import Detect.

Lemma flt_false_key (x y : float) :
  valid x = true -> valid y = true -> isnan x = false -> isnan y = false ->
  flt x y = false -> key y <= key x.
Proof.
  intros Vx Vy Nx Ny H. unfold flt, SFltb in H.
  rewrite (compare_key x y Vx Vy Nx Ny) in H.
  destruct (Z.compare_spec (key x) (key y)); [lia | discriminate | lia].
Qed.

(** The running maximum is the first value or one of the scanned ones,
    and neither the first value nor a scanned one compares above it. *)
Lemma scan_max_spec (vals : list float) (init : float) :
  all_valid vals -> valid init = true ->
  let m := scan_max vals init in
  (m = init \/ In m vals)
  /\ fgt init m = false
  /\ forall x, In x vals -> fgt x m = false.
Proof.
  unfold scan_max, fgt. change SFltb with flt. intros Hv. revert init.
  induction Hv as [|x vals Hx Hv IH]; intros init Vi; cbn [fold_left].
  - split; [left; reflexivity|]. split; [|intros x []].
    apply flt_irrefl.
  - destruct (flt init x) eqn:Hgt.
    + destruct (IH x Hx) as (Hm & Hxm & Hall). cbv zeta in *.
      set (m := fold_left _ vals x) in *.
      assert (Vm : valid m = true).
      { destruct Hm as [-> | Hin]; [exact Hx|].
        unfold all_valid in Hv. rewrite Forall_forall in Hv.
        apply Hv, list_elem_of_In, Hin. }
      split; [right; destruct Hm as [-> | Hin]; [left; reflexivity | right; exact Hin]|].
      split.
      * destruct (flt m init) eqn:Hmi; [|reflexivity].
        destruct (flt_key _ _ Vm Vi Hmi) as (Nm & _ & K1).
        destruct (flt_key _ _ Vi Hx Hgt) as (_ & Nx & K2).
        rewrite (key_flt m x Vm Hx Nm Nx ltac:(lia)) in Hxm. discriminate.
      * intros y [<- | Hy]; [exact Hxm | apply Hall, Hy].
    + destruct (IH init Vi) as (Hm & Him & Hall). cbv zeta in *.
      set (m := fold_left _ vals init) in *.
      assert (Vm : valid m = true).
      { destruct Hm as [-> | Hin]; [exact Vi|].
        unfold all_valid in Hv. rewrite Forall_forall in Hv.
        apply Hv, list_elem_of_In, Hin. }
      split; [destruct Hm as [-> | Hin]; [left; reflexivity | right; right; exact Hin]|].
      split; [exact Him|].
      intros y [<- | Hy]; [|apply Hall, Hy].
      destruct (flt m x) eqn:Hmx; [|reflexivity].
      destruct (flt_key _ _ Vm Hx Hmx) as (Nm & Nx & K1).
      destruct (isnan init) eqn:Ni.
      * pose proof (scan_max_nan vals init Ni) as E. unfold scan_max, fgt in E.
        change SFltb with flt in E. fold m in E. rewrite E in Nm. congruence.
      * pose proof (flt_false_key _ _ Vi Hx Ni Nx Hgt) as K2.
        pose proof (flt_false_key _ _ Vm Vi Nm Ni Him) as K3. lia.
Qed.

Lemma scan_min_spec (vals : list float) (init : float) :
  all_valid vals -> valid init = true ->
  let m := scan_min vals init in
  (m = init \/ In m vals)
  /\ flt init m = false
  /\ forall x, In x vals -> flt x m = false.
Proof.
  unfold scan_min. intros Hv. revert init.
  induction Hv as [|x vals Hx Hv IH]; intros init Vi; cbn [fold_left].
  - split; [left; reflexivity|]. split; [|intros x []].
    apply flt_irrefl.
  - destruct (flt x init) eqn:Hlt.
    + destruct (IH x Hx) as (Hm & Hxm & Hall). cbv zeta in *.
      set (m := fold_left _ vals x) in *.
      assert (Vm : valid m = true).
      { destruct Hm as [-> | Hin]; [exact Hx|].
        unfold all_valid in Hv. rewrite Forall_forall in Hv.
        apply Hv, list_elem_of_In, Hin. }
      split; [right; destruct Hm as [-> | Hin]; [left; reflexivity | right; exact Hin]|].
      split.
      * destruct (flt init m) eqn:Him; [|reflexivity].
        destruct (flt_key _ _ Vi Vm Him) as (_ & Nm & K1).
        destruct (flt_key _ _ Hx Vi Hlt) as (Nx & _ & K2).
        rewrite (key_flt x m Hx Vm Nx Nm ltac:(lia)) in Hxm. discriminate.
      * intros y [<- | Hy]; [exact Hxm | apply Hall, Hy].
    + destruct (IH init Vi) as (Hm & Him & Hall). cbv zeta in *.
      set (m := fold_left _ vals init) in *.
      assert (Vm : valid m = true).
      { destruct Hm as [-> | Hin]; [exact Vi|].
        unfold all_valid in Hv. rewrite Forall_forall in Hv.
        apply Hv, list_elem_of_In, Hin. }
      split; [destruct Hm as [-> | Hin]; [left; reflexivity | right; right; exact Hin]|].
      split; [exact Him|].
      intros y [<- | Hy]; [|apply Hall, Hy].
      destruct (flt x m) eqn:Hxm; [|reflexivity].
      destruct (flt_key _ _ Hx Vm Hxm) as (Nx & Nm & K1).
      destruct (isnan init) eqn:Ni.
      * pose proof (scan_min_nan vals init Ni) as E. unfold scan_min in E.
        fold m in E. rewrite E in Nm. congruence.
      * pose proof (flt_false_key _ _ Hx Vi Nx Ni Hlt) as K2.
        pose proof (flt_false_key _ _ Vi Vm Ni Nm Him) as K3. lia.
Qed.

Lemma in_span_values (profile : list float) (l r : Z) (v : float) :
  v = aget profile (Z.to_nat l) \/ In v (span_values profile l r) ->
  l <= r ->
  exists i, l <= i <= r /\ v = aget profile (Z.to_nat i).
Proof.
  intros [-> | Hin] Hlr.
  - exists l. split; [lia | reflexivity].
  - unfold span_values in Hin. apply in_map_iff in Hin as (i & <- & Hi).
    apply list_elem_of_In, elem_of_seqZ in Hi. exists i. split; [lia | reflexivity].
Qed.

(** The later gradient is the difference of two values of the span, the
    first of which no column of the span compares above and the second of
    which no column compares below. *)
Lemma profile_range_attained (profile : list float) (l r : Z) :
  all_valid profile -> 0 <= l <= r ->
  exists i j, l <= i <= r /\ l <= j <= r
    /\ profile_range profile l r
       = fsub (aget profile (Z.to_nat i)) (aget profile (Z.to_nat j))
    /\ bounds_span profile l r (aget profile (Z.to_nat j)) (aget profile (Z.to_nat i)).
Proof.
  intros Hv Hlr. unfold profile_range.
  pose proof (aget_valid profile (Z.to_nat l) Hv) as Vf.
  pose proof (span_values_valid profile l r Hv) as Vs.
  destruct (scan_max_spec _ _ Vs Vf) as (Mi & Mf & Ma).
  destruct (scan_min_spec _ _ Vs Vf) as (Ni & Nf & Na). cbv zeta in *.
  destruct (in_span_values profile l r _ Mi ltac:(lia)) as (i & Hi & Ei).
  destruct (in_span_values profile l r _ Ni ltac:(lia)) as (j & Hj & Ej).
  exists i, j. split; [exact Hi|]. split; [exact Hj|].
  rewrite <- Ei, <- Ej. split; [reflexivity|].
  intros c Hc. destruct (Z.eq_dec c l) as [-> | Hne].
  - split; [exact Mf | exact Nf].
  - assert (Hin : In (aget profile (Z.to_nat c)) (span_values profile l r)).
    { unfold span_values. apply in_map_iff. exists c. split; [reflexivity|].
      apply list_elem_of_In, elem_of_seqZ. lia. }
    split; [apply Ma, Hin | apply Na, Hin].
Qed.

Lemma profile_range_sign (profile : list float) (l r : Z) :
  all_valid profile ->
  isnan (profile_range profile l r) = true
  \/ fle zero (profile_range profile l r) = true.
Proof.
  intros Hv. destruct (isnan (profile_range profile l r)) eqn:N; [left; reflexivity|].
  right. apply flt_false_fle; [exact N | reflexivity|].
  apply profile_range_not_negative. exact Hv.
Qed.

(** The earlier gradient of a detected span of three columns or more is
    the mean of its right third minus the mean of its left third. *)
Lemma early_gradient_means (frame : list float) (cfg : Thermal.ThermalConfig) (n : Z) :
  let d := fst (Thermal.thermal_algorithm_process frame cfg n) in
  let profile := Thermal.extract_middle_rows frame in
  let s := Thermal.span_start (Thermal.detection d) in
  let e := Thermal.span_end (Thermal.detection d) in
  let t := (e - s + 1) / 3 in
  Thermal.detected (Thermal.detection d) = true ->
  3 <= Thermal.tyre_width (Thermal.detection d) ->
  Thermal.lateral_gradient d
  = fsub (column_mean profile (e - t + 1) e) (column_mean profile s (s + t - 1)).
Proof.
  cbv zeta. unfold Thermal.thermal_algorithm_process.
  pose proof (detect_tyre_span_bounds (Thermal.extract_middle_rows frame) cfg) as B.
  cbv zeta in B. change Thermal.SENSOR_WIDTH with 32 in B.
  destruct (Thermal.detected (Thermal.detect_tyre_span _ cfg)) eqn:Hd;
    cbn [fst Thermal.detection Thermal.lateral_gradient]; [|rewrite Hd; discriminate].
  intros _ Hw. destruct B as (B1 & B2 & B3).
  set (d := Thermal.detect_tyre_span (Thermal.extract_middle_rows frame) cfg) in *.
  rewrite B3 in Hw |- *.
  rewrite Z.quot_div_nonneg by lia.
  set (t := (Thermal.span_end d - Thermal.span_start d + 1) / 3).
  assert (Ht : 1 <= t /\ 3 * t <= Thermal.span_end d - Thermal.span_start d + 1)
    by (subst t; split; Z.to_euclidean_division_equations; lia).
  rewrite !analyze_zone_avg by lia. reflexivity.
Qed.


(** A detection reports the range of the smoothed profile over the span
    it reports, an ordered span of the sensor. *)
Lemma detect_tyre_gradient (frame : list float) (result : TyreData)
      (st : TemporalState) :
  hist_ok st ->
  let smoothed := fst (smoothed_profile frame st) in
  let t := snd (fst (detect_tyre frame result st)) in
  detected t = 1 ->
  0 <= span_start t <= span_end t
  /\ lateral_gradient t = profile_range smoothed (span_start t) (span_end t).
Proof.
  intros H. cbv zeta. unfold detect_tyre, stabilize.
  pose proof (smoothed_profile_hist_ok frame st H) as H1.
  destruct (smoothed_profile frame st) as [smoothed st1]. cbn [fst snd] in H1 |- *.
  pose proof (grow_region_span_ok smoothed (calculate_median smoothed WIDTH)
                                  (calculate_mad smoothed WIDTH)) as G0.
  pose proof (geometry_span_ok _ G0) as G1.
  pose proof (temporal_span_ok st1 _ H1 G1) as G2.
  pose proof (persistence_span_ok st1 _ H1 G2) as [G3 _].
  destruct (flt (calculate_mad smoothed WIDTH) (mad_uniform_threshold config)).
  - cbn [fst snd detected]. discriminate.
  - destruct (apply_persistence st1 _) as [[l r] st2].
    cbn [fst snd] in G3 |- *. intros _.
    unfold analyze_tyre. cbn [span_start span_end lateral_gradient].
    unfold span_ok in G3. cbn [fst snd] in G3. split; [lia | reflexivity].
Qed.

(** C8: the earlier algorithm reports the signed difference of two zone
    means, the mean of the right third of the detected span minus the mean
    of its left third.  The later one, whenever it detects, reports the
    value of a column of the reported span that no column of the span
    compares above, minus the value of a column that no column compares
    below, both read from the smoothed profile: the maximum minus the
    minimum of the smoothed profile over the span.  On binary32 values the
    later gradient is NaN or at least 0, and at least 0 whenever the
    profile is finite.  They are different functions of the frame: on a
    band over the columns 12..19 that cools from left to right both
    variants detect that span, the earlier gradient is -6 and the later
    one is +6. *)
Theorem gradient_variants_differ :
  (forall (frame : list float) (cfg : Thermal.ThermalConfig) (n : Z),
      let d := fst (Thermal.thermal_algorithm_process frame cfg n) in
      let profile := Thermal.extract_middle_rows frame in
      let s := Thermal.span_start (Thermal.detection d) in
      let e := Thermal.span_end (Thermal.detection d) in
      let t := (e - s + 1) / 3 in
      Thermal.detected (Thermal.detection d) = true ->
      3 <= Thermal.tyre_width (Thermal.detection d) ->
      Thermal.lateral_gradient d
      = fsub (column_mean profile (e - t + 1) e)
             (column_mean profile s (s + t - 1)))
  /\ (forall (frame : list float) (result : TyreData) (st : TemporalState),
         let smoothed := fst (smoothed_profile frame st) in
         let t := snd (fst (detect_tyre frame result st)) in
         hist_ok st -> detected t = 1 -> all_valid smoothed ->
         exists i j,
           span_start t <= i <= span_end t /\ span_start t <= j <= span_end t
           /\ lateral_gradient t
              = fsub (aget smoothed (Z.to_nat i)) (aget smoothed (Z.to_nat j))
           /\ bounds_span smoothed (span_start t) (span_end t)
                          (aget smoothed (Z.to_nat j)) (aget smoothed (Z.to_nat i)))
  /\ (forall (frame profile : list float) (l r : Z),
         all_valid profile ->
         let g := lateral_gradient (analyze_tyre frame profile l r) in
         (isnan g = true \/ fle zero g = true)
         /\ (all_finite profile -> fle zero g = true))
  /\ (let frame := frame_of_columns cooling_band in
      let early := fst (Thermal.thermal_algorithm_process
                          frame Thermal.thermal_algorithm_init 0) in
      let later := snd (fst (detect_tyre frame tyre_zero temporal_state_init)) in
      Thermal.detected (Thermal.detection early) = true
      /\ (Thermal.span_start (Thermal.detection early),
          Thermal.span_end (Thermal.detection early)) = (12, 19)
      /\ detected later = 1
      /\ (span_start later, span_end later) = (12, 19)
      /\ early_gradient frame = of_int (-6)
      /\ later_gradient frame = of_int 6
      /\ early_gradient frame <> later_gradient frame).
Proof.
  split; [exact early_gradient_means|].
  split.
  { intros frame result st smoothed t Hst Hdet Hv.
    destruct (detect_tyre_gradient frame result st Hst Hdet) as [Hlr E].
    subst smoothed t. rewrite E. apply profile_range_attained; assumption. }
  split.
  { intros frame profile l r Hv.
    change (lateral_gradient (analyze_tyre frame profile l r))
      with (profile_range profile l r). cbv zeta.
    split; [apply profile_range_sign; exact Hv|].
    apply profile_range_nonneg. exact Hv. }
  vm_compute. repeat split; discriminate.
Qed.

Lemma gradient_variants_differ_witness :
  let smoothed :=
    fst (smoothed_profile (frame_of_columns cooling_band) temporal_state_init) in
  let t := snd (fst (detect_tyre (frame_of_columns cooling_band) tyre_zero
                                 temporal_state_init)) in
  exists i j,
    span_start t <= i <= span_end t /\ span_start t <= j <= span_end t
    /\ lateral_gradient t
       = fsub (aget smoothed (Z.to_nat i)) (aget smoothed (Z.to_nat j))
    /\ bounds_span smoothed (span_start t) (span_end t)
                   (aget smoothed (Z.to_nat j)) (aget smoothed (Z.to_nat i)).
Proof.
  apply (proj1 (proj2 gradient_variants_differ)
               (frame_of_columns cooling_band) tyre_zero temporal_state_init).
  - unfold hist_ok. split; [reflexivity|]. split; [cbn; lia|].
    intros [|[|[|i]]]; unfold span_ok, slot, SENSOR_WIDTH; cbn; lia.
  - vm_compute. reflexivity.
  - unfold all_valid. vm_compute. repeat (constructor; [reflexivity|]). constructor.
Defined.

End GradientVariants.

(* ================================================================== *)
(** ** Finite results of rounding *)
(* ================================================================== *)

Section RoundShape.


Lemma Zdigits2_nonneg (m : Z) : 0 <= Zdigits2 m.
Proof. destruct m; cbn; lia. Qed.
















End RoundShape.

(* ================================================================== *)
(** ** The values handed to the outputs *)
(* ================================================================== *)

Section EmittedValues.

Import Thermal I2CSlave MainLoop.










Lemma temp_to_int16_tenths_zero : temp_to_int16_tenths zero = Some 0.
Proof. reflexivity. Qed.






End EmittedValues.
